(** * Transport layer of the Elasticsearch JavaScript client

    A shallow embedding of [src/Transport.ts] (request dispatch, retry
    orchestration, response normalisation, sniffing) and of the generated
    endpoint wrappers under [src/api/api/], together with the properties
    the specification states about them. *)

From Stdlib Require Import ZArith Ascii String Bool Lia.
From stdpp Require Import base list gmap strings pretty.

Local Open Scope Z_scope.
Set Warnings "-register-all".

(** * JavaScript values *)

(** The dynamically typed data that flows through [params], request and
    response bodies.  Numbers are the integers the transport computes with
    (status codes, retry counters, milliseconds). *)
Inductive JsVal :=
| VUndef
| VNull
| VBool (b : bool)
| VNum (n : Z)
| VStr (s : string)
| VArr (items : list JsVal)
| VObj (fields : list (string * JsVal))
| VBuffer (bytes : string)
| VStream (id : nat).

(** [v != null] : neither [undefined] nor [null]. *)
Definition not_nullish (v : JsVal) : bool :=
  match v with
  | VUndef | VNull => false
  | _ => true
  end.

(** ToBoolean. *)
Definition truthy (v : JsVal) : bool :=
  match v with
  | VUndef | VNull => false
  | VBool b => b
  | VNum n => negb (n =? 0)
  | VStr s => negb (String.eqb s "")
  | _ => true
  end.

(** [a || b]. *)
Definition js_or (a b : JsVal) : JsVal := if truthy a then a else b.

(** Property read [o[k]] on an object literal; [undefined] when absent or
    when [o] has no such own property. *)
Fixpoint assoc_get (k : string) (fs : list (string * JsVal)) : JsVal :=
  match fs with
  | [] => VUndef
  | (k', v) :: fs' => if String.eqb k k' then v else assoc_get k fs'
  end.

Definition get_prop (o : JsVal) (k : string) : JsVal :=
  match o with
  | VObj fs => assoc_get k fs
  | _ => VUndef
  end.

(** Property write [o[k] = v] on an object literal: an existing key keeps
    its position, a new key is appended. *)
Fixpoint assoc_set (k : string) (v : JsVal) (fs : list (string * JsVal))
  : list (string * JsVal) :=
  match fs with
  | [] => [(k, v)]
  | (k', v') :: fs' =>
      if String.eqb k k' then (k, v) :: fs' else (k', v') :: assoc_set k v fs'
  end.

(** The safe integers, [-(2^53 - 1)] to [2^53 - 1]: on them the arithmetic of
    doubles is that of the integers, and [String(n)] writes every digit. *)
Definition safe_integer (n : Z) : bool := Z.abs n <? 2 ^ 53.

(** The double quote character. *)
Definition dquote : ascii := "034"%char.

(** * The [Warning] header *)

Module Warning.

(** ** Regular expressions, as far as the transport uses them

    [result.warnings = headers['warning'].split(sep)] where, writing Q for
    the double quote, [sep] is the expression (?!\BQ[^Q]* ),(?![^Q]*Q\B).

    The matcher is the backtracking matcher of the language definition,
    written with continuations; a position is the character before it (if
    any) and the characters after it. *)

Inductive CharSet :=
| Only (c : ascii)          (* a literal character *)
| AllBut (c : ascii).       (* [^c] *)

Inductive Regex :=
| RSet (cs : CharSet)              (* one character of the set *)
| RStar (cs : CharSet)             (* cs*, greedy *)
| RSeq (r1 r2 : Regex)             (* r1r2 *)
| RNotBoundary                     (* \B *)
| RNegAhead (r : Regex).           (* (?!r) *)

Definition in_set (cs : CharSet) (c : ascii) : bool :=
  match cs with
  | Only d => Ascii.eqb c d
  | AllBut d => negb (Ascii.eqb c d)
  end.

(** [\w] : letters, digits and the underscore. *)
Definition is_word_char (c : ascii) : bool :=
  let n := nat_of_ascii c in
  ((65 <=? n) && (n <=? 90) || (97 <=? n) && (n <=? 122)
   || (48 <=? n) && (n <=? 57) || (n =? 95))%nat.

(** IsWordChar at an index: false before the start and after the end. *)
Definition word_at (c : option ascii) : bool :=
  match c with
  | Some c => is_word_char c
  | None => false
  end.

(** Greedy star over one character set: take one more character first, and
    fall back to the continuation when the rest fails.  [n] counts the
    characters consumed so far. *)
Fixpoint star (cs : CharSet) (k : option ascii -> list ascii -> nat -> option nat)
  (prev : option ascii) (rest : list ascii) (n : nat) : option nat :=
  match rest with
  | c :: rest' =>
      if in_set cs c then
        match star cs k (Some c) rest' (S n) with
        | Some e => Some e
        | None => k prev rest n
        end
      else k prev rest n
  | [] => k prev rest n
  end.

(** [run r k prev rest n] : match [r] at the position, then [k]; the result
    is the number of characters the whole match consumed. *)
Fixpoint run (r : Regex) (k : option ascii -> list ascii -> nat -> option nat)
  (prev : option ascii) (rest : list ascii) (n : nat) : option nat :=
  match r with
  | RSet cs =>
      match rest with
      | c :: rest' => if in_set cs c then k (Some c) rest' (S n) else None
      | [] => None
      end
  | RStar cs => star cs k prev rest n
  | RSeq r1 r2 => run r1 (run r2 k) prev rest n
  | RNotBoundary =>
      if Bool.eqb (word_at prev) (word_at (head rest)) then k prev rest n else None
  | RNegAhead r' =>
      match run r' (fun _ _ m => Some m) prev rest n with
      | Some _ => None
      | None => k prev rest n
      end
  end.

(** A sticky match at a position: the length of the match, if any. *)
Definition match_at (r : Regex) (prev : option ascii) (rest : list ascii) : option nat :=
  run r (fun _ _ m => Some m) prev rest 0%nat.

(** ** [String.prototype.split] with a regular expression separator

    [skip] counts the characters of a separator still to be dropped, [acc]
    holds the current piece in reverse.  An empty match at the start of a
    piece moves on by one character, as the language definition has it. *)
Fixpoint split_from (r : Regex) (prev : option ascii) (rest : list ascii)
  (skip : nat) (acc : list ascii) : list (list ascii) :=
  match rest with
  | [] => [rev acc]
  | c :: rest' =>
      match skip with
      | S n => split_from r (Some c) rest' n acc
      | O =>
          match match_at r prev rest with
          | None => split_from r (Some c) rest' 0%nat (c :: acc)
          | Some O =>
              match acc with
              | [] => split_from r (Some c) rest' 0%nat [c]
              | _ => rev acc :: split_from r (Some c) rest' 0%nat [c]
              end
          | Some (S n) => rev acc :: split_from r (Some c) rest' n []
          end
      end
  end.

Definition split (r : Regex) (s : string) : list string :=
  match list_ascii_of_string s with
  | [] => match match_at r None [] with Some _ => [] | None => [s] end
  | l => map string_of_list_ascii (split_from r None l 0%nat [])
  end.

(** The separator (?!\BQ[^Q]* ),(?![^Q]*Q\B), Q the double quote: a comma,
    between two negative lookaheads. *)
Definition warning_separator : Regex :=
  RSeq (RNegAhead (RSeq RNotBoundary (RSeq (RSet (Only dquote)) (RStar (AllBut dquote)))))
    (RSeq (RSet (Only ","%char))
       (RNegAhead (RSeq (RStar (AllBut dquote)) (RSeq (RSet (Only dquote)) RNotBoundary)))).

(** [headers['warning'].split(...)] *)
Definition split_warning (value : string) : list string :=
  split warning_separator value.

(** ** The splitting the specification describes

    Follows the specification's words: the value is cut at exactly the commas
    that are not enclosed in double quotes. *)
Fixpoint spec_split_from (rest : list ascii) (quoted : bool) (acc : list ascii)
  : list (list ascii) :=
  match rest with
  | [] => [rev acc]
  | c :: rest' =>
      if Ascii.eqb c dquote then spec_split_from rest' (negb quoted) (c :: acc)
      else if Ascii.eqb c ","%char && negb quoted then rev acc :: spec_split_from rest' quoted []
      else spec_split_from rest' quoted (c :: acc)
  end.

Definition spec_split_unquoted_commas (value : string) : list string :=
  map string_of_list_ascii (spec_split_from (list_ascii_of_string value) false []).

(** Quoting a message. *)
Definition quoted (s : string) : string :=
  String dquote (s +:+ String dquote "").

(** The first double quote of [rest], if any, is followed by the end of the
    string or by a character that is not a word character. *)
Fixpoint quote_closes (rest : list ascii) : bool :=
  match rest with
  | [] => false
  | c :: rest' =>
      if Ascii.eqb c dquote then negb (word_at (head rest')) else quote_closes rest'
  end.

End Warning.

(** * The transport *)

Module Transport.

(** The transport knows a connection by its identity only: it hands it to
    the pool and calls its [request]. *)
Definition Connection := nat.
Bind Scope nat_scope with Connection.

(** ** Requests, results and errors *)

(** The fields of [params] that [Transport.request] reads or writes.
    [remainingAttempts] is [params[kRemainingAttempts]]; a numeric field that
    is [undefined] is [None]; [headers] is [None] when null or undefined. *)
Record Params := {
  method : string;
  path : string;
  querystring : JsVal;
  body : JsVal;
  bulkBody : JsVal;
  headers : option (gmap string string);
  ignore : JsVal;
  requestTimeout : JsVal;
  timeout : JsVal;
  maxRetries : option Z;
  asStream : bool;
  remainingAttempts : option Z
}.

Definition set_headers (h : option (gmap string string)) (p : Params) : Params :=
  {| method := method p; path := path p; querystring := querystring p; body := body p;
     bulkBody := bulkBody p; headers := h; ignore := ignore p;
     requestTimeout := requestTimeout p; timeout := timeout p;
     maxRetries := maxRetries p; asStream := asStream p;
     remainingAttempts := remainingAttempts p |}.

Definition set_body (b : JsVal) (p : Params) : Params :=
  {| method := method p; path := path p; querystring := querystring p; body := b;
     bulkBody := bulkBody p; headers := headers p; ignore := ignore p;
     requestTimeout := requestTimeout p; timeout := timeout p;
     maxRetries := maxRetries p; asStream := asStream p;
     remainingAttempts := remainingAttempts p |}.

Definition set_querystring (q : JsVal) (p : Params) : Params :=
  {| method := method p; path := path p; querystring := q; body := body p;
     bulkBody := bulkBody p; headers := headers p; ignore := ignore p;
     requestTimeout := requestTimeout p; timeout := timeout p;
     maxRetries := maxRetries p; asStream := asStream p;
     remainingAttempts := remainingAttempts p |}.

Definition set_timeout (t : JsVal) (p : Params) : Params :=
  {| method := method p; path := path p; querystring := querystring p; body := body p;
     bulkBody := bulkBody p; headers := headers p; ignore := ignore p;
     requestTimeout := requestTimeout p; timeout := t;
     maxRetries := maxRetries p; asStream := asStream p;
     remainingAttempts := remainingAttempts p |}.

Definition set_remainingAttempts (a : option Z) (p : Params) : Params :=
  {| method := method p; path := path p; querystring := querystring p; body := body p;
     bulkBody := bulkBody p; headers := headers p; ignore := ignore p;
     requestTimeout := requestTimeout p; timeout := timeout p;
     maxRetries := maxRetries p; asStream := asStream p;
     remainingAttempts := a |}.

(** [params.headers[k] = v] (after [params.headers = params.headers || {}]). *)
Definition set_header (k v : string) (p : Params) : Params :=
  set_headers (Some (<[k := v]> (default ∅ (headers p)))) p.

(** [ApiResponse] *)
Record Result := {
  r_body : JsVal;
  r_statusCode : option Z;
  r_headers : option (gmap string string);
  r_warnings : option (list string)
}.

Definition with_body (b : JsVal) (r : Result) : Result :=
  {| r_body := b; r_statusCode := r_statusCode r; r_headers := r_headers r;
     r_warnings := r_warnings r |}.

(** The head of an [http.IncomingMessage]. *)
Record Response := {
  statusCode : Z;
  resp_headers : gmap string string
}.

(** Modelled from the spec: the error classes of [./errors], which is not
    among the sources, by the taxonomy of its section 7; a [ConnectionError]
    carries a message and the request params, a [ResponseError] the result.
    [JsError] is any other error object: what a socket reports, what a
    serializer throws. *)
Inductive Error :=
| JsError (message : string)
| TimeoutError (message : string)
| ConnectionError (message : string) (params : Params)
| NoLivingConnectionsError (message : string)
| ResponseError (result : Result).

(** [err.message] *)
Definition message (e : Error) : string :=
  match e with
  | JsError m | TimeoutError m | ConnectionError m _ | NoLivingConnectionsError m => m
  | ResponseError _ => "Response Error"
  end.

(** [err instanceof TimeoutError] *)
Definition is_TimeoutError (e : Error) : bool :=
  match e with
  | TimeoutError _ => true
  | _ => false
  end.

(** ** The collaborators

    [ConnectionPool], [Serializer] and the [ms] package are not part of the
    transport; it only calls them. *)

Class ConnectionPool (P : Type) := {
  pool_getConnection : P -> option Connection * P;
  pool_markDead : Connection -> P -> P;
  pool_markAlive : Connection -> P -> P;
  pool_resurrect : Z -> P -> P;
  pool_update : JsVal -> P -> P;
  pool_nodesToHost : JsVal -> JsVal
}.

(** A method that throws returns the thrown error on the left. *)
Class Serializer := {
  serialize : JsVal -> Error + string;
  ndserialize : JsVal -> Error + string;
  qserialize : JsVal -> string;
  deserialize : string -> Error + JsVal
}.

Class Ms := ms : string -> Z.

(** ** Callbacks

    The functions the transport passes around: a function of the caller,
    [noop], the closure [sniff] hands to [request], and the wrapper [once]
    builds around a function. *)
Inductive Callback :=
| Caller (u : nat)
| Noop
| SniffDone (callback : Callback)
| Once (cell : nat) (fn : Callback).

(** The second argument of a callback. *)
Inductive Value :=
| NoValue
| OfResult (r : Result)
| OfHosts (hosts : JsVal).

(** What a call of [request] returns: the abort handle of the connection
    request it issued, or what the callback returned. *)
Inductive Returned :=
| Handle (id : nat)
| Undefined.

(** ** The observable trace *)

Inductive Action :=
| Emit_request (c : Connection) (p : Params)
| Emit_response (c : Connection) (p : Params) (r : Result)
| Emit_error (e : Error) (c : Connection) (p : Params)
| Emit_sniff_error (e : Error)          (* this.emit('error', err, null, request) in sniff *)
| Pool_markDead (c : Connection)
| Pool_markAlive (c : Connection)
| Pool_update (hosts : JsVal)
| Connection_request (id : nat) (c : Connection) (p : Params)
| Deliver (u : nat) (err : option Error) (v : Value)   (* the caller's function [u] is called *)
| Uncaught_TypeError.

(** ** State *)

(** The fields of a [Transport], but for [emit], [connectionPool] and
    [serializer].  A [sniffInterval] that is not a number is [None], and so
    is a [_nextSniff] that is not one (no time is later than it). *)
Record TransportState := {
  t_maxRetries : Z;
  t_requestTimeout : JsVal;
  suggestCompression : bool;
  sniffInterval : option Z;
  sniffOnConnectionFault : bool;
  sniffEndpoint : string;
  _sniffEnabled : bool;
  _nextSniff : option Z;
  _isSniffing : bool
}.

Definition set_isSniffing (b : bool) (t : TransportState) : TransportState :=
  {| t_maxRetries := t_maxRetries t; t_requestTimeout := t_requestTimeout t;
     suggestCompression := suggestCompression t; sniffInterval := sniffInterval t;
     sniffOnConnectionFault := sniffOnConnectionFault t; sniffEndpoint := sniffEndpoint t;
     _sniffEnabled := _sniffEnabled t; _nextSniff := _nextSniff t; _isSniffing := b |}.

Definition set_nextSniff (n : option Z) (t : TransportState) : TransportState :=
  {| t_maxRetries := t_maxRetries t; t_requestTimeout := t_requestTimeout t;
     suggestCompression := suggestCompression t; sniffInterval := sniffInterval t;
     sniffOnConnectionFault := sniffOnConnectionFault t; sniffEndpoint := sniffEndpoint t;
     _sniffEnabled := _sniffEnabled t; _nextSniff := n; _isSniffing := _isSniffing t |}.

(** Where a connection request stands: its callback not yet called, its
    response being read ([payload] collected so far, the listeners stay
    registered), or nothing more to come. *)
Inductive Phase :=
| Awaiting
| Receiving (payload : string)
| Closed.

(** What the callback passed to [connection.request] closes over.  [params]
    is one object for all the attempts of a request; each connection request
    is given the value it had when the request was handed to the connection,
    which is what its handlers read as long as the attempts of a request
    follow one another. *)
Record Pending := {
  pn_connection : Connection;
  pn_params : Params;
  pn_callback : Callback;
  pn_attempts : Z;
  pn_result : Result;
  pn_head : option Response;
  pn_phase : Phase
}.

Definition set_phase (ph : Phase) (e : Pending) : Pending :=
  {| pn_connection := pn_connection e; pn_params := pn_params e;
     pn_callback := pn_callback e; pn_attempts := pn_attempts e;
     pn_result := pn_result e; pn_head := pn_head e; pn_phase := ph |}.

Definition set_result (r : Result) (e : Pending) : Pending :=
  {| pn_connection := pn_connection e; pn_params := pn_params e;
     pn_callback := pn_callback e; pn_attempts := pn_attempts e;
     pn_result := r; pn_head := pn_head e; pn_phase := pn_phase e |}.

Definition set_head (h : option Response) (e : Pending) : Pending :=
  {| pn_connection := pn_connection e; pn_params := pn_params e;
     pn_callback := pn_callback e; pn_attempts := pn_attempts e;
     pn_result := pn_result e; pn_head := h; pn_phase := pn_phase e |}.

(** The transport, its pool, the clock ([Date.now()]), the [once] wrappers
    ([cells !! c] tells whether wrapper [c] was called), the connection
    requests issued so far (a request's index is its identity), the trace,
    and whether an evaluation ran out of fuel. *)
Record World (P : Type) := {
  transport : TransportState;
  pool : P;
  now : Z;
  cells : list bool;
  pending : list Pending;
  trace : list Action;
  diverged : bool
}.

Arguments transport {P} _.
Arguments pool {P} _.
Arguments now {P} _.
Arguments cells {P} _.
Arguments pending {P} _.
Arguments trace {P} _.
Arguments diverged {P} _.

Section Model.

Context {P : Type} `{ConnectionPool P} `{Serializer} `{Ms}.

Local Abbreviation World := (World P).

Definition set_transport (t : TransportState) (w : World) : World :=
  {| transport := t; pool := pool w; now := now w; cells := cells w;
     pending := pending w; trace := trace w; diverged := diverged w |}.

Definition set_pool (p : P) (w : World) : World :=
  {| transport := transport w; pool := p; now := now w; cells := cells w;
     pending := pending w; trace := trace w; diverged := diverged w |}.

Definition set_now (t : Z) (w : World) : World :=
  {| transport := transport w; pool := pool w; now := t; cells := cells w;
     pending := pending w; trace := trace w; diverged := diverged w |}.

Definition set_cells (c : list bool) (w : World) : World :=
  {| transport := transport w; pool := pool w; now := now w; cells := c;
     pending := pending w; trace := trace w; diverged := diverged w |}.

Definition set_pending (l : list Pending) (w : World) : World :=
  {| transport := transport w; pool := pool w; now := now w; cells := cells w;
     pending := l; trace := trace w; diverged := diverged w |}.

Definition set_diverged (w : World) : World :=
  {| transport := transport w; pool := pool w; now := now w; cells := cells w;
     pending := pending w; trace := trace w; diverged := true |}.

(** One more action at the end of the trace. *)
Definition log (a : Action) (w : World) : World :=
  {| transport := transport w; pool := pool w; now := now w; cells := cells w;
     pending := pending w; trace := trace w ++ [a]; diverged := diverged w |}.

Definition markDead (c : Connection) (w : World) : World :=
  log (Pool_markDead c) (set_pool (pool_markDead c (pool w)) w).

Definition markAlive (c : Connection) (w : World) : World :=
  log (Pool_markAlive c) (set_pool (pool_markAlive c (pool w)) w).

(** ** Helpers of [Transport.ts] *)

(** [toMs] *)
Definition toMs (time : JsVal) : JsVal :=
  match time with
  | VStr s => VNum (ms s)
  | _ => time
  end.

(** [typeof obj.pipe === 'function'] : the streams among the values are the
    [VStream]s. *)
Definition isStream (obj : JsVal) : bool :=
  match obj with
  | VStream _ => true
  | _ => false
  end.

(** [shouldSerialize] *)
Definition shouldSerialize (obj : JsVal) : bool :=
  match obj with
  | VStr _ => false
  | VStream _ => false
  | VBuffer _ => false
  | _ => true
  end.

(** [Buffer.byteLength] of a string or a buffer (strings are held as their
    UTF-8 bytes). *)
Definition byteLength (v : JsVal) : nat :=
  match v with
  | VStr s | VBuffer s => String.length s
  | _ => 0%nat
  end.

(** [a || b] on numbers that may be undefined: zero is falsy. *)
Definition or_num (a b : option Z) : option Z :=
  match a with
  | Some n => if n =? 0 then b else a
  | None => b
  end.

(** [params[kRemainingAttempts] || params.maxRetries || this.maxRetries] *)
Definition resolve_attempts (params : Params) (t : TransportState) : Z :=
  match or_num (or_num (remainingAttempts params) (maxRetries params)) (Some (t_maxRetries t)) with
  | Some n => n
  | None => t_maxRetries t
  end.

(** [s.indexOf(sub)] *)
Definition indexOf (s sub : string) : Z :=
  match String.index 0 sub s with
  | Some i => Z.of_nat i
  | None => -1
  end.

(** [Array.isArray(ignore) && ignore.indexOf(statusCode) > -1] *)
Definition ignored (ign : JsVal) (status : Z) : bool :=
  match ign with
  | VArr items =>
      existsb (fun v => match v with VNum n => n =? status | _ => false end) items
  | _ => false
  end.

(** ** [once] and calling a callback *)

(** [once(callback)] : a new wrapper, not yet called. *)
Definition once (callback : Callback) (w : World) : Callback * World :=
  (Once (length (cells w)) callback, set_cells (cells w ++ [false]) w).

(** The wrapper [c] was called. *)
Definition called (c : nat) (w : World) : bool :=
  default false (cells w !! c).

(** The body of the closure [sniff] passes to [request], up to the call of
    [sniff]'s own callback, which [call] makes. *)
Definition sniff_done (err : option Error) (v : Value) (w : World)
  : World * option (option Error * Value) :=
  let w := set_transport (set_isSniffing false (transport w)) w in
  let w :=
    if _sniffEnabled (transport w)
    then set_transport
           (set_nextSniff ((fun i => now w + i) <$> sniffInterval (transport w)) (transport w)) w
    else w in
  match err with
  | Some e => (log (Emit_sniff_error e) w, Some (Some e, NoValue))
  | None =>
      let body := match v with OfResult r => r_body r | _ => VUndef end in
      if not_nullish body then
        let hosts := pool_nodesToHost (get_prop body "nodes") in
        let w := log (Pool_update hosts) (set_pool (pool_update hosts (pool w)) w) in
        (w, Some (None, OfHosts hosts))
      else
        (* [result.body.nodes] on null or undefined *)
        (log Uncaught_TypeError w, None)
  end.

(** [callback(err, v)].  A function of the caller is opaque: its call is
    recorded, and it does not call back into the transport. *)
Fixpoint call (callback : Callback) (err : option Error) (v : Value) (w : World) : World :=
  match callback with
  | Caller u => log (Deliver u err v) w
  | Noop => w
  | Once c fn =>
      if called c w then w
      else call fn err v (set_cells (<[c := true]> (cells w)) w)
  | SniffDone callback =>
      match sniff_done err v w with
      | (w, Some (err', v')) => call callback err' v' w
      | (w, None) => w
      end
  end.

(** ** [getConnection], [request] and [sniff]

    [request] calls [getConnection], which may call [sniff], which calls
    [request]: the three are written over the function they call, and tied
    together by [request_n]. *)

Definition getConnection (sniff : Callback -> World -> World) (w : World)
  : option Connection * World :=
  let now := now w in
  let w :=
    if _sniffEnabled (transport w) && from_option (fun next => now >? next) false (_nextSniff (transport w))
    then sniff Noop w
    else w in
  let w := set_pool (pool_resurrect now (pool w)) w in
  let '(c, p) := pool_getConnection (pool w) in
  (c, set_pool p w).

(** The [Content-Length] header, unless the body is a stream. *)
Definition content_length (params : Params) : Params :=
  if isStream (body params) then params
  else set_header "Content-Length" (pretty (N.of_nat (byteLength (body params)))) params.

(** The body handling of [request]: the JSON body, else the bulk body.  What
    the serializer throws is returned on the left. *)
Definition prepare_body (params : Params) : Error + Params :=
  if not_nullish (body params) then
    let serialized :=
      if shouldSerialize (body params) then
        match serialize (body params) with
        | inl err => inl err
        | inr s => inr (set_body (VStr s) params)
        end
      else inr params in
    match serialized with
    | inl err => inl err
    | inr params => inr (content_length (set_header "Content-Type" "application/json" params))
    end
  else if not_nullish (bulkBody params) then
    let serialized :=
      if shouldSerialize (bulkBody params) then
        match ndserialize (bulkBody params) with
        | inl err => inl err
        | inr s => inr (set_body (VStr s) params)
        end
      else inr (set_body (bulkBody params) params) in
    match serialized with
    | inl err => inl err
    | inr params => inr (content_length (set_header "Content-Type" "application/x-ndjson" params))
    end
  else inr params.

(** [{ body: null, statusCode: null, headers: null, warnings: null }] *)
Definition empty_result : Result :=
  {| r_body := VNull; r_statusCode := None; r_headers := None; r_warnings := None |}.

(** The end of [request]: the [Accept-Encoding] header, the query string and
    the timeout, ... *)
Definition finish_params (t : TransportState) (params : Params) : Params :=
  let params :=
    if suggestCompression t
    then set_header "Accept-Encoding" "gzip,deflate" params
    else params in
  let params := set_querystring (VStr (qserialize (querystring params))) params in
  set_timeout (toMs (js_or (requestTimeout params) (t_requestTimeout t))) params.

(** ... then the 'request' event and [connection.request(params, ...)]. *)
Definition dispatch (connection : Connection) (params : Params) (callback : Callback)
  (attempts : Z) (result : Result) (w : World) : World * Returned :=
  let w := log (Emit_request connection params) w in
  let id := length (pending w) in
  let entry :=
    {| pn_connection := connection; pn_params := params; pn_callback := callback;
       pn_attempts := attempts; pn_result := result; pn_head := None;
       pn_phase := Awaiting |} in
  (log (Connection_request id connection params) (set_pending (pending w ++ [entry]) w),
   Handle id).

(** [request] after its first line, [callback = once(callback)]. *)
Definition request_steps (sniff : Callback -> World -> World)
  (params : Params) (callback : Callback) (w : World) : World * Returned :=
  let result := empty_result in
  let attempts := resolve_attempts params (transport w) in
  let '(connection, w) := getConnection sniff w in
  match connection with
  | None =>
      (call callback (Some (NoLivingConnectionsError "There are not living connections"))
         (OfResult result) w, Undefined)
  | Some connection =>
      let params := set_headers (Some (default ∅ (headers params))) params in
      match prepare_body params with
      | inl err => (call callback (Some err) (OfResult result) w, Undefined)
      | inr params =>
          dispatch connection (finish_params (transport w) params) callback attempts result w
      end
  end.

(** [Transport.request], over the [sniff] it calls. *)
Definition request_with (sniff : Callback -> World -> World)
  (params : Params) (callback : Callback) (w : World) : World * Returned :=
  let '(callback, w) := once callback w in
  request_steps sniff params callback w.

(** The [request] object of [sniff]. *)
Definition sniff_request (t : TransportState) : Params :=
  {| method := "GET"; path := sniffEndpoint t; querystring := VUndef; body := VUndef;
     bulkBody := VUndef; headers := None; ignore := VUndef; requestTimeout := VUndef;
     timeout := VUndef; maxRetries := None; asStream := false; remainingAttempts := None |}.

(** [Transport.sniff], over the [request] it calls. *)
Definition sniff_with (request : Params -> Callback -> World -> World * Returned)
  (callback : Callback) (w : World) : World :=
  if _isSniffing (transport w) then w
  else
    let w := set_transport (set_isSniffing true (transport w)) w in
    fst (request (sniff_request (transport w)) (SniffDone callback) w).

(** [fuel] bounds the calls of [request] inside one another; a call out of
    fuel marks the world as [diverged]. *)
Fixpoint request_n (fuel : nat) (params : Params) (callback : Callback) (w : World)
  : World * Returned :=
  match fuel with
  | O => (set_diverged w, Undefined)
  | S fuel' => request_with (sniff_with (request_n fuel')) params callback w
  end.

(** [Transport.request] and [Transport.sniff].  More fuel changes neither
    ([request_fuel], [sniff_fuel]) and neither runs out of it
    ([request_total], [sniff_total]): a sniff in progress stops the calls. *)
Definition request := request_n 2.

Definition sniff := sniff_with (request_n 1).

(** ** The callback of [connection.request] and the response listeners

    Each handler runs to completion when the connection or the response
    stream calls it; [id] is the connection request it belongs to.  The
    record of a request keeps the [params] and [result] its closure holds. *)

(** A write to what the closure of connection request [id] holds. *)
Definition update_pending (id : nat) (f : Pending -> Pending) (w : World) : World :=
  set_pending (alter f id (pending w)) w.

(** [callback(err, null)] with [err !== null]. *)
Definition on_error (id : nat) (e : Pending) (err : Error) (w : World) : World :=
  let connection := pn_connection e in
  let params := pn_params e in
  let attempts := pn_attempts e in
  let w := update_pending id (set_phase Closed) w in
  let w := markDead connection w in
  let w := if sniffOnConnectionFault (transport w) then sniff Noop w else w in
  if attempts >? 0 then
    let params := set_remainingAttempts (Some (attempts - 1)) params in
    fst (request params (pn_callback e) w)
  else
    let error := if is_TimeoutError err then err else ConnectionError (message err) params in
    let w := log (Emit_error error connection params) w in
    call (pn_callback e) (Some error) (OfResult (pn_result e)) w.

(** [callback(null, response)]. *)
Definition on_response (id : nat) (e : Pending) (response : Response) (w : World) : World :=
  let result :=
    {| r_body := r_body (pn_result e);
       r_statusCode := Some (statusCode response);
       r_headers := Some (resp_headers response);
       r_warnings :=
         match resp_headers response !! "warning" with
         | Some value => Some (Warning.split_warning value)
         | None => r_warnings (pn_result e)
         end |} in
  if asStream (pn_params e) then
    let result := with_body (VStream id) result in
    let w := update_pending id (fun e => set_phase Closed (set_head (Some response) (set_result result e))) w in
    let w := log (Emit_response (pn_connection e) (pn_params e) result) w in
    call (pn_callback e) None (OfResult result) w
  else
    update_pending id
      (fun e => set_phase (Receiving "") (set_head (Some response) (set_result result e))) w.

(** [response.on('data', ...)] *)
Definition on_data (id : nat) (e : Pending) (payload chunk : string) (w : World) : World :=
  update_pending id (set_phase (Receiving (payload +:+ chunk))) w.

(** [response.on('error', ...)] *)
Definition on_stream_error (e : Pending) (err : Error) (w : World) : World :=
  call (pn_callback e) (Some (ConnectionError (message err) (pn_params e)))
    (OfResult (pn_result e)) w.

(** The body of the result once the response has ended: the payload is
    deserialized only if a [content-type] is defined and contains
    [application/json], the request is not a HEAD request and the payload is
    not the empty string. *)
Definition read_payload (headers : gmap string string) (isHead : bool) (payload : string)
  : Error + JsVal :=
  if from_option (fun ct => indexOf ct "application/json" >? -1) false (headers !! "content-type")
     && negb isHead && negb (String.eqb payload "")
  then deserialize payload
  else inr (if isHead then VBool true else VStr payload).

(** [response.on('end', ...)] *)
Definition on_end (id : nat) (e : Pending) (response : Response) (payload : string)
  (w : World) : World :=
  let connection := pn_connection e in
  let params := pn_params e in
  let attempts := pn_attempts e in
  let callback := pn_callback e in
  let result := pn_result e in
  let statusCode := statusCode response in
  let headers := resp_headers response in
  let isHead := String.eqb (method params) "HEAD" in
  match read_payload headers isHead payload with
  | inl err =>
      let w := log (Emit_error err connection params) w in
      call callback (Some err) (OfResult result) w
  | inr v =>
      let result := with_body v result in
      let w := update_pending id (set_result result) w in
      let ignoreStatusCode :=
        ignored (ignore params) statusCode || (isHead && (statusCode =? 404)) in
      let retried :=
        if negb ignoreStatusCode
           && ((statusCode =? 502) || (statusCode =? 503) || (statusCode =? 504))
        then
          let w := markDead connection w in
          if attempts >? 0 then
            let params := set_remainingAttempts (Some (attempts - 1)) params in
            inl (fst (request params callback w))
          else inr w
        else inr (markAlive connection w) in
      match retried with
      | inl w => w
      | inr w =>
          let w := log (Emit_response connection params result) w in
          if negb ignoreStatusCode && (statusCode >=? 400) then
            call callback (Some (ResponseError result)) (OfResult result) w
          else
            let result :=
              if isHead && (statusCode =? 404) then with_body (VBool false) result else result in
            let w := update_pending id (set_result result) w in
            call callback None (OfResult result) w
      end
  end.

(** ** What the environment does *)

Inductive Event :=
| ConnectionFails (id : nat) (err : Error)          (* the connection calls back with an error *)
| ConnectionResponds (id : nat) (response : Response)
| ResponseData (id : nat) (chunk : string)
| ResponseFails (id : nat) (err : Error)           (* the response stream emits 'error' *)
| ResponseEnd (id : nat)
| Tick (t : Z).                                     (* the clock moves to [t] *)

(** A connection calls its callback once, and a response emits events only
    where listeners are registered; anything else changes nothing. *)
Definition step (ev : Event) (w : World) : World :=
  match ev with
  | ConnectionFails id err =>
      match pending w !! id with
      | Some e => match pn_phase e with Awaiting => on_error id e err w | _ => w end
      | None => w
      end
  | ConnectionResponds id response =>
      match pending w !! id with
      | Some e => match pn_phase e with Awaiting => on_response id e response w | _ => w end
      | None => w
      end
  | ResponseData id chunk =>
      match pending w !! id with
      | Some e =>
          match pn_phase e with Receiving payload => on_data id e payload chunk w | _ => w end
      | None => w
      end
  | ResponseFails id err =>
      match pending w !! id with
      | Some e => match pn_phase e with Receiving _ => on_stream_error e err w | _ => w end
      | None => w
      end
  | ResponseEnd id =>
      match pending w !! id with
      | Some e =>
          match pn_phase e, pn_head e with
          | Receiving payload, Some response => on_end id e response payload w
          | _, _ => w
          end
      | None => w
      end
  | Tick t => set_now t w
  end.

(** The events of [evs], one after the other. *)
Definition run (evs : list Event) (w : World) : World :=
  fold_left (fun w ev => step ev w) evs w.

(** ** The constructor *)

(** [TransportOptions], but for [emit], [connectionPool] and [serializer]. *)
Record TransportOptions := {
  o_maxRetries : Z;
  o_requestTimeout : JsVal;
  o_suggestCompression : bool;
  o_sniffInterval : option Z;
  o_sniffOnConnectionFault : bool;
  o_sniffEndpoint : string;
  o_sniffOnStart : bool
}.

(** [new Transport(opts)] at time [clock]. *)
Definition new_Transport (opts : TransportOptions) (connectionPool : P) (clock : Z) : World :=
  let enabled := match o_sniffInterval opts with Some _ => true | None => false end in
  let t :=
    {| t_maxRetries := o_maxRetries opts;
       t_requestTimeout := toMs (o_requestTimeout opts);
       suggestCompression := o_suggestCompression opts;
       sniffInterval := o_sniffInterval opts;
       sniffOnConnectionFault := o_sniffOnConnectionFault opts;
       sniffEndpoint := o_sniffEndpoint opts;
       _sniffEnabled := enabled;
       _nextSniff := if enabled then (fun i => clock + i) <$> o_sniffInterval opts else Some 0;
       _isSniffing := false |} in
  let w :=
    {| transport := t; pool := connectionPool; now := clock; cells := []; pending := [];
       trace := []; diverged := false |} in
  if o_sniffOnStart opts then sniff Noop w else w.

(** ** Reading a trace *)

(** The caller's function [u] was called. *)
Definition is_delivery (u : nat) (a : Action) : bool :=
  match a with
  | Deliver v _ _ => Nat.eqb u v
  | _ => false
  end.

(** How many times the caller's function [u] was called. *)
Definition deliveries (u : nat) (w : World) : nat :=
  length (filter (fun a => is_delivery u a = true) (trace w)).

(** The function a callback ends in, through its wrappers. *)
Fixpoint target (cb : Callback) : Callback :=
  match cb with
  | Once _ fn => target fn
  | _ => cb
  end.

(** The connection request [e] was issued on behalf of the caller's function
    [u]. *)
Definition is_for (u : nat) (e : Pending) : bool :=
  match target (pn_callback e) with
  | Caller v => Nat.eqb u v
  | _ => false
  end.

(** How many connection requests were issued on behalf of [u]. *)
Definition attempts_of (u : nat) (w : World) : nat :=
  length (filter (fun e => is_for u e = true) (pending w)).

(** ** The vocabulary of the properties

    What the properties of the transport are stated and proved with. *)

(** *** What a handler leaves alone *)

(** The configuration of a transport: all but the two sniffing fields. *)
Definition same_config (t t' : TransportState) : Prop :=
  t_maxRetries t' = t_maxRetries t /\
  t_requestTimeout t' = t_requestTimeout t /\
  suggestCompression t' = suggestCompression t /\
  sniffInterval t' = sniffInterval t /\
  sniffOnConnectionFault t' = sniffOnConnectionFault t /\
  sniffEndpoint t' = sniffEndpoint t /\
  _sniffEnabled t' = _sniffEnabled t.

(** [frame w w'] : [w'] comes after [w] in one run of handlers: same
    configuration and clock, a longer trace, more connection requests, more
    wrappers, and no wrapper called in [w] is uncalled in [w']. *)
Record frame (w w' : World) : Prop := {
  fr_config : same_config (transport w) (transport w');
  fr_now : now w' = now w;
  fr_trace : exists l, trace w' = trace w ++ l;
  fr_pending : exists l, pending w' = pending w ++ l;
  fr_cells : (length (cells w) <= length (cells w'))%nat;
  fr_called : forall c, called c w = true -> called c w' = true
}.

(** The wrappers a callback goes through. *)
Fixpoint wrappers (cb : Callback) : list nat :=
  match cb with
  | Once c fn => c :: wrappers fn
  | SniffDone callback => wrappers callback
  | _ => []
  end.

(** [untouched cb w w'] : the wrappers of [w] that [cb] does not go through
    are in [w'] as they were. *)
Definition untouched (cb : Callback) (w w' : World) : Prop :=
  forall c, (c < length (cells w))%nat -> c ∉ wrappers cb -> cells w' !! c = cells w !! c.

(** *** The completion of a sniff run *)

(** The in-progress flag is down and, with periodic sniffing on, the next
    sniff is due [sniffInterval] after now. *)
Definition settled (w : World) : Prop :=
  _isSniffing (transport w) = false /\
  (_sniffEnabled (transport w) = true ->
   _nextSniff (transport w) = (fun i => now w + i) <$> sniffInterval (transport w)).

(** *** One delivery at most *)

(** [guarded u c0 cb] : [cb] reaches the caller's function [u], if at all,
    through the wrapper [c0]. *)
Fixpoint guarded (u c0 : nat) (cb : Callback) : Prop :=
  match cb with
  | Caller v => v <> u
  | Noop => True
  | SniffDone callback => guarded u c0 callback
  | Once c fn => c = c0 \/ guarded u c0 fn
  end.

(** The invariant of one request of the caller's function [u], whose
    outermost wrapper is [c0] and before which [u] had been called [d0]
    times: every connection request issued reaches [u] through [c0] only,
    and [u] was called once more at most, and only if [c0] was called. *)
Record at_most_once (u c0 d0 : nat) (w : World) : Prop := {
  amo_cell : (c0 < length (cells w))%nat;
  amo_pending : Forall (fun e => guarded u c0 (pn_callback e)) (pending w);
  amo_le : (deliveries u w <= d0 + 1)%nat;
  amo_zero : called c0 w = false -> deliveries u w = d0
}.

(** The caller's function [u] is somewhere in [cb]. *)
Fixpoint mentions (u : nat) (cb : Callback) : bool :=
  match cb with
  | Caller v => Nat.eqb u v
  | Noop => false
  | SniffDone callback => mentions u callback
  | Once _ fn => mentions u fn
  end.

(** [fresh u w] : no connection request of [w] leads to the caller's
    function [u]. *)
Definition fresh (u : nat) (w : World) : Prop :=
  Forall (fun e => mentions u (pn_callback e) = false) (pending w).

(** *** A chain of network errors *)

(** The retry budget the specification speaks of: the [maxRetries] of
    [params] when present, else the default of the transport. *)
Definition budget (params : Params) (t : TransportState) : Z :=
  match maxRetries params with
  | Some n => n
  | None => t_maxRetries t
  end.

(** The serializer does not throw on the body of [params]. *)
Definition serializable (params : Params) : Prop :=
  if not_nullish (body params) then
    shouldSerialize (body params) = true -> exists s, serialize (body params) = inr s
  else
    not_nullish (bulkBody params) = true -> shouldSerialize (bulkBody params) = true ->
    exists s, ndserialize (bulkBody params) = inr s.

(** The selection always finds a connection. *)
Definition always_yields : Prop :=
  forall p : P, exists c p', pool_getConnection p = (Some c, p').

(** The callback of the connection request is still to come. *)
Definition awaiting (e : Pending) : bool :=
  match pn_phase e with
  | Awaiting => true
  | _ => false
  end.

(** The connection request in flight for the caller's function [u]: the
    latest one issued for it whose callback is still to come. *)
Definition in_flight (u : nat) (w : World) : option nat :=
  (fun found => (length (pending w) - 1 - fst found)%nat)
    <$> list_find (fun e => is_for u e && awaiting e = true) (reverse (pending w)).

(** The connection fails the request in flight for [u]. *)
Definition fail_in_flight (u : nat) (err : Error) (w : World) : World :=
  match in_flight u w with
  | Some id => step (ConnectionFails id err) w
  | None => w
  end.

(** Each attempt in turn fails, with the errors of [errs]. *)
Definition fail_all (u : nat) (errs : list Error) (w : World) : World :=
  fold_left (fun w err => fail_in_flight u err w) errs w.

(** Params that went through [request] once: nothing is left to serialize. *)
Definition ready (p : Params) : Prop :=
  if not_nullish (body p) then shouldSerialize (body p) = false
  else not_nullish (bulkBody p) = false.

(** [others u w w'] : the connection requests issued from [w] to [w'] are
    not for the caller's function [u]. *)
Definition others (u : nat) (w w' : World) : Prop :=
  exists l, pending w' = pending w ++ l /\ Forall (fun e => is_for u e = false) l.

(** [cb] does not end in the caller's function [u]. *)
Definition not_for (u : nat) (cb : Callback) : Prop :=
  match target cb with
  | Caller v => Nat.eqb u v
  | _ => false
  end = false.

(** After [n] attempts for [u], none answered but by a network error: [u]
    was not called, and the last connection request is for [u], awaits its
    callback, and has attempts left. *)
Record retrying (u c0 d0 n : nat) (w : World) : Prop := {
  re_inv : at_most_once u c0 d0 w;
  re_open : called c0 w = false;
  re_count : attempts_of u w = n;
  re_last : exists l e,
      pending w = l ++ [e] /\ is_for u e = true /\ pn_phase e = Awaiting /\
      1 <= pn_attempts e /\ ready (pn_params e) /\ 1 <= budget (pn_params e) (transport w)
}.

(** *** Bodies, selections and responses *)

(** The serializer throws [err] on the body [request] would serialize: the
    document body when there is one, else the bulk body. *)
Definition throws_on (params : Params) (err : Error) : Prop :=
  if not_nullish (body params) then
    shouldSerialize (body params) = true /\ serialize (body params) = inl err
  else
    not_nullish (bulkBody params) = true /\ shouldSerialize (bulkBody params) = true /\
    ndserialize (bulkBody params) = inl err.

(** The test of [getConnection]: periodic sniffing is on and the time of the
    next sniff is past. *)
Definition sniff_due (w : World) : bool :=
  _sniffEnabled (transport w)
  && from_option (fun next => now w >? next) false (_nextSniff (transport w)).

(** What the pool hands out at a selection: [resurrect(now)], then
    [getConnection()]. *)
Definition selection (w : World) : option Connection * P :=
  pool_getConnection (pool_resurrect (now w) (pool w)).

(** The event is one of connection request [id]. *)
Definition concerns (id : nat) (ev : Event) : bool :=
  match ev with
  | ConnectionFails i _ | ConnectionResponds i _ | ResponseData i _
  | ResponseFails i _ | ResponseEnd i => Nat.eqb i id
  | Tick _ => false
  end.

(** The connection request [e] of index [id] has its response head
    [response] and reads the body, [payload] being what came so far. *)
Definition reads (id : nat) (e : Pending) (response : Response) (payload : string)
  (w : World) : Prop :=
  pending w !! id = Some e /\ pn_head e = Some response /\ pn_phase e = Receiving payload.

(** The result of a response whose head [response] came on connection
    request [e], before its body is known. *)
Definition head_result (e : Pending) (response : Response) : Result :=
  {| r_body := r_body (pn_result e);
     r_statusCode := Some (statusCode response);
     r_headers := Some (resp_headers response);
     r_warnings :=
       match resp_headers response !! "warning" with
       | Some value => Some (Warning.split_warning value)
       | None => r_warnings (pn_result e)
       end |}.

(** The body [request] reads: the document body when there is one, else
    the bulk body. *)
Definition given_body (params : Params) : JsVal :=
  if not_nullish (body params) then body params else bulkBody params.

(** The body that goes to the connection: the given one, serialized if it
    is to be, [params.body] as it is when none is given.  A body the
    serializer throws on does not go to the connection. *)
Definition sent_body (params : Params) : JsVal :=
  let given := given_body params in
  if not_nullish given then
    if shouldSerialize given then
      match (if not_nullish (body params) then serialize given else ndserialize given) with
      | inr s => VStr s
      | inl _ => given
      end
    else given
  else body params.

(** The params a handler submits again: those of its connection request,
    with one attempt less. *)
Definition retry_of (e : Pending) : Params :=
  set_remainingAttempts (Some (pn_attempts e - 1)) (pn_params e).

(** Where a handler that saw a network error stands when it looks at its
    attempts: the connection marked dead, and a sniff started if the
    transport sniffs on a connection fault. *)
Definition after_fault (sniff : Callback -> World -> World) (id : nat) (e : Pending)
  (w : World) : World :=
  let w := markDead (pn_connection e) (update_pending id (set_phase Closed) w) in
  if sniffOnConnectionFault (transport w) then sniff Noop w else w.

(** The connection request [sniff] issues on connection [c]. *)
Definition sniff_entry (c : Connection) (callback : Callback) (w : World) : Pending :=
  let t := transport w in
  {| pn_connection := c;
     pn_params := finish_params t (set_headers (Some ∅) (sniff_request t));
     pn_callback := Once (length (cells w)) (SniffDone callback);
     pn_attempts := t_maxRetries t;
     pn_result := empty_result;
     pn_head := None;
     pn_phase := Awaiting |}.

(** *** A sniff whose request keeps failing *)

(** The action is one a sniff run ends with, or a call of a caller's
    function. *)
Definition completion (a : Action) : bool :=
  match a with
  | Emit_sniff_error _ | Pool_update _ | Deliver _ _ _ | Uncaught_TypeError => true
  | _ => false
  end.

(** The connection fails the connection request issued last. *)
Definition fail_last (err : Error) (w : World) : World :=
  step (ConnectionFails (length (pending w) - 1) err) w.

(** It fails that one, then the one issued in its place, and so on, with the
    errors of [errs]. *)
Definition fail_each (errs : list Error) (w : World) : World :=
  fold_left (fun w err => fail_last err w) errs w.

(** A sniff run that handed [callback] over, [n] connection requests into
    the run of the transport, none of those of the sniff answered but by a
    network error: the state of the transport is [t], with the in-progress
    flag up; since the trace [tr] nothing ended a sniff and no caller was
    called; and the connection request issued last is one of the sniff,
    awaits its callback, and has attempts left. *)
Record stalled (callback : Callback) (t : TransportState) (tr : list Action) (n : nat)
  (w : World) : Prop := {
  sd_transport : transport w = t;
  sd_busy : _isSniffing t = true;
  sd_trace : exists l, trace w = tr ++ l /\ Forall (fun a => completion a = false) l;
  sd_last : exists l e,
      pending w = l ++ [e] /\ S (length l) = n /\
      target (pn_callback e) = SniffDone callback /\ pn_phase e = Awaiting /\
      1 <= pn_attempts e /\ ready (pn_params e) /\ 1 <= budget (pn_params e) t
}.

(** *** A sniff whose request is not retried *)

(** The connection request [id] is the one of a sniff run in progress that
    handed [callback] over and whose wrapper [n] was not called: it has no
    attempt left, and the body of its response is being read. *)
Definition listening (callback : Callback) (n id : nat) (w : World) : Prop :=
  called n w = false /\
  exists e payload response,
    pending w !! id = Some e /\ pn_phase e = Receiving payload /\
    pn_head e = Some response /\ pn_callback e = Once n (SniffDone callback) /\
    pn_attempts e <= 0.

End Model.

End Transport.

(** * The endpoint functions *)

Module Api.

(** ** More of the language *)

(** [typeof v] *)
Definition typeof (v : JsVal) : string :=
  match v with
  | VUndef => "undefined"
  | VBool _ => "boolean"
  | VNum _ => "number"
  | VStr _ => "string"
  | _ => "object"
  end.

(** Bytes below 128.  A buffer that holds no other decodes to the text with
    these very bytes. *)
Definition is_ascii (s : string) : bool :=
  forallb (fun c => (N_of_ascii c <? 128)%N) (list_ascii_of_string s).

(** [String(v)], where the model gives it.  An array joins its elements with
    commas, null and undefined elements giving the empty string.  There is no
    string, [None], for

    - a number that is not a safe integer: [String] writes the shortest
      digits that read back as the same double, zeros after them, and an
      exponent from 10^21 on;
    - a buffer that holds a byte from 128 on, which is decoded as UTF-8,
      bytes that are no UTF-8 replaced;
    - an object with a property [toString] or [__proto__] of its own, where
      the conversion does not reach [Object.prototype.toString];
    - an array that holds one of these. *)
Fixpoint to_string (v : JsVal) : option string :=
  match v with
  | VUndef => Some "undefined"
  | VNull => Some "null"
  | VBool b => Some (if b then "true" else "false")
  | VNum n => if safe_integer n then Some (pretty n) else None
  | VStr s => Some s
  | VArr items =>
      let element x := match x with VUndef | VNull => Some "" | _ => to_string x end in
      (fix join (l : list JsVal) : option string :=
         match l with
         | [] => Some ""
         | [x] => element x
         | x :: l' =>
             match element x, join l' with
             | Some first, Some rest => Some (first +:+ "," +:+ rest)
             | _, _ => None
             end
         end) items
  | VObj fields =>
      if existsb (fun k => String.eqb k "toString" || String.eqb k "__proto__") (map fst fields)
      then None
      else Some "[object Object]"
  | VBuffer bytes => if is_ascii bytes then Some bytes else None
  | VStream _ => Some "[object Object]"
  end.

(** The characters [encodeURIComponent] leaves as they are. *)
Definition unreserved (c : ascii) : bool :=
  Warning.is_word_char c
  || existsb (Ascii.eqb c) ["-"; "."; "!"; "~"; "*"; "'"; "("; ")"]%char.

Definition hex_digit (n : N) : ascii :=
  match n with
  | 10 => "A" | 11 => "B" | 12 => "C" | 13 => "D" | 14 => "E" | 15 => "F"
  | _ => ascii_of_N (48 + n)
  end%N%char.

(** [encodeURIComponent] on the UTF-8 bytes of a string. *)
Fixpoint encodeURIComponent (s : string) : string :=
  match s with
  | EmptyString => EmptyString
  | String c s' =>
      if unreserved c then String c (encodeURIComponent s')
      else
        let n := N_of_ascii c in
        String "%" (String (hex_digit (n / 16)) (String (hex_digit (n mod 16))
                                                   (encodeURIComponent s')))
  end.

(** [l.join(sep)] on strings. *)
Fixpoint join (sep : string) (l : list string) : string :=
  match l with
  | [] => ""
  | [x] => x
  | x :: l' => x +:+ sep +:+ join sep l'
  end.

(** [l.indexOf(key)] *)
Fixpoint index_from (i : Z) (key : string) (l : list string) : Z :=
  match l with
  | [] => -1
  | x :: l' => if String.eqb x key then i else index_from (i + 1) key l'
  end.

Definition index_in (key : string) (l : list string) : Z := index_from 0 key l.

(** [Object.keys(params)]: the own keys of an object literal.  Strings and
    arrays have their indices as keys, which no list of accepted names
    holds, and are given none. *)
Definition object_keys (v : JsVal) : list string :=
  match v with
  | VObj fs => map fst fs
  | _ => []
  end.

(** Modelled from the spec: the [ConfigurationError] of [./errors], which is
    not among the sources; [new ConfigurationError(message)] is an error
    object with its name and message. *)
Definition ConfigurationError (msg : string) : JsVal :=
  VObj [("name", VStr "ConfigurationError"); ("message", VStr msg)].

(** ** Arguments, requests and what a call does *)

(** The functions an endpoint function is handed: one of the caller, or the
    closure of the promise branch,
    [(err, result) => { err ? reject(err) : resolve(result) }]. *)
Inductive Fn :=
| UserFn (u : nat)
| Settle.

Inductive Arg :=
| AFn (f : Fn)
| AVal (v : JsVal).

Definition is_function (a : Arg) : bool :=
  match a with
  | AFn _ => true
  | AVal _ => false
  end.

(** [a == null] *)
Definition is_nullish (a : Arg) : bool :=
  match a with
  | AFn _ => false
  | AVal v => negb (not_nullish v)
  end.

(** The object handed to [makeRequest]. *)
Record Request := {
  rq_method : JsVal;
  rq_path : string;
  rq_querystring : JsVal;
  rq_body : JsVal;
  rq_headers : JsVal;
  rq_ignore : JsVal;
  rq_requestTimeout : JsVal
}.

(** What one call of an endpoint function does. *)
Inductive Outcome :=
| Called (callback : Arg) (err result : JsVal)       (* callback(err, result) *)
| Forwarded (request : Request) (callback : Arg)     (* makeRequest(request, callback) *)
| Promised (executor : Outcome)                      (* new Promise(...), its executor run *)
| NotModelled                                        (* a path part [to_string] gives no string for *)
| OutOfFuel.

(** A call, or the executor of its promise, ran out of fuel. *)
Fixpoint out_of_fuel (o : Outcome) : bool :=
  match o with
  | OutOfFuel => true
  | Promised executor => out_of_fuel executor
  | _ => false
  end.

(** ** The shared steps of the generated functions *)

(** The loop over [keys] that builds the querystring object. *)
Fixpoint build_querystring (accepted camelCased : list string) (params : JsVal)
  (keys : list string) (querystring : list (string * JsVal)) : list (string * JsVal) :=
  match keys with
  | [] => querystring
  | key :: keys' =>
      let querystring :=
        if negb (index_in key accepted =? -1) then
          assoc_set key (get_prop params key) querystring
        else
          let camelIndex := index_in key camelCased in
          if negb (camelIndex =? -1) then
            match accepted !! Z.to_nat camelIndex with
            | Some name => assoc_set name (get_prop params key) querystring
            | None => querystring
            end
          else querystring in
      build_querystring accepted camelCased params keys' querystring
  end.

(** ['/' + parts.filter(Boolean).map(encodeURIComponent).join('/')] *)
Definition build_path (parts : list JsVal) : option string :=
  segments ← mapM to_string (filter (fun v => truthy v = true) parts);
  Some ("/" +:+ join "/" (map encodeURIComponent segments)).

(** [params.x || null] *)
Definition or_null (v : JsVal) : JsVal := js_or v VNull.

Section Endpoints.

(** [opts.result] *)
Variable result : JsVal.

(** [if (typeof params === 'function' || params == null)] *)
Definition shift_arguments (params callback : Arg) : Arg * Arg :=
  if is_function params || is_nullish params then (AVal (VObj []), params)
  else (params, callback).

Definition value_of (a : Arg) : JsVal :=
  match a with
  | AVal v => v
  | AFn _ => VUndef
  end.

(** From the configuration of the method to the call of [makeRequest]. *)
Definition build_and_send (accepted camelCased : list string) (parts : JsVal -> list JsVal)
  (params : JsVal) (callback : Arg) : Outcome :=
  let querystring :=
    build_querystring accepted camelCased params (object_keys params) [] in
  let method := get_prop params "method" in
  let method := if not_nullish method then method else VStr "GET" in
  if not_nullish (get_prop params "headers")
     && negb (String.eqb (typeof (get_prop params "headers")) "object")
  then
    Called callback
      (ConfigurationError
         ("Headers should be an object, instead got: " +:+ typeof (get_prop params "headers")))
      result
  else
    let ignore := or_null (get_prop params "ignore") in
    let ignore := match ignore with VNum _ => VArr [ignore] | _ => ignore end in
    match build_path (parts params) with
    | Some path =>
        Forwarded
          {| rq_method := method;
             rq_path := path;
             rq_querystring := VObj querystring;
             rq_body := VNull;
             rq_headers := or_null (get_prop params "headers");
             rq_ignore := ignore;
             rq_requestTimeout := or_null (get_prop params "requestTimeout") |}
          callback
    | None => NotModelled
    end.

(** [snapshotGetRepository], over the function it calls in its promise
    branch. *)
Definition snapshotGetRepository_with (self : Arg -> Arg -> Outcome)
  (params callback : Arg) : Outcome :=
  let '(params, callback) := shift_arguments params callback in
  if is_nullish callback then
    Promised (self (AFn Settle) (AVal VUndef))
  else
    let params := value_of params in
    if not_nullish (get_prop params "body") then
      Called callback (ConfigurationError "This API does not require a body") result
    else
      build_and_send
        ["master_timeout"; "local"; "pretty"; "human"; "error_trace"; "source"; "filter_path"]
        ["masterTimeout"; "local"; "pretty"; "human"; "errorTrace"; "source"; "filterPath"]
        (fun params => [VStr "_snapshot"; get_prop params "repository"])
        params callback.

Fixpoint snapshotGetRepository_n (fuel : nat) (params callback : Arg) : Outcome :=
  match fuel with
  | O => OutOfFuel
  | S fuel' => snapshotGetRepository_with (snapshotGetRepository_n fuel') params callback
  end.

Definition snapshotGetRepository := snapshotGetRepository_n 2.

(** [xpackMigrationGetAssistance], likewise. *)
Definition xpackMigrationGetAssistance_with (self : Arg -> Arg -> Outcome)
  (params callback : Arg) : Outcome :=
  let '(params, callback) := shift_arguments params callback in
  if is_nullish callback then
    Promised (self (AFn Settle) (AVal VUndef))
  else
    build_and_send
      ["allow_no_indices"; "expand_wildcards"; "ignore_unavailable"]
      ["allowNoIndices"; "expandWildcards"; "ignoreUnavailable"]
      (fun params =>
         [VStr "_xpack"; VStr "migration"; VStr "assistance"; get_prop params "index"])
      (value_of params) callback.

Fixpoint xpackMigrationGetAssistance_n (fuel : nat) (params callback : Arg) : Outcome :=
  match fuel with
  | O => OutOfFuel
  | S fuel' =>
      xpackMigrationGetAssistance_with (xpackMigrationGetAssistance_n fuel') params callback
  end.

Definition xpackMigrationGetAssistance := xpackMigrationGetAssistance_n 2.

(** ** What the caller gets

    [makeRequest] is the transport of the client; [answer] is what it calls
    the callback with for a request. *)
Variable answer : Request -> JsVal * JsVal.

(** The arguments the callback of a call is called with. *)
Definition delivered (o : Outcome) : option (JsVal * JsVal) :=
  match o with
  | Called _ err res => Some (err, res)
  | Forwarded request _ => Some (answer request)
  | _ => None
  end.

Inductive Settlement :=
| Resolved (value : JsVal)
| Rejected (reason : JsVal).

(** [err ? reject(err) : resolve(result)] *)
Definition settle (d : JsVal * JsVal) : Settlement :=
  if truthy (fst d) then Rejected (fst d) else Resolved (snd d).

(** How the promise a call returned is settled. *)
Definition settlement (o : Outcome) : option Settlement :=
  match o with
  | Promised executor => settle <$> delivered executor
  | _ => None
  end.

(** The promise form as the specification describes it: the promise of
    [endpoint(params)] resolves with the result, and rejects with the error,
    that the callback form delivers for the same [params]. *)
Definition spec_promise_form (endpoint : Arg -> Arg -> Outcome) (params : JsVal)
  : option Settlement :=
  settle <$> delivered (endpoint (AVal params) (AFn (UserFn 0))).

End Endpoints.

(** A transport that answers every request with its path. *)
Definition echo_path (request : Request) : JsVal * JsVal :=
  (VNull, VStr (rq_path request)).

(** ** The endpoints, side by side *)

(** The request a call hands to [makeRequest], by itself or in the executor
    of the promise it returns. *)
Fixpoint forwarded (o : Outcome) : option Request :=
  match o with
  | Forwarded request _ => Some request
  | Promised executor => forwarded executor
  | _ => None
  end.

(** The request built from [params] that hold nothing: [{}]. *)
Definition bare_request (path : string) : Request :=
  {| rq_method := VStr "GET"; rq_path := path; rq_querystring := VObj [];
     rq_body := VNull; rq_headers := VNull; rq_ignore := VNull;
     rq_requestTimeout := VNull |}.

(** What tells one generated function from the other: the names accepted in
    the querystring, snake_case and camelCase, the fixed parts of the path and
    the name of the parameter that is its last part. *)
Record Endpoint := {
  ep_call : Arg -> Arg -> Outcome;
  ep_accepted : list string;
  ep_camelCased : list string;
  ep_fixed : list string;
  ep_part : string
}.

Definition snapshot_get_repository (result : JsVal) : Endpoint :=
  {| ep_call := snapshotGetRepository result;
     ep_accepted :=
       ["master_timeout"; "local"; "pretty"; "human"; "error_trace"; "source"; "filter_path"];
     ep_camelCased :=
       ["masterTimeout"; "local"; "pretty"; "human"; "errorTrace"; "source"; "filterPath"];
     ep_fixed := ["_snapshot"];
     ep_part := "repository" |}.

Definition xpack_migration_get_assistance (result : JsVal) : Endpoint :=
  {| ep_call := xpackMigrationGetAssistance result;
     ep_accepted := ["allow_no_indices"; "expand_wildcards"; "ignore_unavailable"];
     ep_camelCased := ["allowNoIndices"; "expandWildcards"; "ignoreUnavailable"];
     ep_fixed := ["_xpack"; "migration"; "assistance"];
     ep_part := "index" |}.

Definition endpoints (result : JsVal) : list Endpoint :=
  [snapshot_get_repository result; xpack_migration_get_assistance result].

(** The parts of the path of an endpoint, as its [parts] array has them. *)
Definition ep_parts (ep : Endpoint) (params : JsVal) : list JsVal :=
  map VStr (ep_fixed ep) ++ [get_prop params (ep_part ep)].

(** The path of an endpoint called without its last part. *)
Definition ep_base (ep : Endpoint) : string := "/" +:+ join "/" (ep_fixed ep).

(** The name a key of [params] goes under in the querystring, if it goes
    there at all: itself when accepted, else the accepted name at the index
    it has among the camelCased ones. *)
Definition sent_as (accepted camelCased : list string) (key : string) : option string :=
  if negb (index_in key accepted =? -1) then Some key
  else if negb (index_in key camelCased =? -1)
       then accepted !! Z.to_nat (index_in key camelCased)
       else None.

End Api.

(** * Scenarios

    Concrete collaborators, transports and requests: the inputs at which the
    general statements are applied, and the runs the sentences of the
    specification are checked on. *)

Module Scenarios.

Import Transport.

(** ** Collaborators *)

(** A pool over a fixed list of nodes, each alive or dead: the first node
    alive is selected, and nothing is resurrected. *)
#[export] Instance nodes_pool : ConnectionPool (list (Connection * bool)) := {
  pool_getConnection p := (fst <$> head (filter (fun n => snd n = true) p), p);
  pool_markDead c p := map (fun n => if Nat.eqb (fst n) c then (fst n, false) else n) p;
  pool_markAlive c p := map (fun n => if Nat.eqb (fst n) c then (fst n, true) else n) p;
  pool_resurrect _ p := p;
  pool_update _ p := p;
  pool_nodesToHost v := v
}.

(** A pool of one node that it hands out whatever happened to it (a node
    resurrected at each selection). *)
#[export] Instance single_node_pool : ConnectionPool unit := {
  pool_getConnection p := (Some 0%nat, p);
  pool_markDead _ p := p;
  pool_markAlive _ p := p;
  pool_resurrect _ p := p;
  pool_update _ p := p;
  pool_nodesToHost v := v
}.

(** A serializer that knows the empty object and throws on anything else. *)
#[export] Instance empty_object_serializer : Serializer := {
  serialize v :=
    match v with VObj [] => inr "{}"%string | _ => inl (JsError "not serializable") end;
  ndserialize v :=
    match v with VArr [] => inr ""%string | _ => inl (JsError "not serializable") end;
  qserialize v := match v with VStr s => s | _ => ""%string end;
  deserialize s :=
    if String.eqb s "{}" then inr (VObj []) else inl (JsError "Unexpected token")
}.

(** Every duration string stands for half a minute. *)
#[export] Instance ms_half_minute : Ms := fun _ => 30000.

(** ** Transports and requests *)

(** No sniffing, and [retries] as the retry budget. *)
Definition options (retries : Z) : TransportOptions :=
  {| o_maxRetries := retries; o_requestTimeout := VNum 30000; o_suggestCompression := false;
     o_sniffInterval := None; o_sniffOnConnectionFault := false;
     o_sniffEndpoint := "_nodes/_all/http"; o_sniffOnStart := false |}.

(** A sniff every 300 ms, and no retry. *)
Definition sniffing_options : TransportOptions :=
  {| o_maxRetries := 0; o_requestTimeout := VNum 30000; o_suggestCompression := false;
     o_sniffInterval := Some 300; o_sniffOnConnectionFault := false;
     o_sniffEndpoint := "_nodes/_all/http"; o_sniffOnStart := false |}.

(** Three nodes, all alive. *)
Definition three_nodes : list (Connection * bool) :=
  [(0%nat, true); (1%nat, true); (2%nat, true)].

(** [{ method: m, path: p }] *)
Definition bare (m p : string) : Params :=
  {| method := m; path := p; querystring := VUndef; body := VUndef;
     bulkBody := VUndef; headers := None; ignore := VUndef; requestTimeout := VUndef;
     timeout := VUndef; maxRetries := None; asStream := false; remainingAttempts := None |}.

(** A request with a document body and a bulk body. *)
Definition both_bodies : Params :=
  {| method := "POST"; path := "/_bulk"; querystring := VUndef; body := VStr "{}";
     bulkBody := VStr "{}"; headers := None; ignore := VUndef; requestTimeout := VUndef;
     timeout := VUndef; maxRetries := None; asStream := false; remainingAttempts := None |}.

(** The error of a socket that cannot connect. *)
Definition refused : Error := JsError "connect ECONNREFUSED".

(** The head of a JSON response, and of one with no header at all. *)
Definition json_head (status : Z) : Response :=
  {| statusCode := status; resp_headers := {[ "content-type" := "application/json"%string ]} |}.

Definition plain_head (status : Z) : Response :=
  {| statusCode := status; resp_headers := ∅ |}.

(** The transport over the single node. *)
Definition single (retries : Z) : World unit := new_Transport (options retries) tt 0.

(** The transport over three nodes. *)
Definition cluster (retries : Z) : World (list (Connection * bool)) :=
  new_Transport (options retries) three_nodes 0.

(** ** Reading a run *)

(** A call of [connectionPool.markDead]. *)
Definition is_markDead (a : Action) : bool :=
  match a with
  | Pool_markDead _ => true
  | _ => false
  end.

(** The connections the requests of a trace went to, in order. *)
Definition connections_tried (tr : list Action) : list Connection :=
  omap (fun a => match a with Connection_request _ c _ => Some c | _ => None end) tr.

(** The retry counters the requests of a trace carried, in order. *)
Definition counters_sent (tr : list Action) : list (option Z) :=
  omap (fun a => match a with
                 | Connection_request _ _ p => Some (remainingAttempts p)
                 | _ => None
                 end) tr.

(** What the caller's function [u] was called with. *)
Definition delivered_to (u : nat) (tr : list Action) : list (option Error * Value) :=
  omap (fun a => match a with
                 | Deliver v err x => if Nat.eqb u v then Some (err, x) else None
                 | _ => None
                 end) tr.

(** ** States *)

(** A connection request whose response is being read. *)
Definition reading (m : string) (attempts : Z) : Pending :=
  {| pn_connection := 0%nat; pn_params := bare m "/"; pn_callback := Once 0 (Caller 7);
     pn_attempts := attempts; pn_result := empty_result; pn_head := None;
     pn_phase := Receiving "" |}.

(** A transport whose pool has no node. *)
Definition no_nodes : World (list (Connection * bool)) := new_Transport (options 3) [] 0.

(** A transport that sniffs periodically, over the single node. *)
Definition periodic : World unit := new_Transport sniffing_options tt 0.

(** A sniff every 300 ms, and three retries. *)
Definition discovering_options : TransportOptions :=
  {| o_maxRetries := 3; o_requestTimeout := VNum 30000; o_suggestCompression := false;
     o_sniffInterval := Some 300; o_sniffOnConnectionFault := false;
     o_sniffEndpoint := "_nodes/_all/http"; o_sniffOnStart := false |}.

(** A transport that sniffs periodically and retries, over the single node. *)
Definition discovering : World unit := new_Transport discovering_options tt 0.

(** No retry, and a sniff at each connection fault. *)
Definition watchful_options : TransportOptions :=
  {| o_maxRetries := 0; o_requestTimeout := VNum 30000; o_suggestCompression := false;
     o_sniffInterval := None; o_sniffOnConnectionFault := true;
     o_sniffEndpoint := "_nodes/_all/http"; o_sniffOnStart := false |}.

(** A transport that sniffs on a connection fault, over the single node. *)
Definition watchful : World unit := new_Transport watchful_options tt 0.

(** ** Requests in flight *)

(** [{ method: 'PUT', path: '/doc', body: b }] *)
Definition document (b : JsVal) : Params := set_body b (bare "PUT" "/doc").

(** [{ method: 'POST', path: '/_bulk', bulkBody: b }] *)
Definition bulk (b : JsVal) : Params :=
  {| method := "POST"; path := "/_bulk"; querystring := VUndef; body := VUndef;
     bulkBody := b; headers := None; ignore := VUndef; requestTimeout := VUndef;
     timeout := VUndef; maxRetries := None; asStream := false; remainingAttempts := None |}.

(** [{ method: 'GET', path: '/doc', ignore: [status] }] *)
Definition ignoring (status : Z) : Params :=
  {| method := "GET"; path := "/doc"; querystring := VUndef; body := VUndef;
     bulkBody := VUndef; headers := None; ignore := VArr [VNum status];
     requestTimeout := VUndef; timeout := VUndef; maxRetries := None; asStream := false;
     remainingAttempts := None |}.

(** [{ method: 'GET', path: '/doc', asStream: true }] *)
Definition streaming : Params :=
  {| method := "GET"; path := "/doc"; querystring := VUndef; body := VUndef;
     bulkBody := VUndef; headers := None; ignore := VUndef; requestTimeout := VUndef;
     timeout := VUndef; maxRetries := None; asStream := true; remainingAttempts := None |}.

(** The request of the caller's function 7 on the single node, nothing
    retried. *)
Definition asked (params : Params) : World unit :=
  fst (request params (Caller 7) (single 0)).

(** That request, the head of its response and some chunks of its body in. *)
Definition answered (params : Params) (response : Response) (chunks : list string)
  : World unit :=
  run (ConnectionResponds 0 response :: map (ResponseData 0) chunks) (asked params).

(** The first connection request of a state. *)
Definition first_request (w : World unit) : Pending :=
  default (reading "GET" 0) (pending w !! 0%nat).

End Scenarios.

(** * Properties of the [Warning] header *)

Module WarningFacts.

Import Warning.

(** ** What the separator matches *)

Lemma star_until_quote (k : nat -> option nat) :
  (forall m, k m <> None) ->
  forall rest prev n,
    star (AllBut dquote)
      (run (RSeq (RSet (Only dquote)) RNotBoundary) (fun _ _ m => k m)) prev rest n = None
    <-> quote_closes rest = false.
Proof.
  intros Hk. induction rest as [| c rest IH]; intros prev n; simpl.
  - tauto.
  - destruct (Ascii.eqb c dquote) eqn:Hc; simpl.
    + change (word_at (Some c)) with (is_word_char c).
      apply Ascii.eqb_eq in Hc. subst c.
      change (is_word_char dquote) with false.
      destruct (word_at (head rest)); simpl; split; try discriminate; try reflexivity.
      intros Hn. now apply Hk in Hn.
    + specialize (IH (Some c) (S n)).
      destruct (star _ _ (Some c) rest (S n)) eqn:Hs.
      * split; [discriminate |]. intros Hq. apply IH in Hq. discriminate.
      * split; [intros _; now apply IH | reflexivity].
Qed.

(** The separator matches at a comma unless the first double quote after it
    closes nothing that starts with a word character; it matches nowhere
    else, and the match is the comma alone. *)
Lemma separator_match prev rest :
  match_at warning_separator prev rest
  = match rest with
    | c :: rest' =>
        if Ascii.eqb c ","%char && negb (quote_closes rest') then Some 1%nat else None
    | [] => None
    end.
Proof.
  unfold match_at, warning_separator. cbn [run].
  destruct rest as [| c rest'].
  - now destruct (Bool.eqb _ _).
  - destruct (Ascii.eqb c ","%char) eqn:Hc.
    + apply Ascii.eqb_eq in Hc. subst c. cbn [andb].
      change (in_set (Only dquote) ","%char) with false.
      change (in_set (Only ","%char) ","%char) with true.
      pose proof (star_until_quote Some ltac:(discriminate) rest' (Some ","%char) 1%nat) as Hs.
      cbn [run] in Hs.
      assert (Hgoal :
        match
          star (AllBut dquote)
            (fun (_ : option ascii) (rest : list ascii) (n : nat) =>
               match rest with
               | [] => None
               | c :: rest'0 =>
                   if in_set (Only dquote) c
                   then if Bool.eqb (word_at (Some c)) (word_at (head rest'0))
                        then Some (S n) else None
                   else None
               end)
            (Some ","%char) rest' 1%nat
        with
        | Some _ => None
        | None => Some 1%nat
        end = (if negb (quote_closes rest') then Some 1%nat else None)).
      { match goal with |- match ?X with _ => _ end = _ => destruct X eqn:Hstar end.
        - destruct (quote_closes rest'); [reflexivity |].
          destruct Hs as [_ Hs]. now specialize (Hs eq_refl).
        - destruct Hs as [Hs _]. now rewrite (Hs eq_refl). }
      destruct (Bool.eqb (word_at prev) _); exact Hgoal.
    + cbn [andb in_set]. rewrite Hc.
      match goal with |- match ?X with _ => _ end = _ => now destruct X end.
Qed.

(** The value 299 - Qmsg, with, commasQ of the specification (Q the double
    quote) is one warning, not three. *)
Lemma quoted_commas_make_one_warning :
  let value := "299 - " +:+ quoted "msg, with, commas" in
  split_warning value = [value].
Proof. reflexivity. Qed.

(** C7, at a failing input: two warnings, the second message starting with a
    bracket, as a server sends them.  The comma between them is enclosed in
    no quotes, and the value is not split there. *)
Theorem unquoted_comma_not_split :
  let first := "299 Elasticsearch-7.0.0 " +:+ quoted "deprecated" in
  let second := " 299 Elasticsearch-7.0.0 " +:+ quoted "[types removal] use typeless" in
  let value := first +:+ "," +:+ second in
  split_warning value = [value] /\
  spec_split_unquoted_commas value = [first; second].
Proof. split; reflexivity. Qed.

(** ** What the splitting keeps *)

Lemma split_from_nonempty r rest : forall prev skip acc, split_from r prev rest skip acc <> [].
Proof.
  induction rest as [| c rest IH]; intros prev skip acc; simpl; [discriminate |].
  destruct skip as [| n]; [| apply IH].
  destruct (match_at r prev (c :: rest)) as [[| n] |]; [| discriminate | apply IH].
  destruct acc; [apply IH | discriminate].
Qed.

Lemma join_cons sep x l : l <> [] -> Api.join sep (x :: l) = x +:+ sep +:+ Api.join sep l.
Proof. destruct l; [congruence | reflexivity]. Qed.

Lemma string_of_list_ascii_app l1 l2 :
  string_of_list_ascii (l1 ++ l2) = string_of_list_ascii l1 +:+ string_of_list_ascii l2.
Proof. induction l1 as [| c l1 IH]; simpl; [reflexivity | now rewrite IH]. Qed.

Lemma split_from_join rest : forall prev acc,
  Api.join "," (map string_of_list_ascii (split_from warning_separator prev rest 0 acc))
  = string_of_list_ascii (rev acc ++ rest).
Proof.
  induction rest as [| c rest IH]; intros prev acc.
  - simpl. now rewrite app_nil_r.
  - cbn [split_from]. rewrite separator_match.
    destruct (Ascii.eqb c ","%char && negb (quote_closes rest)) eqn:E.
    + apply andb_true_iff in E as [Hc _]. apply Ascii.eqb_eq in Hc. subst c.
      cbn [map]. rewrite join_cons.
      * rewrite IH. simpl rev. rewrite app_nil_l, string_of_list_ascii_app. reflexivity.
      * intros Hnil. apply map_eq_nil in Hnil. now apply split_from_nonempty in Hnil.
    + rewrite IH. simpl. now rewrite <- app_assoc.
Qed.

(** The pieces of a [Warning] value, joined again with commas, are the value:
    the splitting drops separating commas and nothing else, whatever the value
    holds. *)
Theorem split_drops_only_commas value :
  Api.join "," (split_warning value) = value.
Proof.
  unfold split_warning, split.
  destruct (list_ascii_of_string value) as [| c l] eqn:E.
  - now rewrite separator_match.
  - rewrite split_from_join. simpl rev. rewrite app_nil_l, <- E.
    apply string_of_list_ascii_of_string.
Qed.

(** ** Values without quotes, values without commas *)

Lemma quote_closes_without_quote rest : dquote ∉ rest -> quote_closes rest = false.
Proof.
  induction rest as [| c rest IH]; intros Hq; simpl; [reflexivity |].
  apply not_elem_of_cons in Hq as [Hc Hq].
  destruct (Ascii.eqb c dquote) eqn:E; [apply Ascii.eqb_eq in E; congruence | auto].
Qed.

Lemma split_from_without_quote rest :
  dquote ∉ rest ->
  forall prev acc, split_from warning_separator prev rest 0 acc = spec_split_from rest false acc.
Proof.
  induction rest as [| c rest IH]; intros Hq prev acc; [reflexivity |].
  apply not_elem_of_cons in Hq as [Hc Hq].
  cbn [split_from spec_split_from]. rewrite separator_match.
  rewrite (quote_closes_without_quote rest Hq).
  replace (Ascii.eqb c dquote) with false
    by (symmetry; apply Ascii.eqb_neq; congruence).
  cbn [negb]. destruct (Ascii.eqb c ","%char && true); now rewrite IH.
Qed.

(** A value that holds no double quote is cut at every comma: on such values
    the splitting is the one the comment of the source describes. *)
Theorem without_quotes_every_comma_splits value :
  dquote ∉ list_ascii_of_string value ->
  split_warning value = spec_split_unquoted_commas value.
Proof.
  intros Hq. unfold split_warning, split, spec_split_unquoted_commas.
  destruct (list_ascii_of_string value) as [| c l] eqn:E.
  - rewrite separator_match. destruct value; [reflexivity | discriminate].
  - now rewrite split_from_without_quote.
Qed.

Lemma split_from_without_comma rest :
  ","%char ∉ rest ->
  forall prev acc, split_from warning_separator prev rest 0 acc = [rev acc ++ rest].
Proof.
  induction rest as [| c rest IH]; intros Hq prev acc.
  - simpl. now rewrite app_nil_r.
  - apply not_elem_of_cons in Hq as [Hc Hq].
    cbn [split_from]. rewrite separator_match.
    replace (Ascii.eqb c ","%char) with false
      by (symmetry; apply Ascii.eqb_neq; congruence).
    cbn [andb]. rewrite IH by exact Hq. simpl. now rewrite <- app_assoc.
Qed.

(** A value that holds no comma is one warning, the value itself. *)
Theorem without_comma_one_warning value :
  ","%char ∉ list_ascii_of_string value ->
  split_warning value = [value].
Proof.
  intros Hq. unfold split_warning, split.
  destruct (list_ascii_of_string value) as [| c l] eqn:E.
  - now rewrite separator_match.
  - rewrite split_from_without_comma by exact Hq.
    change (rev [] ++ c :: l) with (c :: l). cbn [map].
    now rewrite <- E, string_of_list_ascii_of_string.
Qed.

End WarningFacts.

(** * Properties of the transport *)

Module TransportFacts.

Import Transport.

Section Facts.

Context {P : Type} `{ConnectionPool P} `{Serializer} `{Ms}.

Local Abbreviation World := (World P).

Implicit Types w : World.

(** ** [request] and [sniff] do not depend on the fuel *)

Lemma sniff_with_busy request' callback w :
  _isSniffing (transport w) = true -> sniff_with request' callback w = w.
Proof. intros Hb. unfold sniff_with. now rewrite Hb. Qed.

Lemma getConnection_ext s1 s2 w :
  s1 Noop w = s2 Noop w -> getConnection s1 w = getConnection s2 w.
Proof. intros Hs. unfold getConnection. now rewrite Hs. Qed.

Lemma request_with_ext s1 s2 params callback w :
  (forall w', transport w' = transport w -> s1 Noop w' = s2 Noop w') ->
  request_with s1 params callback w = request_with s2 params callback w.
Proof.
  intros Hs. unfold request_with, request_steps, once.
  rewrite (getConnection_ext s1 s2); [reflexivity | now apply Hs].
Qed.

Lemma request_n_busy n params callback w :
  _isSniffing (transport w) = true ->
  request_n (S n) params callback w = request_n 1 params callback w.
Proof.
  intros Hb. simpl. apply request_with_ext. intros w' Ht.
  rewrite !sniff_with_busy; congruence.
Qed.

Lemma sniff_with_fuel n callback w :
  sniff_with (request_n (S n)) callback w = sniff_with (request_n 1) callback w.
Proof.
  unfold sniff_with. destruct (_isSniffing (transport w)); [reflexivity |].
  now rewrite request_n_busy.
Qed.

(** With two units of fuel or more, [request] is the same function. *)
Lemma request_fuel n params callback w :
  request_n (S (S n)) params callback w = request params callback w.
Proof.
  unfold request. simpl. apply request_with_ext. intros w' _.
  apply (sniff_with_fuel n).
Qed.

Lemma sniff_fuel n callback w :
  sniff_with (request_n (S n)) callback w = sniff callback w.
Proof. apply sniff_with_fuel. Qed.

(** ** What calling a callback leaves alone *)

Lemma same_config_refl t : same_config t t.
Proof. repeat split. Qed.

Lemma same_config_trans t1 t2 t3 :
  same_config t1 t2 -> same_config t2 t3 -> same_config t1 t3.
Proof. unfold same_config. intuition congruence. Qed.

Lemma called_fire c d (w : World) :
  called c w = true -> called c (set_cells (<[d := true]> (cells w)) w) = true.
Proof.
  unfold called. simpl. intros Hc.
  destruct (decide (c = d)) as [-> | Hne].
  - destruct (cells w !! d) eqn:E; [| discriminate].
    rewrite list_lookup_insert_eq; [reflexivity | now apply lookup_lt_Some in E].
  - now rewrite list_lookup_insert_ne.
Qed.

Lemma frame_refl w : frame w w.
Proof.
  split; try lia; auto using same_config_refl; exists []; now rewrite app_nil_r.
Qed.

Lemma frame_trans w1 w2 w3 : frame w1 w2 -> frame w2 w3 -> frame w1 w3.
Proof.
  intros [c1 n1 [l1 t1] [m1 p1] k1 f1] [c2 n2 [l2 t2] [m2 p2] k2 f2]. split.
  - eauto using same_config_trans.
  - congruence.
  - exists (l1 ++ l2). now rewrite t2, t1, app_assoc.
  - exists (m1 ++ m2). now rewrite p2, p1, app_assoc.
  - lia.
  - auto.
Qed.

(** A change that touches none of what [frame] speaks about. *)
Lemma frame_same w w' :
  same_config (transport w) (transport w') -> now w' = now w ->
  trace w' = trace w -> pending w' = pending w -> cells w' = cells w ->
  frame w w'.
Proof.
  intros Hc Hn Ht Hp Hk. split; auto.
  - exists []. now rewrite app_nil_r.
  - exists []. now rewrite app_nil_r.
  - now rewrite Hk.
  - intros c. unfold called. now rewrite Hk.
Qed.

Lemma log_frame a w : frame w (log a w).
Proof.
  split; simpl; auto using same_config_refl.
  - now exists [a].
  - exists []. now rewrite app_nil_r.
Qed.

Lemma fire_frame d w : frame w (set_cells (<[d := true]> (cells w)) w).
Proof.
  split; simpl; auto using same_config_refl, called_fire.
  - exists []. now rewrite app_nil_r.
  - exists []. now rewrite app_nil_r.
  - now rewrite length_insert.
Qed.

Lemma once_frame callback w : frame w (snd (once callback w)).
Proof.
  split; simpl; auto using same_config_refl.
  - exists []. now rewrite app_nil_r.
  - exists []. now rewrite app_nil_r.
  - rewrite length_app. lia.
  - intros c. unfold called. simpl. intros Hc.
    destruct (cells w !! c) eqn:E; [| discriminate].
    now rewrite (lookup_app_l_Some _ _ _ _ E).
Qed.

Lemma set_isSniffing_config b t : same_config t (set_isSniffing b t).
Proof. unfold same_config. simpl. tauto. Qed.

Lemma set_nextSniff_config n t : same_config t (set_nextSniff n t).
Proof. unfold same_config. simpl. tauto. Qed.

Lemma sniff_done_frame err v w : frame w (fst (sniff_done err v w)).
Proof.
  unfold sniff_done.
  set (wa := set_transport (set_isSniffing false (transport w)) w).
  assert (Ha : frame w wa)
    by (apply frame_same; [apply set_isSniffing_config | reflexivity ..]).
  set (wb := if _sniffEnabled (transport wa) then _ else wa).
  assert (Hb : frame wa wb).
  { subst wb. destruct (_sniffEnabled (transport wa)); [| apply frame_refl].
    apply frame_same; [apply set_nextSniff_config | reflexivity ..]. }
  assert (Hab := frame_trans _ _ _ Ha Hb).
  destruct err as [e |]; simpl.
  - eapply frame_trans; [exact Hab | apply log_frame].
  - destruct (not_nullish _); simpl.
    + eapply frame_trans; [exact Hab |].
      eapply frame_trans; [| apply log_frame].
      apply frame_same; auto using same_config_refl.
    + eapply frame_trans; [exact Hab | apply log_frame].
Qed.

Lemma sniff_done_pending err v w : pending (fst (sniff_done err v w)) = pending w.
Proof.
  unfold sniff_done.
  destruct (_sniffEnabled _), err as [e |]; simpl; try reflexivity;
    destruct (not_nullish _); reflexivity.
Qed.

Lemma sniff_done_cells err v w : cells (fst (sniff_done err v w)) = cells w.
Proof.
  unfold sniff_done.
  destruct (_sniffEnabled _), err as [e |]; simpl; try reflexivity;
    destruct (not_nullish _); reflexivity.
Qed.

Lemma call_frame callback : forall err v w, frame w (call callback err v w).
Proof.
  induction callback as [u | | callback IH | c fn IH]; intros err v w; simpl.
  - apply log_frame.
  - apply frame_refl.
  - pose proof (sniff_done_frame err v w) as Hs.
    destruct (sniff_done err v w) as [w1 [[err' v'] |]]; simpl in Hs.
    + eapply frame_trans; [exact Hs | apply IH].
    + exact Hs.
  - destruct (called c w); [apply frame_refl |].
    eapply frame_trans; [apply fire_frame | apply IH].
Qed.

(** Calling a callback issues no connection request. *)
Lemma call_pending callback : forall err v w, pending (call callback err v w) = pending w.
Proof.
  induction callback as [u | | callback IH | c fn IH]; intros err v w; simpl; auto.
  - pose proof (sniff_done_pending err v w) as Hs.
    destruct (sniff_done err v w) as [w1 [[err' v'] |]]; simpl in Hs; [rewrite IH |]; auto.
  - destruct (called c w); [reflexivity |]. now rewrite IH.
Qed.

Lemma call_cells_length callback :
  forall err v w, length (cells (call callback err v w)) = length (cells w).
Proof.
  induction callback as [u | | callback IH | c fn IH]; intros err v w; simpl; auto.
  - pose proof (sniff_done_cells err v w) as Hs.
    destruct (sniff_done err v w) as [w1 [[err' v'] |]]; simpl in Hs;
      [rewrite IH |]; now rewrite Hs.
  - destruct (called c w); [reflexivity |]. rewrite IH. simpl. apply length_insert.
Qed.

(** Only the wrappers of a callback are touched when it is called. *)
Lemma call_cells_other callback :
  forall err v w c, c ∉ wrappers callback ->
    cells (call callback err v w) !! c = cells w !! c.
Proof.
  induction callback as [u | | callback IH | d fn IH]; intros err v w c Hc; simpl; auto.
  - pose proof (sniff_done_cells err v w) as Hs.
    destruct (sniff_done err v w) as [w1 [[err' v'] |]]; simpl in Hs;
      [rewrite IH by exact Hc |]; now rewrite Hs.
  - simpl in Hc. apply not_elem_of_cons in Hc as [Hne Hc].
    destruct (called d w); [reflexivity |].
    rewrite IH by exact Hc. simpl. now apply list_lookup_insert_ne.
Qed.

(** ** What [request] and [sniff] leave alone *)

Lemma dispatch_frame connection params callback attempts result w :
  frame w (fst (dispatch connection params callback attempts result w)).
Proof.
  unfold dispatch. simpl.
  eapply frame_trans; [apply log_frame |].
  eapply frame_trans; [| apply log_frame].
  split; simpl; auto using same_config_refl.
  - exists []. now rewrite app_nil_r.
  - eauto.
Qed.

Lemma getConnection_frame s w :
  (forall w', frame w' (s Noop w')) -> frame w (snd (getConnection s w)).
Proof.
  intros Hs. unfold getConnection.
  set (w1 := if _ && _ then s Noop w else w).
  assert (H1' : frame w w1) by (subst w1; destruct (_ && _); auto using frame_refl).
  destruct (pool_getConnection _) as [c p]. simpl.
  eapply frame_trans; [exact H1' |].
  apply frame_same; auto using same_config_refl.
Qed.

Lemma request_with_frame s params callback w :
  (forall w', frame w' (s Noop w')) -> frame w (fst (request_with s params callback w)).
Proof.
  intros Hs. unfold request_with, request_steps.
  pose proof (once_frame callback w) as Ho.
  destruct (once callback w) as [cb w1]. simpl in Ho.
  pose proof (getConnection_frame s w1 Hs) as Hg.
  destruct (getConnection s w1) as [[c |] w2]; simpl in Hg.
  - destruct (prepare_body _) as [err | params'].
    + simpl. eapply frame_trans; [exact Ho |].
      eapply frame_trans; [exact Hg | apply call_frame].
    + eapply frame_trans; [exact Ho |].
      eapply frame_trans; [exact Hg | apply dispatch_frame].
  - simpl. eapply frame_trans; [exact Ho |].
    eapply frame_trans; [exact Hg | apply call_frame].
Qed.

Lemma sniff_with_frame request' callback w :
  (forall params cb w', frame w' (fst (request' params cb w'))) ->
  frame w (sniff_with request' callback w).
Proof.
  intros Hr. unfold sniff_with.
  destruct (_isSniffing (transport w)); [apply frame_refl |].
  eapply frame_trans; [| apply Hr].
  apply frame_same; [apply set_isSniffing_config | reflexivity ..].
Qed.

Lemma request_n_frame n : forall params callback w,
  frame w (fst (request_n n params callback w)).
Proof.
  induction n as [| n IH]; intros params callback w; simpl.
  - apply frame_same; auto using same_config_refl.
  - apply request_with_frame. intros w'. now apply sniff_with_frame.
Qed.

Lemma sniff_frame callback w : frame w (sniff callback w).
Proof. apply sniff_with_frame. intros. apply request_n_frame. Qed.

Lemma untouched_refl cb w : untouched cb w w.
Proof. now intros c. Qed.

Lemma untouched_same cb w w' : cells w' = cells w -> untouched cb w w'.
Proof. intros Hk c _ _. now rewrite Hk. Qed.

Lemma getConnection_untouched s w :
  (forall w', untouched Noop w' (s Noop w')) -> untouched Noop w (snd (getConnection s w)).
Proof.
  intros Hs. unfold getConnection.
  set (w1 := if _ && _ then s Noop w else w).
  assert (H1' : untouched Noop w w1)
    by (subst w1; destruct (_ && _); auto using untouched_refl).
  destruct (pool_getConnection _) as [c p]. simpl.
  intros d Hd Hn. now apply H1'.
Qed.

Lemma request_with_untouched s params callback w :
  (forall w', frame w' (s Noop w')) ->
  (forall w', untouched Noop w' (s Noop w')) ->
  untouched callback w (fst (request_with s params callback w)).
Proof.
  intros Hf Hs. unfold request_with, request_steps, once.
  set (w1 := set_cells (cells w ++ [false]) w).
  set (cb := Once (length (cells w)) callback).
  assert (Ho : untouched callback w w1).
  { intros c Hc _. subst w1. simpl. now rewrite lookup_app_l. }
  assert (Hl1 : (length (cells w) <= length (cells w1))%nat).
  { subst w1. simpl. rewrite length_app. lia. }
  pose proof (getConnection_untouched s w1 Hs) as Hg.
  pose proof (getConnection_frame s w1 Hf) as Hgf.
  destruct (getConnection s w1) as [[c |] w2]; simpl in Hg, Hgf.
  - assert (H12 : untouched callback w w2).
    { intros d Hd Hn.
      rewrite Hg; [now apply Ho | lia | simpl; apply not_elem_of_nil]. }
    assert (Hl2 : (length (cells w) <= length (cells w2))%nat)
      by (pose proof (fr_cells _ _ Hgf); lia).
    assert (Hcall : forall err v, untouched callback w (call cb err v w2)).
    { intros err v d Hd Hn. rewrite call_cells_other; auto.
      subst cb. simpl. apply not_elem_of_cons. split; [lia | exact Hn]. }
    destruct (prepare_body _) as [err | params']; [apply Hcall |].
    intros d Hd Hn. simpl. now apply H12.
  - cbn [fst]. intros d Hd Hn. rewrite call_cells_other.
    + rewrite Hg; [now apply Ho | lia | simpl; apply not_elem_of_nil].
    + subst cb. simpl. apply not_elem_of_cons. split; [lia | exact Hn].
Qed.

Lemma request_n_untouched n : forall params callback w,
  untouched callback w (fst (request_n n params callback w)).
Proof.
  induction n as [| n IH]; intros params callback w; simpl.
  - now apply untouched_same.
  - apply request_with_untouched; intros w'.
    + apply sniff_with_frame. intros. apply request_n_frame.
    + unfold sniff_with. destruct (_isSniffing (transport w')); [apply untouched_refl |].
      intros c Hc Hn. now rewrite IH.
Qed.

Lemma sniff_untouched callback w : untouched callback w (sniff callback w).
Proof.
  unfold sniff, sniff_with. destruct (_isSniffing (transport w)); [apply untouched_refl |].
  intros c Hc Hn. now rewrite request_n_untouched.
Qed.

(** ** [request] and [sniff] never run out of fuel *)

Lemma sniff_done_diverged err v w : diverged (fst (sniff_done err v w)) = diverged w.
Proof.
  unfold sniff_done.
  destruct (_sniffEnabled _), err as [e |]; simpl; try reflexivity;
    destruct (not_nullish _); reflexivity.
Qed.

Lemma call_diverged callback : forall err v w, diverged (call callback err v w) = diverged w.
Proof.
  induction callback as [u | | callback IH | c fn IH]; intros err v w; simpl; auto.
  - pose proof (sniff_done_diverged err v w) as Hs.
    destruct (sniff_done err v w) as [w1 [[err' v'] |]]; simpl in Hs; [rewrite IH |]; auto.
  - destruct (called c w); [reflexivity |]. now rewrite IH.
Qed.

Lemma request_with_diverged s params callback w :
  (forall w', transport w' = transport w -> diverged (s Noop w') = diverged w') ->
  diverged (fst (request_with s params callback w)) = diverged w.
Proof.
  intros Hs. unfold request_with, request_steps, once, getConnection. cbn [now transport set_cells].
  set (w1 := set_cells (cells w ++ [false]) w).
  set (w2 := if _ && _ then s Noop w1 else w1).
  assert (H2 : diverged w2 = diverged w).
  { subst w2. destruct (_ && _); [| reflexivity]. now rewrite Hs. }
  destruct (pool_getConnection _) as [[c |] p].
  - destruct (prepare_body _) as [err | params']; cbn [fst].
    + now rewrite call_diverged.
    + exact H2.
  - cbn [fst]. now rewrite call_diverged.
Qed.

Lemma sniff_total callback w : diverged (sniff callback w) = diverged w.
Proof.
  unfold sniff, sniff_with.
  destruct (_isSniffing (transport w)) eqn:Hb; [reflexivity |].
  simpl. rewrite request_with_diverged; [reflexivity |].
  intros w' Ht. now rewrite sniff_with_busy by (now rewrite Ht).
Qed.

Theorem request_total params callback w :
  diverged (fst (request params callback w)) = diverged w.
Proof.
  unfold request. simpl. apply request_with_diverged.
  intros w' _. apply sniff_total.
Qed.

(** ** A sniff while another one runs *)

(** C10. [sniff(callback)] called while a sniff run is in progress returns at
    once: no request is issued, no field of the transport changes, and the
    callback is neither called nor kept; the whole state is what it was. *)
Theorem sniff_in_progress_changes_nothing callback w :
  _isSniffing (transport w) = true ->
  sniff callback w = w.
Proof. apply sniff_with_busy. Qed.

(** ** The completion of a sniff run *)

Lemma settled_same w w' :
  transport w' = transport w -> now w' = now w -> settled w -> settled w'.
Proof. unfold settled. intros -> ->. auto. Qed.

Lemma sniff_done_settled err v w : settled (fst (sniff_done err v w)).
Proof.
  unfold sniff_done, settled.
  destruct (_sniffEnabled (transport _)) eqn:He, err as [e |]; simpl in *;
    try (destruct (not_nullish _)); simpl; rewrite ?He; split; auto; discriminate.
Qed.

Lemma call_settled callback : forall err v w, settled w -> settled (call callback err v w).
Proof.
  induction callback as [u | | callback IH | c fn IH]; intros err v w Hw; simpl; auto.
  - pose proof (sniff_done_settled err v w) as Hs.
    destruct (sniff_done err v w) as [w1 [[err' v'] |]]; simpl in Hs; auto.
  - destruct (called c w); [exact Hw |]. apply IH.
    now apply (settled_same w).
Qed.

(** ** No living connection *)

Lemma request_unfold params callback w :
  request params callback w = request_with sniff params callback w.
Proof. reflexivity. Qed.

(** C8. When the selection yields no connection, [request] calls the callback
    with a [NoLivingConnectionsError] and the empty result; the outcome does
    not depend on [params] (nothing is serialized), no connection request is
    issued and nothing is retried. *)
Theorem no_living_connections params callback w w' :
  getConnection sniff (snd (once callback w)) = (None, w') ->
  request params callback w
  = (call callback (Some (NoLivingConnectionsError "There are not living connections"))
       (OfResult empty_result)
       (set_cells (<[length (cells w) := true]> (cells w')) w'),
     Undefined) /\
  pending (fst (request params callback w)) = pending w'.
Proof.
  intros Hg.
  assert (Hreq : request params callback w
    = (call callback (Some (NoLivingConnectionsError "There are not living connections"))
         (OfResult empty_result)
         (set_cells (<[length (cells w) := true]> (cells w')) w'), Undefined)).
  { rewrite request_unfold. unfold request_with, request_steps.
    pose proof (getConnection_untouched sniff (snd (once callback w))
                  (fun w0 => sniff_untouched Noop w0)) as Hu.
    unfold once in *. cbn [fst snd] in *. rewrite Hg in *. cbn [snd] in Hu.
    cbn [call]. unfold called.
    rewrite (Hu (length (cells w))).
    - simpl. rewrite lookup_app_r by lia. now rewrite Nat.sub_diag.
    - simpl. rewrite length_app. simpl. lia.
    - simpl. apply not_elem_of_nil. }
  split; [exact Hreq |].
  rewrite Hreq. cbn [fst]. now rewrite call_pending.
Qed.

(** ** HEAD requests *)

(** C6. For a HEAD request read in non-stream mode the payload is never
    handed to the deserializer (whatever [deserialize] does, the body read is
    [true]); on status 200 the callback is called without error and with body
    [true]; on status 404 it is called without error and with body [false],
    the connection being confirmed alive in both cases. *)
Theorem head_request_yields_boolean id e response payload w :
  method (pn_params e) = "HEAD" ->
  let c := pn_connection e in
  let seen := with_body (VBool true) (pn_result e) in
  read_payload (resp_headers response) (String.eqb (method (pn_params e)) "HEAD") payload
  = inr (VBool true) /\
  (statusCode response = 200 ->
   exists w',
     on_end id e response payload w
     = call (pn_callback e) None (OfResult (with_body (VBool true) (pn_result e))) w' /\
     trace w' = trace w ++ [Pool_markAlive c; Emit_response c (pn_params e) seen] /\
     cells w' = cells w) /\
  (statusCode response = 404 ->
   exists w',
     on_end id e response payload w
     = call (pn_callback e) None (OfResult (with_body (VBool false) (pn_result e))) w' /\
     trace w' = trace w ++ [Pool_markAlive c; Emit_response c (pn_params e) seen] /\
     cells w' = cells w).
Proof.
  intros Hm c seen.
  assert (Hr : read_payload (resp_headers response) true payload = inr (VBool true)).
  { unfold read_payload. now rewrite andb_false_r. }
  split; [rewrite Hm; exact Hr |]. split; intros Hst.
  - eexists. unfold on_end. rewrite Hm, Hst. cbn [String.eqb Ascii.eqb Bool.eqb].
    rewrite Hr. cbn -[call markAlive update_pending log].
    rewrite orb_false_r. destruct (ignored _ 200).
    + cbn -[call markAlive update_pending log]. split; [reflexivity |].
      simpl. rewrite <- app_assoc. now split.
    + cbn -[call markAlive update_pending log]. split; [reflexivity |].
      simpl. rewrite <- app_assoc. now split.
  - eexists. unfold on_end. rewrite Hm, Hst. cbn [String.eqb Ascii.eqb Bool.eqb].
    rewrite Hr. cbn -[call markAlive update_pending log].
    rewrite orb_true_r. cbn -[call markAlive update_pending log].
    split; [reflexivity |]. simpl. rewrite <- app_assoc. now split.
Qed.

(** ** 502, 503 and 504 against network errors *)

Lemma gtb_pos a : 0 < a -> (a >? 0) = true.
Proof. intros Ha. apply Z.gtb_lt. lia. Qed.

Lemma gtb_nonpos a : a <= 0 -> (a >? 0) = false.
Proof. intros Ha. destruct (a >? 0) eqn:E; [apply Z.gtb_lt in E; lia | reflexivity]. Qed.


(** ** A document body and a bulk body together *)

(** C4, as the code has it.  When [params] holds both a document body and a
    bulk body, the document body is the one prepared (serialized if need be,
    sent as [application/json]), the bulk body stays in [params] unread, and
    with a connection selected the request goes to the connection; the
    callback is not called. *)
Theorem body_wins_over_bulkBody params callback w c w2 :
  not_nullish (body params) = true ->
  not_nullish (bulkBody params) = true ->
  (shouldSerialize (body params) = true -> exists s, serialize (body params) = inr s) ->
  getConnection sniff (snd (once callback w)) = (Some c, w2) ->
  exists p' w3,
    request params callback w = (w3, Handle (length (pending w2))) /\
    trace w3 = trace w2 ++ [Emit_request c p'; Connection_request (length (pending w2)) c p'] /\
    cells w3 = cells w2 /\
    default ∅ (headers p') !! "Content-Type" = Some "application/json" /\
    bulkBody p' = bulkBody params /\
    body p' = (if shouldSerialize (body params)
               then match serialize (body params) with inr s => VStr s | inl _ => body params end
               else body params).
Proof.
  intros Hb Hk Hser Hg.
  rewrite request_unfold. unfold request_with, request_steps.
  unfold once in *. cbn [fst snd] in *. rewrite Hg.
  unfold prepare_body. cbn [body set_headers]. rewrite Hb.
  destruct (shouldSerialize (body params)) eqn:Hs.
  - destruct (Hser eq_refl) as [s Hs']. rewrite Hs'.
    eexists _, _. split; [reflexivity |].
    split; [simpl; now rewrite <- app_assoc |].
    split; [reflexivity |].
    unfold finish_params, content_length.
    destruct (suggestCompression (transport w2)); simpl;
      (split; [| split; reflexivity]);
      rewrite ?lookup_insert_ne by discriminate; now rewrite lookup_insert_eq.
  - eexists _, _. split; [reflexivity |].
    split; [simpl; now rewrite <- app_assoc |].
    split; [reflexivity |].
    unfold finish_params, content_length. cbn [body set_header set_headers].
    destruct (suggestCompression (transport w2)), (isStream (body params)); simpl;
      (split; [| split; reflexivity]);
      rewrite ?lookup_insert_ne by discriminate; now rewrite lookup_insert_eq.
Qed.

(** ** At most one delivery *)

Lemma deliveries_log u a w :
  deliveries u (log a w) = (deliveries u w + if is_delivery u a then 1 else 0)%nat.
Proof.
  unfold deliveries. simpl. rewrite filter_app, length_app. f_equal.
  rewrite filter_cons, filter_nil.
  destruct (is_delivery u a); [now rewrite decide_True | now rewrite decide_False].
Qed.

Lemma deliveries_same u w w' : trace w = trace w' -> deliveries u w = deliveries u w'.
Proof. unfold deliveries. now intros ->. Qed.

Lemma sniff_done_deliveries u err v w :
  deliveries u (fst (sniff_done err v w)) = deliveries u w.
Proof.
  unfold sniff_done.
  destruct (_sniffEnabled _), err as [e |]; simpl;
    try (destruct (not_nullish _)); simpl;
    rewrite ?deliveries_log; simpl; rewrite ?Nat.add_0_r; reflexivity.
Qed.

(** One call of a callback calls the caller's function [u] at most once. *)
Lemma call_deliveries_le u callback : forall err v w,
  (deliveries u w <= deliveries u (call callback err v w) <= deliveries u w + 1)%nat.
Proof.
  induction callback as [u' | | callback IH | c fn IH]; intros err v w; simpl.
  - rewrite deliveries_log. destruct (is_delivery _ _); lia.
  - lia.
  - pose proof (sniff_done_deliveries u err v w) as Hs.
    destruct (sniff_done err v w) as [w1 [[err' v'] |]]; simpl in Hs.
    + specialize (IH err' v' w1). lia.
    + lia.
  - destruct (called c w); [lia |].
    exact (IH err v (set_cells (<[c := true]> (cells w)) w)).
Qed.

Lemma called_fire_eq c (w : World) :
  (c < length (cells w))%nat -> called c (set_cells (<[c := true]> (cells w)) w) = true.
Proof. intros Hc. unfold called. simpl. now rewrite list_lookup_insert_eq. Qed.

Lemma called_same c (w w' : World) : cells w' = cells w -> called c w' = called c w.
Proof. unfold called. now intros ->. Qed.

(** Through a guarded callback the function [u] is called only if the guard
    was not called before, and the guard is called afterwards. *)
Lemma call_guarded u c0 callback : forall err v w,
  guarded u c0 callback -> (c0 < length (cells w))%nat ->
  (called c0 w = true -> deliveries u (call callback err v w) = deliveries u w) /\
  (deliveries u (call callback err v w) <> deliveries u w ->
   called c0 (call callback err v w) = true).
Proof.
  induction callback as [u' | | callback IH | c fn IH]; intros err v w Hg Hc0; simpl in *.
  - assert (Hd : is_delivery u (Deliver u' err v) = false).
    { simpl. apply Nat.eqb_neq. congruence. }
    rewrite deliveries_log, Hd. split; [lia | lia].
  - split; [reflexivity | congruence].
  - pose proof (sniff_done_deliveries u err v w) as Hs.
    pose proof (sniff_done_cells err v w) as Hk.
    destruct (sniff_done err v w) as [w1 [[err' v'] |]]; simpl in Hs, Hk.
    + destruct (IH err' v' w1 Hg) as [IH1 IH2]; [now rewrite Hk |].
      rewrite (called_same c0 w w1 Hk) in IH1.
      rewrite Hs in IH1, IH2. now split.
    + split; [now intros _ | congruence].
  - destruct (called c w) eqn:Hcw; [split; [reflexivity | congruence] |].
    set (w1 := set_cells (<[c := true]> (cells w)) w).
    assert (Hd1 : deliveries u w1 = deliveries u w) by reflexivity.
    destruct Hg as [-> | Hg].
    + split; [congruence |]. intros _.
      apply (fr_called _ _ (call_frame fn err v w1)).
      now apply called_fire_eq.
    + destruct (IH err v w1 Hg) as [IH1 IH2].
      { subst w1. simpl. now rewrite length_insert. }
      rewrite Hd1 in IH1, IH2. split; [| exact IH2].
      intros Hcalled. apply IH1. now apply called_fire.
Qed.

Lemma at_most_once_same u c0 d0 w w' :
  at_most_once u c0 d0 w ->
  (length (cells w) <= length (cells w'))%nat -> called c0 w' = called c0 w ->
  trace w' = trace w ->
  Forall (fun e => guarded u c0 (pn_callback e)) (pending w') ->
  at_most_once u c0 d0 w'.
Proof.
  intros [Hc Hp Hl Hz] Hlen Hcal Htr Hp'. split; auto.
  - lia.
  - now rewrite (deliveries_same u w' w Htr).
  - rewrite Hcal, (deliveries_same u w' w Htr); auto.
Qed.

Lemma at_most_once_log u c0 d0 a w :
  is_delivery u a = false -> at_most_once u c0 d0 w -> at_most_once u c0 d0 (log a w).
Proof.
  intros Ha [Hc Hp Hl Hz]. split; auto; rewrite ?deliveries_log, ?Ha, ?Nat.add_0_r; auto.
Qed.

Lemma at_most_once_call u c0 d0 callback err v w :
  guarded u c0 callback -> at_most_once u c0 d0 w ->
  at_most_once u c0 d0 (call callback err v w).
Proof.
  intros Hg [Hc Hp Hl Hz].
  destruct (call_guarded u c0 callback err v w Hg Hc) as [H1' H2'].
  pose proof (call_deliveries_le u callback err v w) as Hle.
  split.
  - now rewrite call_cells_length.
  - now rewrite call_pending.
  - destruct (called c0 w) eqn:Hcw; [rewrite H1'; auto |].
    rewrite Hz in Hle by reflexivity. lia.
  - intros Hnot.
    assert (Hcw : called c0 w = false).
    { destruct (called c0 w) eqn:Hcw; [| reflexivity].
      rewrite (fr_called _ _ (call_frame callback err v w) c0 Hcw) in Hnot. discriminate. }
    destruct (decide (deliveries u (call callback err v w) = deliveries u w)) as [-> | Hne].
    + auto.
    + rewrite H2' in Hnot by exact Hne. discriminate.
Qed.

Section AtMostOnce.

Variables u c0 d0 : nat.

Local Abbreviation inv := (at_most_once u c0 d0).
Local Abbreviation safe := (guarded u c0).

Lemma inv_once callback w : inv w -> inv (snd (once callback w)).
Proof.
  intros Hw. apply (at_most_once_same u c0 d0 w); auto; simpl.
  - rewrite length_app. lia.
  - unfold called. simpl. destruct Hw as [Hc _ _ _]. now rewrite lookup_app_l.
  - now destruct Hw.
Qed.

Lemma safe_once callback w : safe callback -> safe (fst (once callback w)).
Proof. intros Hs. simpl. now right. Qed.

Lemma inv_set_pool p w : inv w -> inv (set_pool p w).
Proof. intros Hw. apply (at_most_once_same u c0 d0 w); auto. now destruct Hw. Qed.

Lemma inv_set_transport t w : inv w -> inv (set_transport t w).
Proof. intros Hw. apply (at_most_once_same u c0 d0 w); auto. now destruct Hw. Qed.

Lemma inv_set_now t w : inv w -> inv (set_now t w).
Proof. intros Hw. apply (at_most_once_same u c0 d0 w); auto. now destruct Hw. Qed.

Lemma inv_set_diverged w : inv w -> inv (set_diverged w).
Proof. intros Hw. apply (at_most_once_same u c0 d0 w); auto. now destruct Hw. Qed.

Lemma inv_markDead c w : inv w -> inv (markDead c w).
Proof. intros Hw. apply at_most_once_log; [reflexivity |]. now apply inv_set_pool. Qed.

Lemma inv_markAlive c w : inv w -> inv (markAlive c w).
Proof. intros Hw. apply at_most_once_log; [reflexivity |]. now apply inv_set_pool. Qed.

Lemma inv_update_pending id f w :
  (forall e, pn_callback (f e) = pn_callback e) -> inv w -> inv (update_pending id f w).
Proof.
  intros Hf Hw. apply (at_most_once_same u c0 d0 w); auto. simpl.
  destruct Hw as [_ Hp _ _]. apply Forall_alter; [exact Hp |].
  intros e _. now rewrite Hf.
Qed.

Lemma inv_dispatch c params callback attempts result w :
  safe callback -> inv w -> inv (fst (dispatch c params callback attempts result w)).
Proof.
  intros Hs Hw. unfold dispatch. cbn [fst].
  apply at_most_once_log; [reflexivity |].
  apply (at_most_once_same u c0 d0 (log (Emit_request c params) w)); auto.
  - now apply at_most_once_log.
  - simpl. destruct Hw as [_ Hp _ _]. apply Forall_app. split; [exact Hp |].
    now repeat constructor.
Qed.

Lemma inv_getConnection s w :
  (forall w', inv w' -> inv (s Noop w')) -> inv w -> inv (snd (getConnection s w)).
Proof.
  intros Hs Hw. unfold getConnection.
  set (w1 := if _ && _ then s Noop w else w).
  assert (H1' : inv w1) by (subst w1; destruct (_ && _); auto).
  destruct (pool_getConnection _) as [c p]. simpl.
  now apply inv_set_pool, inv_set_pool.
Qed.

Lemma inv_request_steps s params callback w :
  (forall w', inv w' -> inv (s Noop w')) ->
  safe callback -> inv w -> inv (fst (request_steps s params callback w)).
Proof.
  intros Hs Hcb Hw. unfold request_steps.
  pose proof (inv_getConnection s w Hs Hw) as Hg.
  destruct (getConnection s w) as [[c |] w2]; simpl in Hg.
  - destruct (prepare_body _) as [err | params']; cbn [fst].
    + now apply at_most_once_call.
    + now apply inv_dispatch.
  - cbn [fst]. now apply at_most_once_call.
Qed.

Lemma inv_request_body s params callback w :
  (forall w', inv w' -> inv (s Noop w')) ->
  safe callback -> inv w -> inv (fst (request_with s params callback w)).
Proof.
  intros Hs Hcb Hw. unfold request_with.
  pose proof (inv_once callback w Hw) as Ho.
  pose proof (safe_once callback w Hcb) as Hso.
  destruct (once callback w) as [cb w1]. now apply inv_request_steps.
Qed.

Lemma inv_sniff_body request' callback w :
  (forall params cb w', safe cb -> inv w' -> inv (fst (request' params cb w'))) ->
  safe callback -> inv w -> inv (sniff_with request' callback w).
Proof.
  intros Hr Hcb Hw. unfold sniff_with.
  destruct (_isSniffing (transport w)); [exact Hw |].
  apply Hr; [exact Hcb | now apply inv_set_transport].
Qed.

Lemma inv_request_n n : forall params callback w,
  safe callback -> inv w -> inv (fst (request_n n params callback w)).
Proof.
  induction n as [| n IH]; intros params callback w Hcb Hw; simpl.
  - now apply inv_set_diverged.
  - apply inv_request_body; auto.
    intros w' Hw'. apply inv_sniff_body; simpl; auto.
Qed.

Lemma inv_sniff callback w : safe callback -> inv w -> inv (sniff callback w).
Proof. intros Hcb Hw. apply inv_sniff_body; auto. intros. now apply inv_request_n. Qed.

Lemma inv_on_error id e err w :
  safe (pn_callback e) -> inv w -> inv (on_error id e err w).
Proof.
  intros He Hw. unfold on_error.
  set (w1 := markDead _ _).
  assert (H1' : inv w1) by (subst w1; now apply inv_markDead, inv_update_pending).
  set (w2 := if sniffOnConnectionFault (transport w1) then sniff Noop w1 else w1).
  assert (H2 : inv w2).
  { subst w2. destruct (sniffOnConnectionFault _); [| exact H1']. now apply inv_sniff. }
  destruct (_ >? 0).
  - now apply inv_request_n.
  - apply at_most_once_call; [exact He |]. now apply at_most_once_log.
Qed.

Lemma inv_on_response id e response w :
  safe (pn_callback e) -> inv w -> inv (on_response id e response w).
Proof.
  intros He Hw. unfold on_response.
  destruct (asStream (pn_params e)).
  - apply at_most_once_call; [exact He |].
    apply at_most_once_log; [reflexivity |]. now apply inv_update_pending.
  - now apply inv_update_pending.
Qed.

Lemma inv_on_end id e response payload w :
  safe (pn_callback e) -> inv w -> inv (on_end id e response payload w).
Proof.
  intros He Hw. unfold on_end. destruct (read_payload _ _ _) as [err | v].
  - apply at_most_once_call; [exact He |]. now apply at_most_once_log.
  - cbn zeta.
    set (w1 := update_pending id _ w).
    assert (H1' : inv w1) by (subst w1; now apply inv_update_pending).
    set (gate := negb _ && (_ || _ || _)).
    assert (Hfall : forall w', inv w' ->
      inv (let w0 := log (Emit_response (pn_connection e) (pn_params e)
                             (with_body v (pn_result e))) w' in
           if negb (ignored (ignore (pn_params e)) (statusCode response)
                    || String.eqb (method (pn_params e)) "HEAD" && (statusCode response =? 404))
              && (statusCode response >=? 400)
           then call (pn_callback e) (Some (ResponseError (with_body v (pn_result e))))
                  (OfResult (with_body v (pn_result e))) w0
           else
             let result :=
               if String.eqb (method (pn_params e)) "HEAD" && (statusCode response =? 404)
               then with_body (VBool false) (with_body v (pn_result e))
               else with_body v (pn_result e) in
             call (pn_callback e) None (OfResult result)
               (update_pending id (set_result result) w0))).
    { intros w' Hw'. cbn zeta.
      assert (H0' : inv (log (Emit_response (pn_connection e) (pn_params e)
                               (with_body v (pn_result e))) w'))
        by now apply at_most_once_log.
      destruct (negb _ && (_ >=? 400)).
      - now apply at_most_once_call.
      - apply at_most_once_call; [exact He |]. now apply inv_update_pending. }
    destruct gate.
    + destruct (_ >? 0).
      * apply inv_request_n; [exact He | now apply inv_markDead].
      * apply Hfall. now apply inv_markDead.
    + apply Hfall. now apply inv_markAlive.
Qed.

Lemma inv_step ev w : inv w -> inv (step ev w).
Proof.
  intros Hw.
  assert (Hl : forall id e, pending w !! id = Some e -> safe (pn_callback e)).
  { intros id e Hid. destruct Hw as [_ Hp _ _].
    now apply (proj1 (Forall_lookup _ _) Hp id e). }
  destruct ev as [id err | id response | id chunk | id err | id | t]; simpl;
    try (destruct (pending w !! id) as [e |] eqn:Hid; [| exact Hw];
         specialize (Hl id e Hid)).
  - destruct (pn_phase e); auto. now apply inv_on_error.
  - destruct (pn_phase e); auto. now apply inv_on_response.
  - destruct (pn_phase e); auto. unfold on_data. now apply inv_update_pending.
  - destruct (pn_phase e); auto. unfold on_stream_error. now apply at_most_once_call.
  - destruct (pn_phase e), (pn_head e); auto. now apply inv_on_end.
  - now apply inv_set_now.
Qed.

Lemma inv_run evs : forall w, inv w -> inv (run evs w).
Proof.
  induction evs as [| ev evs IH]; intros w Hw; simpl; [exact Hw |].
  apply IH. now apply inv_step.
Qed.

End AtMostOnce.

Lemma unmentioned_guarded u c0 cb : mentions u cb = false -> guarded u c0 cb.
Proof.
  induction cb as [v | | cb IH | c fn IH]; simpl; auto.
  - intros Hv. apply Nat.eqb_neq in Hv. congruence.
Qed.

(** Whatever the connections and the response streams do, and in whatever
    order, one call of [request] calls the caller's function at most once. *)
Theorem callback_at_most_once u params w evs :
  fresh u w ->
  (deliveries u (run evs (fst (request params (Caller u) w))) <= deliveries u w + 1)%nat.
Proof.
  intros Hf.
  apply (amo_le u (length (cells w)) (deliveries u w)).
  apply inv_run. rewrite request_unfold. unfold request_with, once.
  apply inv_request_steps.
  - intros w' Hw'. now apply inv_sniff.
  - simpl. now left.
  - split; simpl.
    + rewrite length_app. simpl. lia.
    + eapply Forall_impl; [exact Hf |]. intros e. apply unmentioned_guarded.
    + unfold deliveries. simpl. lia.
    + reflexivity.
Qed.

(** ** A chain of network errors *)

Lemma in_flight_last u (w : World) l e :
  pending w = l ++ [e] -> is_for u e = true -> pn_phase e = Awaiting ->
  in_flight u w = Some (length l).
Proof.
  intros Hp Hfor Hph. unfold in_flight. rewrite Hp, reverse_snoc.
  cbn [list_find]. unfold awaiting. rewrite Hfor, Hph. cbn [andb].
  rewrite decide_True by reflexivity. simpl. f_equal.
  rewrite length_app. simpl. lia.
Qed.

(** *** Params that went through [request] once *)

Lemma content_length_fields p :
  body (content_length p) = body p /\ bulkBody (content_length p) = bulkBody p /\
  maxRetries (content_length p) = maxRetries p.
Proof. unfold content_length. now destruct (isStream (body p)). Qed.

Lemma prepare_body_ready p p' :
  prepare_body p = inr p' -> ready p' /\ maxRetries p' = maxRetries p.
Proof.
  unfold prepare_body, ready.
  destruct (not_nullish (body p)) eqn:Hb.
  - destruct (shouldSerialize (body p)) eqn:Hs.
    + destruct (serialize (body p)) as [err | s]; [discriminate |].
      intros [= <-]. destruct (content_length_fields
        (set_header "Content-Type" "application/json" (set_body (VStr s) p))) as (-> & _ & ->).
      now split.
    + intros [= <-]. destruct (content_length_fields
        (set_header "Content-Type" "application/json" p)) as (-> & _ & ->).
      simpl. rewrite Hb. now split.
  - destruct (not_nullish (bulkBody p)) eqn:Hk.
    + destruct (shouldSerialize (bulkBody p)) eqn:Hs.
      * destruct (ndserialize (bulkBody p)) as [err | s]; [discriminate |].
        intros [= <-]. destruct (content_length_fields
          (set_header "Content-Type" "application/x-ndjson" (set_body (VStr s) p)))
          as (-> & _ & ->).
        now split.
      * intros [= <-]. destruct (content_length_fields
          (set_header "Content-Type" "application/x-ndjson" (set_body (bulkBody p) p)))
          as (-> & _ & ->).
        simpl. rewrite Hk. now split.
    + intros [= <-]. rewrite Hb. now split.
Qed.

Lemma serializable_prepares p h :
  serializable p -> exists p', prepare_body (set_headers h p) = inr p'.
Proof.
  unfold serializable, prepare_body. cbn [body bulkBody set_headers].
  destruct (not_nullish (body p)).
  - destruct (shouldSerialize (body p)); [| eauto].
    intros Hs. destruct (Hs eq_refl) as [s ->]. eauto.
  - destruct (not_nullish (bulkBody p)); [| eauto].
    destruct (shouldSerialize (bulkBody p)); [| eauto].
    intros Hs. destruct (Hs eq_refl eq_refl) as [s ->]. eauto.
Qed.

Lemma ready_serializable p : ready p -> serializable p.
Proof.
  unfold ready, serializable. destruct (not_nullish (body p)).
  - intros ->. discriminate.
  - intros ->. discriminate.
Qed.

Lemma finish_params_fields t p :
  body (finish_params t p) = body p /\ bulkBody (finish_params t p) = bulkBody p /\
  maxRetries (finish_params t p) = maxRetries p.
Proof. unfold finish_params. now destruct (suggestCompression t). Qed.

(** *** The attempts resolved for a retry are never zero *)

Lemma resolve_attempts_retry params t a :
  1 <= budget params t -> 1 <= a ->
  1 <= resolve_attempts (set_remainingAttempts (Some (a - 1)) params) t.
Proof.
  unfold budget, resolve_attempts, or_num. cbn [remainingAttempts maxRetries set_remainingAttempts].
  intros Hb Ha. destruct (a - 1 =? 0) eqn:E.
  - destruct (maxRetries params) as [n |].
    + destruct (n =? 0) eqn:En; [apply Z.eqb_eq in En; lia | exact Hb].
    + exact Hb.
  - cbn. rewrite E. apply Z.eqb_neq in E. lia.
Qed.

Lemma resolve_attempts_first params t :
  remainingAttempts params = None -> 1 <= budget params t ->
  resolve_attempts params t = budget params t.
Proof.
  unfold budget, resolve_attempts, or_num. intros -> Hb.
  destruct (maxRetries params) as [n |].
  - destruct (n =? 0) eqn:En; [apply Z.eqb_eq in En; lia | reflexivity].
  - reflexivity.
Qed.

(** *** Requests made on the side *)

Lemma others_refl u w : others u w w.
Proof. exists []. now rewrite app_nil_r. Qed.

Lemma others_trans u w1 w2 w3 : others u w1 w2 -> others u w2 w3 -> others u w1 w3.
Proof.
  intros (l1 & H1' & F1) (l2 & H2 & F2). exists (l1 ++ l2). split.
  - now rewrite H2, H1', app_assoc.
  - apply Forall_app. now split.
Qed.

Lemma others_same u w w' : pending w' = pending w -> others u w w'.
Proof. intros Hp. exists []. now rewrite app_nil_r. Qed.

Section Others.

Variable u : nat.

Lemma getConnection_others s w :
  (forall w', others u w' (s Noop w')) -> others u w (snd (getConnection s w)).
Proof.
  intros Hs. unfold getConnection.
  set (w1 := if _ && _ then s Noop w else w).
  assert (H1' : others u w w1) by (subst w1; destruct (_ && _); auto using others_refl).
  destruct (pool_getConnection _) as [c p]. simpl.
  eapply others_trans; [exact H1' |]. now apply others_same.
Qed.

Lemma request_with_others s params callback w :
  (forall w', others u w' (s Noop w')) -> not_for u callback ->
  others u w (fst (request_with s params callback w)).
Proof.
  intros Hs Hcb. unfold request_with, request_steps, once.
  set (w1 := set_cells (cells w ++ [false]) w).
  pose proof (getConnection_others s w1 Hs) as Hg.
  destruct (getConnection s w1) as [[c |] w2]; simpl in Hg.
  - destruct (prepare_body _) as [err | params']; cbn [fst].
    + eapply others_trans; [exact Hg |]. apply others_same, call_pending.
    + eapply others_trans; [exact Hg |]. unfold dispatch. cbn [fst].
      eexists. split; [reflexivity |]. repeat constructor. exact Hcb.
  - cbn [fst]. eapply others_trans; [exact Hg |]. apply others_same, call_pending.
Qed.

Lemma request_n_others n : forall params callback w,
  not_for u callback -> others u w (fst (request_n n params callback w)).
Proof.
  induction n as [| n IH]; intros params callback w Hcb; simpl.
  - now apply others_same.
  - apply request_with_others; [| exact Hcb].
    intros w'. unfold sniff_with. destruct (_isSniffing (transport w')); [apply others_refl |].
    match goal with |- others _ _ (fst (request_n _ ?p ?cb ?w0)) =>
      destruct (IH p cb w0 eq_refl) as (l & Hl & Fl) end.
    now exists l.
Qed.

Lemma sniff_others w : others u w (sniff Noop w).
Proof.
  unfold sniff, sniff_with. destruct (_isSniffing (transport w)); [apply others_refl |].
  match goal with |- others _ _ (fst (request_n _ ?p ?cb ?w0)) =>
    destruct (request_n_others 1 p cb w0 eq_refl) as (l & Hl & Fl) end.
  now exists l.
Qed.

End Others.

Lemma getConnection_yields s w :
  always_yields -> exists c w', getConnection s w = (Some c, w').
Proof.
  intros Hy. unfold getConnection.
  match goal with |- context [pool_getConnection ?p] => destruct (Hy p) as (c & p' & ->) end.
  eauto.
Qed.

Lemma filter_others u (l : list Pending) :
  Forall (fun e => is_for u e = false) l -> filter (fun e => is_for u e = true) l = [].
Proof.
  induction 1 as [| e l He _ IH]; [reflexivity |].
  rewrite filter_cons, decide_False; [exact IH | congruence].
Qed.

Lemma attempts_of_snoc u (l : list Pending) e :
  is_for u e = true ->
  length (filter (fun e => is_for u e = true) (l ++ [e]))
  = S (length (filter (fun e => is_for u e = true) l)).
Proof.
  intros He. rewrite filter_app, length_app, filter_cons, decide_True by exact He.
  simpl. lia.
Qed.

(** *** A request that reaches the connection *)

Lemma request_issues params callback w :
  always_yields -> serializable params ->
  exists c w4 p',
    request params callback w
    = dispatch c (finish_params (transport w4) p') (Once (length (cells w)) callback)
        (resolve_attempts params (transport w)) empty_result w4 /\
    prepare_body (set_headers (Some (default ∅ (headers params))) params) = inr p' /\
    frame (snd (once callback w)) w4 /\
    untouched Noop (snd (once callback w)) w4 /\
    forall u, others u w w4.
Proof.
  intros Hy Hser.
  destruct (getConnection_yields sniff (snd (once callback w)) Hy) as (c & w4 & Hg).
  destruct (serializable_prepares params (Some (default ∅ (headers params))) Hser) as [p' Hp].
  exists c, w4, p'.
  pose proof (getConnection_frame sniff (snd (once callback w))
                (fun w0 => sniff_frame Noop w0)) as Hf.
  pose proof (getConnection_untouched sniff (snd (once callback w))
                (fun w0 => sniff_untouched Noop w0)) as Hu.
  rewrite Hg in Hf, Hu. cbn [snd] in Hf, Hu.
  split; [| split; [exact Hp | split; [exact Hf | split; [exact Hu |]]]].
  - rewrite request_unfold. unfold request_with, request_steps.
    unfold once in *. cbn [fst snd] in *. now rewrite Hg, Hp.
  - intros u.
    pose proof (getConnection_others u sniff (snd (once callback w))
                  (fun w0 => sniff_others u w0)) as Ho.
    rewrite Hg in Ho. exact Ho.
Qed.

(** *** The invariant of the chain *)

Lemma fresh_attempts u w : fresh u w -> attempts_of u w = 0%nat.
Proof.
  intros Hf. unfold attempts_of. rewrite filter_others; [reflexivity |].
  eapply Forall_impl; [exact Hf |]. intros e. unfold is_for.
  generalize (pn_callback e). intros cb.
  induction cb as [v | | cb IH | c fn IH]; simpl; auto.
Qed.

Lemma request_establishes u params w :
  fresh u w ->
  at_most_once u (length (cells w)) (deliveries u w) (fst (request params (Caller u) w)).
Proof.
  intros Hf. rewrite request_unfold. unfold request_with, once.
  apply inv_request_steps.
  - intros w' Hw'. now apply inv_sniff.
  - simpl. now left.
  - split; simpl.
    + rewrite length_app. simpl. lia.
    + eapply Forall_impl; [exact Hf |]. intros e. apply unmentioned_guarded.
    + unfold deliveries. simpl. lia.
    + reflexivity.
Qed.

Lemma called_untouched c (w w' : World) :
  untouched Noop w w' -> (c < length (cells w))%nat -> called c w' = called c w.
Proof.
  intros Hu Hc. unfold called. rewrite Hu; [reflexivity | exact Hc |].
  simpl. apply not_elem_of_nil.
Qed.

Lemma retrying_start u params w :
  always_yields -> fresh u w -> remainingAttempts params = None ->
  serializable params -> 1 <= budget params (transport w) ->
  retrying u (length (cells w)) (deliveries u w) 1 (fst (request params (Caller u) w)).
Proof.
  intros Hy Hf Hrem Hser Hb.
  pose proof (request_establishes u params w Hf) as Hinv.
  destruct (request_issues params (Caller u) w Hy Hser)
    as (c & w4 & p' & Hreq & Hprep & Hfr & Hun & Hot).
  destruct (Hot u) as (l4 & Hl4 & Fl4).
  destruct (prepare_body_ready _ _ Hprep) as [Hready Hmax].
  destruct (finish_params_fields (transport w4) p') as (Hfb & Hfk & Hfm).
  destruct (fr_config _ _ Hfr) as (Htm & _).
  rewrite Hreq in *. unfold dispatch in *. cbn [fst] in *.
  split.
  - exact Hinv.
  - rewrite (called_same _ w4) by reflexivity.
    rewrite (called_untouched _ _ _ Hun).
    + unfold called. simpl. rewrite lookup_app_r by lia. now rewrite Nat.sub_diag.
    + simpl. rewrite length_app. simpl. lia.
  - unfold attempts_of. cbn [pending log set_pending].
    rewrite attempts_of_snoc by (unfold is_for; simpl; apply Nat.eqb_refl).
    rewrite Hl4, filter_app, (filter_others u l4 Fl4), app_nil_r.
    pose proof (fresh_attempts u w Hf) as Hzero. unfold attempts_of in Hzero.
    now rewrite Hzero.
  - eexists _, _. cbn [pending log set_pending]. split; [reflexivity |].
    cbn [pn_phase pn_attempts pn_params pn_callback transport log set_pending].
    split; [unfold is_for; simpl; apply Nat.eqb_refl |]. split; [reflexivity |].
    rewrite (resolve_attempts_first _ _ Hrem Hb). split; [exact Hb |]. split.
    + unfold ready in *. now rewrite Hfb, Hfk.
    + unfold budget in *. rewrite Hfm, Hmax. cbn [maxRetries set_headers].
      cbn in Htm. now rewrite Htm.
Qed.

Lemma retrying_step u c0 d0 n err w :
  always_yields -> retrying u c0 d0 n w ->
  retrying u c0 d0 (S n) (fail_in_flight u err w).
Proof.
  intros Hy [Hinv Hopen Hcount (l & e & Hp & Hfor & Hph & Ha & Hready & Hbud)].
  unfold fail_in_flight. rewrite (in_flight_last u w l e Hp Hfor Hph).
  pose proof (inv_step u c0 d0 (ConnectionFails (length l) err) w Hinv) as Hinv'.
  assert (Hlook : pending w !! length l = Some e)
    by (rewrite Hp; now apply list_lookup_middle).
  cbn [step] in *. rewrite Hlook, Hph in *. unfold on_error in *.
  rewrite (gtb_pos (pn_attempts e)) in * by lia.
  set (w1 := markDead (pn_connection e) (update_pending (length l) (set_phase Closed) w)) in *.
  assert (Hp1 : pending w1 = l ++ [set_phase Closed e]).
  { subst w1. simpl. rewrite Hp, alter_app_r_alt by lia. now rewrite Nat.sub_diag. }
  set (w2 := if sniffOnConnectionFault (transport w1) then sniff Noop w1 else w1) in *.
  assert (Hf2 : frame w1 w2)
    by (subst w2; destruct (sniffOnConnectionFault _); auto using frame_refl, sniff_frame).
  assert (Hu2 : untouched Noop w1 w2)
    by (subst w2; destruct (sniffOnConnectionFault _);
        auto using untouched_refl, sniff_untouched).
  assert (Ho2 : others u w1 w2)
    by (subst w2; destruct (sniffOnConnectionFault _); auto using others_refl, sniff_others).
  set (params' := set_remainingAttempts (Some (pn_attempts e - 1)) (pn_params e)) in *.
  destruct (request_issues params' (pn_callback e) w2 Hy)
    as (c & w4 & p' & Hreq & Hprep & Hfr & Hun & Hot);
    [now apply ready_serializable |].
  destruct (Hot u) as (l4 & Hl4 & Fl4). destruct Ho2 as (l2 & Hl2 & Fl2).
  destruct (prepare_body_ready _ _ Hprep) as [Hready' Hmax].
  destruct (finish_params_fields (transport w4) p') as (Hfb & Hfk & Hfm).
  destruct (fr_config _ _ Hfr) as (Htm4 & _).
  destruct (fr_config _ _ Hf2) as (Htm2 & _).
  pose proof (fr_cells _ _ Hf2) as Hlen2.
  pose proof (amo_cell _ _ _ _ Hinv) as Hc0.
  rewrite Hreq in *. unfold dispatch in *. cbn [fst] in *.
  split.
  - exact Hinv'.
  - rewrite (called_same _ w4) by reflexivity.
    rewrite (called_untouched _ _ _ Hun)
      by (simpl; rewrite length_app; change (cells w1) with (cells w) in Hlen2; lia).
    unfold called. cbn [once snd cells set_cells].
    rewrite lookup_app_l by (change (cells w1) with (cells w) in Hlen2; lia).
    change (called c0 w2 = false).
    rewrite (called_untouched _ _ _ Hu2) by exact Hc0. exact Hopen.
  - unfold attempts_of in *. cbn [pending log set_pending].
    rewrite attempts_of_snoc by (unfold is_for in *; simpl; exact Hfor).
    rewrite Hl4, filter_app, (filter_others u l4 Fl4), app_nil_r.
    rewrite Hl2, filter_app, (filter_others u l2 Fl2), app_nil_r.
    rewrite Hp1. rewrite Hp in Hcount.
    rewrite attempts_of_snoc in Hcount by exact Hfor.
    rewrite attempts_of_snoc by exact Hfor. now rewrite Hcount.
  - eexists _, _. cbn [pending log set_pending]. split; [reflexivity |].
    cbn [pn_phase pn_attempts pn_params pn_callback transport log set_pending].
    split; [unfold is_for in *; simpl; exact Hfor |]. split; [reflexivity |].
    assert (Hbud2 : 1 <= budget (pn_params e) (transport w2)).
    { unfold budget in *. now rewrite Htm2. }
    split; [now apply resolve_attempts_retry |]. split.
    + unfold ready in *. now rewrite Hfb, Hfk.
    + unfold budget in *. rewrite Hfm, Hmax. cbn [maxRetries set_headers params' set_remainingAttempts].
      cbn in Htm4. now rewrite Htm4.
Qed.

Lemma retrying_fail_all u c0 d0 errs : forall n w,
  always_yields -> retrying u c0 d0 n w ->
  retrying u c0 d0 (n + length errs) (fail_all u errs w).
Proof.
  induction errs as [| err errs IH]; intros n w Hy Hw; simpl.
  - now rewrite Nat.add_0_r.
  - replace (n + S (length errs))%nat with (S n + length errs)%nat by lia.
    apply IH; [exact Hy |]. now apply retrying_step.
Qed.

(** C1, at its failing inputs.  With a retry budget of one or more, a pool
    that always finds a connection and connections that only ever fail at
    the network level, each failure is followed by one more attempt: after
    any number of failures there is one attempt more than failures, so the
    attempts are not bounded by the budget plus one. *)
Theorem retries_outlast_the_budget u params w errs :
  always_yields -> fresh u w -> remainingAttempts params = None ->
  serializable params -> 1 <= budget params (transport w) ->
  attempts_of u (fail_all u errs (fst (request params (Caller u) w))) = S (length errs).
Proof.
  intros Hy Hf Hrem Hser Hb.
  exact (re_count _ _ _ _ _
           (retrying_fail_all u _ _ errs 1 _ Hy (retrying_start u params w Hy Hf Hrem Hser Hb))).
Qed.

(** C2, at its failing inputs.  In the same chain the caller's function is
    never called, however many attempts have failed: the request has no
    terminal invocation at all. *)
Theorem failing_chain_never_calls_back u params w errs :
  always_yields -> fresh u w -> remainingAttempts params = None ->
  serializable params -> 1 <= budget params (transport w) ->
  deliveries u (fail_all u errs (fst (request params (Caller u) w))) = deliveries u w.
Proof.
  intros Hy Hf Hrem Hser Hb.
  pose proof (retrying_fail_all u _ _ errs 1 _ Hy
                (retrying_start u params w Hy Hf Hrem Hser Hb)) as [Hinv Hopen _ _].
  exact (amo_zero _ _ _ _ Hinv Hopen).
Qed.

(** ** The anatomy of [request] *)

(** Without a sniff that is due, or with one in progress, [getConnection]
    is the selection of the pool and nothing else. *)
Lemma getConnection_quiet w :
  sniff_due w = false \/ _isSniffing (transport w) = true ->
  getConnection sniff w = (fst (selection w), set_pool (snd (selection w)) w).
Proof.
  intros Hq. unfold getConnection, selection. fold (sniff_due w).
  assert (Hw : (if sniff_due w then sniff Noop w else w) = w).
  { destruct Hq as [-> | Hb]; [reflexivity |].
    destruct (sniff_due w); [now apply sniff_with_busy | reflexivity]. }
  rewrite Hw. cbn [pool set_pool].
  now destruct (pool_getConnection (pool_resurrect (now w) (pool w))).
Qed.

(** The wrapper [request] makes is not called by the selection. *)
Lemma once_uncalled callback w c w2 :
  getConnection sniff (snd (once callback w)) = (c, w2) ->
  called (length (cells w)) w2 = false.
Proof.
  intros Hg.
  pose proof (getConnection_untouched sniff (snd (once callback w))
                (fun w0 => sniff_untouched Noop w0)) as Hu.
  rewrite Hg in Hu. cbn [snd] in Hu. unfold called.
  rewrite (Hu (length (cells w))).
  - unfold once. simpl. rewrite lookup_app_r by lia. now rewrite Nat.sub_diag.
  - unfold once. simpl. rewrite length_app. simpl. lia.
  - simpl. apply not_elem_of_nil.
Qed.

(** The three ways through [request]: no connection, a body the serializer
    throws on, a request handed to the connection. *)
Lemma request_cases params callback w :
  let n := length (cells w) in
  match getConnection sniff (snd (once callback w)) with
  | (None, w2) =>
      request params callback w
      = (call callback (Some (NoLivingConnectionsError "There are not living connections"))
           (OfResult empty_result) (set_cells (<[n := true]> (cells w2)) w2), Undefined)
  | (Some c, w2) =>
      match prepare_body (set_headers (Some (default ∅ (headers params))) params) with
      | inl err =>
          request params callback w
          = (call callback (Some err) (OfResult empty_result)
               (set_cells (<[n := true]> (cells w2)) w2), Undefined)
      | inr p =>
          request params callback w
          = dispatch c (finish_params (transport w2) p) (Once n callback)
              (resolve_attempts params (transport w)) empty_result w2
      end
  end.
Proof.
  intros n. rewrite request_unfold. unfold request_with, request_steps.
  destruct (getConnection sniff (snd (once callback w))) as [[c |] w2] eqn:Hg;
    pose proof (once_uncalled callback w _ w2 Hg) as Hun;
    unfold once in *; cbn [fst snd] in *; rewrite Hg.
  - destruct (prepare_body _) as [err | p]; [| reflexivity].
    subst n. cbn [call]. now rewrite Hun.
  - subst n. cbn [call]. now rewrite Hun.
Qed.

Lemma throws_on_prepare params err h :
  throws_on params err -> prepare_body (set_headers h params) = inl err.
Proof.
  unfold throws_on, prepare_body. cbn [body bulkBody set_headers].
  destruct (not_nullish (body params)).
  - intros [-> ->]. reflexivity.
  - intros (-> & -> & ->). reflexivity.
Qed.

(** *** Calls that do not reach the caller's function *)

Lemma call_unmentioned u callback : forall err v w,
  mentions u callback = false -> deliveries u (call callback err v w) = deliveries u w.
Proof.
  induction callback as [v' | | callback IH | c fn IH]; intros err v w Hm; simpl in *.
  - rewrite deliveries_log. unfold is_delivery. now rewrite Hm, Nat.add_0_r.
  - reflexivity.
  - pose proof (sniff_done_deliveries u err v w) as Hs.
    destruct (sniff_done err v w) as [w1 [[err' v'] |]]; simpl in Hs; [| exact Hs].
    now rewrite IH.
  - destruct (called c w); [reflexivity |]. now rewrite IH.
Qed.

Lemma getConnection_deliveries u s w :
  (forall w', deliveries u (s Noop w') = deliveries u w') ->
  deliveries u (snd (getConnection s w)) = deliveries u w.
Proof.
  intros Hs. unfold getConnection.
  destruct (_ && _); destruct (pool_getConnection _) as [c p]; cbn [snd];
    unfold deliveries; cbn [trace set_pool]; [apply Hs | reflexivity].
Qed.

Lemma request_with_unmentioned u s params callback w :
  (forall w', deliveries u (s Noop w') = deliveries u w') ->
  mentions u callback = false ->
  deliveries u (fst (request_with s params callback w)) = deliveries u w.
Proof.
  intros Hs Hm. unfold request_with, request_steps, once.
  set (w1 := set_cells (cells w ++ [false]) w).
  pose proof (getConnection_deliveries u s w1 Hs) as Hg.
  destruct (getConnection s w1) as [[c |] w2]; cbn [snd] in Hg.
  - destruct (prepare_body _) as [err | p]; cbn [fst].
    + rewrite call_unmentioned by exact Hm. exact Hg.
    + unfold dispatch. cbn [fst]. unfold deliveries in *. cbn [trace set_pending log].
      rewrite !filter_app, !length_app, !filter_cons, !filter_nil.
      rewrite !decide_False by discriminate. cbn [length]. rewrite Hg. subst w1.
      cbn [trace set_cells]. lia.
  - cbn [fst]. rewrite call_unmentioned by exact Hm. exact Hg.
Qed.

Lemma request_n_unmentioned u n : forall params callback w,
  mentions u callback = false ->
  deliveries u (fst (request_n n params callback w)) = deliveries u w.
Proof.
  induction n as [| n IH]; intros params callback w Hm; [reflexivity |].
  cbn [request_n]. apply request_with_unmentioned; [| exact Hm].
  intros w'. unfold sniff_with. destruct (_isSniffing (transport w')); [reflexivity |].
  now rewrite IH.
Qed.

Lemma sniff_noop_deliveries u w : deliveries u (sniff Noop w) = deliveries u w.
Proof.
  unfold sniff, sniff_with. destruct (_isSniffing (transport w)); [reflexivity |].
  now rewrite request_n_unmentioned.
Qed.

Lemma attempts_of_others u w w' : others u w w' -> attempts_of u w' = attempts_of u w.
Proof.
  intros (l & Hp & Hl). unfold attempts_of.
  rewrite Hp, filter_app, length_app, (filter_others u l Hl). simpl. lia.
Qed.

(** What the selection inside [request] leaves of the caller's function [u]:
    it is not called, and no connection request is made for it. *)
Lemma selection_aside u callback w c w2 :
  getConnection sniff (snd (once callback w)) = (c, w2) ->
  deliveries u w2 = deliveries u w /\ attempts_of u w2 = attempts_of u w.
Proof.
  intros Hg. split.
  - pose proof (getConnection_deliveries u sniff (snd (once callback w))
                  (sniff_noop_deliveries u)) as Hd.
    now rewrite Hg in Hd.
  - pose proof (getConnection_others u sniff (snd (once callback w))
                  (fun w0 => sniff_others u w0)) as Ho.
    rewrite Hg in Ho. now apply attempts_of_others in Ho.
Qed.

(** A body the serializer throws on ends the request where it stands: the
    caller's function is called at once with what was thrown and the empty
    result, [request] returns nothing, no 'request' event is emitted and
    nothing goes to the connection that was selected. *)
Theorem unserializable_body_ends_the_request params u w c w2 err :
  getConnection sniff (snd (once (Caller u) w)) = (Some c, w2) ->
  throws_on params err ->
  let w' := fst (request params (Caller u) w) in
  snd (request params (Caller u) w) = Undefined /\
  trace w' = trace w2 ++ [Deliver u (Some err) (OfResult empty_result)] /\
  pending w' = pending w2 /\
  pool w' = pool w2.
Proof.
  intros Hg Hthrow w'. subst w'.
  pose proof (request_cases params (Caller u) w) as Hreq. cbn zeta in Hreq.
  rewrite Hg in Hreq.
  rewrite (throws_on_prepare params err _ Hthrow) in Hreq. rewrite Hreq.
  repeat split.
Qed.

(** [request] either hands the request to a connection and returns its
    handle, the caller's function not called yet, or calls the caller's
    function once before it returns, no connection request made: the two
    never come together, and one of them always comes. *)
Theorem request_hands_over_or_calls_back u params w :
  let w' := fst (request params (Caller u) w) in
  match snd (request params (Caller u) w) with
  | Handle id =>
      deliveries u w' = deliveries u w /\
      attempts_of u w' = S (attempts_of u w) /\
      exists e, pending w' !! id = Some e /\ is_for u e = true /\ pn_phase e = Awaiting
  | Undefined =>
      deliveries u w' = S (deliveries u w) /\
      attempts_of u w' = attempts_of u w
  end.
Proof.
  intros w'. subst w'.
  pose proof (request_cases params (Caller u) w) as Hreq. cbn zeta in Hreq.
  destruct (getConnection sniff (snd (once (Caller u) w))) as [[c |] w2] eqn:Hg;
    destruct (selection_aside u _ _ _ _ Hg) as [Hd Ha].
  - destruct (prepare_body _) as [err | p]; rewrite Hreq.
    + cbn [fst snd call]. rewrite deliveries_log. cbn [is_delivery].
      rewrite Nat.eqb_refl. split.
      * rewrite (deliveries_same u _ w2) by reflexivity. lia.
      * exact Ha.
    + unfold dispatch. cbn [fst snd].
      split; [| split].
      * rewrite deliveries_log, (deliveries_same u _ (log (Emit_request c
          (finish_params (transport w2) p)) w2)) by reflexivity.
        rewrite deliveries_log. cbn [is_delivery]. lia.
      * unfold attempts_of in *. cbn [pending log set_pending].
        rewrite attempts_of_snoc; [now rewrite Ha |].
        unfold is_for. cbn. apply Nat.eqb_refl.
      * eexists. cbn [pending log set_pending]. split; [| split].
        -- now apply list_lookup_middle.
        -- unfold is_for. cbn. apply Nat.eqb_refl.
        -- reflexivity.
  - rewrite Hreq. cbn [fst snd call]. rewrite deliveries_log. cbn [is_delivery].
    rewrite Nat.eqb_refl. split.
    + rewrite (deliveries_same u _ w2) by reflexivity. lia.
    + exact Ha.
Qed.

(** ** The params a connection is handed *)

(** A handle is returned by the third way through [request] only. *)
Lemma request_handle params callback w id :
  snd (request params callback w) = Handle id ->
  exists c w2 p,
    prepare_body (set_headers (Some (default ∅ (headers params))) params) = inr p /\
    request params callback w
    = dispatch c (finish_params (transport w2) p) (Once (length (cells w)) callback)
        (resolve_attempts params (transport w)) empty_result w2 /\
    id = length (pending w2) /\
    same_config (transport w) (transport w2).
Proof.
  intros Hid.
  pose proof (request_cases params callback w) as Hreq. cbn zeta in Hreq.
  pose proof (getConnection_frame sniff (snd (once callback w))
                (fun w0 => sniff_frame Noop w0)) as Hf.
  destruct (getConnection sniff (snd (once callback w))) as [[c |] w2].
  - destruct (prepare_body _) as [err | p] eqn:Hp.
    + rewrite Hreq in Hid. discriminate.
    + exists c, w2, p. split; [reflexivity |]. split; [exact Hreq |].
      rewrite Hreq in Hid. unfold dispatch in Hid. cbn in Hid.
      split; [congruence |]. exact (fr_config _ _ Hf).
  - rewrite Hreq in Hid. discriminate.
Qed.

Lemma dispatch_entry c p callback attempts result w :
  pending (fst (dispatch c p callback attempts result w)) !! length (pending w)
  = Some {| pn_connection := c; pn_params := p; pn_callback := callback;
            pn_attempts := attempts; pn_result := result; pn_head := None;
            pn_phase := Awaiting |}.
Proof. unfold dispatch. cbn. now apply list_lookup_middle. Qed.

Lemma set_header_lookup k v p k' :
  default ∅ (headers (set_header k v p)) !! k'
  = if decide (k = k') then Some v else default ∅ (headers p) !! k'.
Proof. unfold set_header. cbn. apply lookup_insert. Qed.

Lemma content_length_lookup p k :
  default ∅ (headers (content_length p)) !! k
  = if isStream (body p) then default ∅ (headers p) !! k
    else if decide ("Content-Length" = k)
         then Some (pretty (N.of_nat (byteLength (body p))))
         else default ∅ (headers p) !! k.
Proof.
  unfold content_length. destruct (isStream (body p)); [reflexivity |].
  apply set_header_lookup.
Qed.

Lemma set_body_same p : set_body (body p) p = p.
Proof. now destruct p. Qed.

(** What [prepare_body] makes of params: nothing when there is no body,
    else a body [b], a content type and, unless the body is a stream, a
    content length. *)
Lemma prepare_body_cases p p' :
  prepare_body p = inr p' ->
  (not_nullish (body p) = false /\ not_nullish (bulkBody p) = false /\ p' = p) \/
  exists b,
    p' = content_length
           (set_header "Content-Type"
              (if not_nullish (body p) then "application/json" else "application/x-ndjson")
              (set_body b p)) /\
    let given := if not_nullish (body p) then body p else bulkBody p in
    let serializer := if not_nullish (body p) then serialize else ndserialize in
    not_nullish given = true /\
    if shouldSerialize given then exists s, serializer given = inr s /\ b = VStr s
    else b = given.
Proof.
  unfold prepare_body.
  destruct (not_nullish (body p)) eqn:Hb.
  - destruct (shouldSerialize (body p)) eqn:Hs.
    + destruct (serialize (body p)) as [err | s] eqn:Hser; [discriminate |].
      intros [= <-]. right. exists (VStr s). split; [reflexivity |]. cbn zeta. eauto.
    + intros [= <-]. right. exists (body p). rewrite set_body_same.
      split; [reflexivity |]. cbn zeta. eauto.
  - destruct (not_nullish (bulkBody p)) eqn:Hk.
    + destruct (shouldSerialize (bulkBody p)) eqn:Hs.
      * destruct (ndserialize (bulkBody p)) as [err | s] eqn:Hser; [discriminate |].
        intros [= <-]. right. exists (VStr s). split; [reflexivity |]. cbn zeta. eauto.
      * intros [= <-]. right. exists (bulkBody p).
        split; [reflexivity |]. cbn zeta. eauto.
    + intros [= <-]. now left.
Qed.

Lemma content_length_line p :
  let p' := content_length p in
  method p' = method p /\ path p' = path p /\ querystring p' = querystring p /\
  ignore p' = ignore p /\ requestTimeout p' = requestTimeout p /\
  asStream p' = asStream p /\ maxRetries p' = maxRetries p /\ body p' = body p /\
  bulkBody p' = bulkBody p.
Proof. unfold content_length. destruct (isStream (body p)); cbn; tauto. Qed.

Lemma prepare_body_line p p' :
  prepare_body p = inr p' ->
  method p' = method p /\ path p' = path p /\ querystring p' = querystring p /\
  ignore p' = ignore p /\ requestTimeout p' = requestTimeout p /\
  asStream p' = asStream p /\ maxRetries p' = maxRetries p /\ bulkBody p' = bulkBody p.
Proof.
  intros Hp. apply prepare_body_cases in Hp as [(_ & _ & ->) | (b & -> & _)]; [tauto |].
  match goal with |- context [content_length ?q] =>
    destruct (content_length_line q) as (-> & -> & -> & -> & -> & -> & -> & _ & ->) end.
  cbn. tauto.
Qed.

Lemma finish_params_line t p :
  let p' := finish_params t p in
  method p' = method p /\ path p' = path p /\ ignore p' = ignore p /\
  asStream p' = asStream p /\ maxRetries p' = maxRetries p /\ body p' = body p /\
  querystring p' = VStr (qserialize (querystring p)) /\
  timeout p' = toMs (js_or (requestTimeout p) (t_requestTimeout t)).
Proof. unfold finish_params. destruct (suggestCompression t); cbn; tauto. Qed.

Lemma finish_params_lookup t p k :
  default ∅ (headers (finish_params t p)) !! k
  = if suggestCompression t && bool_decide ("Accept-Encoding" = k)
    then Some "gzip,deflate" else default ∅ (headers p) !! k.
Proof.
  unfold finish_params. destruct (suggestCompression t); cbn [andb].
  - cbn. rewrite lookup_insert.
    case_bool_decide; [now rewrite decide_True | now rewrite decide_False].
  - reflexivity.
Qed.

(** Of the params a request is made with, the connection gets the method,
    the path, the ignore list and the stream flag as they are, the
    querystring serialized, the timeout in milliseconds ([requestTimeout]
    when it is truthy, else the one of the transport), and every header of
    the caller but [Content-Type], [Content-Length] and [Accept-Encoding]. *)
Theorem request_keeps_what_it_does_not_set params callback w id :
  snd (request params callback w) = Handle id ->
  exists e,
    pending (fst (request params callback w)) !! id = Some e /\
    pn_attempts e = resolve_attempts params (transport w) /\
    let p := pn_params e in
    method p = method params /\ path p = path params /\ ignore p = ignore params /\
    asStream p = asStream params /\
    querystring p = VStr (qserialize (querystring params)) /\
    timeout p = toMs (js_or (requestTimeout params) (t_requestTimeout (transport w))) /\
    forall k, k ∉ ["Content-Type"; "Content-Length"; "Accept-Encoding"]%string ->
              default ∅ (headers p) !! k = default ∅ (headers params) !! k.
Proof.
  intros Hid.
  destruct (request_handle params callback w id Hid) as (c & w2 & p & Hp & Hreq & -> & Hc).
  rewrite Hreq. eexists. split; [apply dispatch_entry |]. split; [reflexivity |].
  cbn [pn_params].
  destruct (finish_params_line (transport w2) p) as (-> & -> & -> & -> & _ & _ & -> & ->).
  destruct (prepare_body_line _ _ Hp) as (-> & -> & -> & -> & -> & -> & _ & _).
  destruct Hc as (_ & -> & _).
  repeat (split; [reflexivity |]).
  intros k Hk.
  assert (Hct : "Content-Type"%string <> k) by (intros <-; apply Hk; set_solver).
  assert (Hcl : "Content-Length"%string <> k) by (intros <-; apply Hk; set_solver).
  assert (Hae : "Accept-Encoding"%string <> k) by (intros <-; apply Hk; set_solver).
  rewrite finish_params_lookup, bool_decide_eq_false_2, andb_false_r by exact Hae.
  apply prepare_body_cases in Hp as [(_ & _ & ->) | (b & -> & _)]; [reflexivity |].
  rewrite content_length_lookup, set_header_lookup.
  rewrite !decide_False by assumption.
  now destruct (isStream _).
Qed.

(** *** The body and its headers *)

Lemma prepared_body p p' t :
  prepare_body p = inr p' -> body (finish_params t p') = sent_body p.
Proof.
  intros Hp. destruct (finish_params_line t p') as (_ & _ & _ & _ & _ & -> & _).
  unfold sent_body, given_body.
  apply prepare_body_cases in Hp as [(Hb & Hk & ->) | (b & -> & Hn & Hb)].
  - now rewrite Hb, Hk.
  - match goal with |- context [content_length ?q] =>
      destruct (content_length_line q) as (_ & _ & _ & _ & _ & _ & _ & -> & _) end.
    cbn [body set_header set_headers set_body]. rewrite Hn.
    destruct (not_nullish (body p));
      (destruct (shouldSerialize _); [destruct Hb as (s & -> & ->); reflexivity | exact Hb]).
Qed.

Lemma prepared_content_type p p' t :
  prepare_body p = inr p' ->
  default ∅ (headers (finish_params t p')) !! "Content-Type"
  = if not_nullish (body p) then Some "application/json"
    else if not_nullish (bulkBody p) then Some "application/x-ndjson"
    else default ∅ (headers p) !! "Content-Type".
Proof.
  intros Hp. rewrite finish_params_lookup.
  rewrite bool_decide_eq_false_2, andb_false_r by discriminate.
  apply prepare_body_cases in Hp as [(Hb & Hk & ->) | (b & -> & Hn & _)].
  - now rewrite Hb, Hk.
  - rewrite content_length_lookup, set_header_lookup.
    repeat case_decide; try discriminate; try congruence.
    destruct (isStream _), (not_nullish (body p)); try reflexivity; now rewrite Hn.
Qed.

Lemma prepared_content_length p p' t :
  prepare_body p = inr p' ->
  default ∅ (headers (finish_params t p')) !! "Content-Length"
  = if not_nullish (given_body p) && negb (isStream (sent_body p))
    then Some (pretty (N.of_nat (byteLength (sent_body p))))
    else default ∅ (headers p) !! "Content-Length".
Proof.
  intros Hp. rewrite <- (prepared_body p p' t Hp).
  destruct (finish_params_line t p') as (_ & _ & _ & _ & _ & -> & _).
  rewrite finish_params_lookup.
  rewrite bool_decide_eq_false_2, andb_false_r by discriminate.
  unfold given_body.
  apply prepare_body_cases in Hp as [(Hb & Hk & ->) | (b & -> & Hn & _)].
  - now rewrite Hb, Hk.
  - match goal with |- context [content_length ?q] =>
      destruct (content_length_line q) as (_ & _ & _ & _ & _ & _ & _ & -> & _) end.
    rewrite content_length_lookup, set_header_lookup.
    cbn [body set_header set_headers set_body]. rewrite Hn. cbn [andb].
    repeat case_decide; try discriminate; try congruence.
    now destruct (isStream b).
Qed.

(** What the connection gets as body and content headers.  With a body
    given (the document body, else the bulk body) the connection gets it
    serialized when it is neither a string, a buffer nor a stream, a
    [Content-Type] of [application/json], or [application/x-ndjson] for a
    bulk body, that replaces the caller's, and a [Content-Length] that is the
    byte length of what is sent, unless that is a stream; without a body, the
    caller's headers.  [Accept-Encoding] is set when the transport suggests
    compression. *)
Theorem body_decides_the_content_headers params callback w id :
  snd (request params callback w) = Handle id ->
  exists e,
    pending (fst (request params callback w)) !! id = Some e /\
    let p := pn_params e in
    let sent k := default ∅ (headers p) !! k in
    let given k := default ∅ (headers params) !! k in
    body p = sent_body params /\
    sent "Content-Type"
    = (if not_nullish (body params) then Some "application/json"
       else if not_nullish (bulkBody params) then Some "application/x-ndjson"
       else given "Content-Type") /\
    sent "Content-Length"
    = (if not_nullish (given_body params) && negb (isStream (sent_body params))
       then Some (pretty (N.of_nat (byteLength (sent_body params))))
       else given "Content-Length") /\
    sent "Accept-Encoding"
    = (if suggestCompression (transport w) then Some "gzip,deflate"
       else given "Accept-Encoding").
Proof.
  intros Hid.
  destruct (request_handle params callback w id Hid) as (c & w2 & p & Hp & Hreq & -> & Hc).
  rewrite Hreq. eexists. split; [apply dispatch_entry |]. cbn [pn_params].
  split; [| split; [| split]].
  - now rewrite (prepared_body _ _ _ Hp).
  - now rewrite (prepared_content_type _ _ _ Hp).
  - now rewrite (prepared_content_length _ _ _ Hp).
  - rewrite finish_params_lookup. destruct Hc as (_ & _ & -> & _).
    rewrite bool_decide_eq_true_2 by reflexivity. rewrite andb_true_r.
    destruct (suggestCompression (transport w)); [reflexivity |].
    apply prepare_body_cases in Hp as [(_ & _ & ->) | (b & -> & _)]; [reflexivity |].
    rewrite content_length_lookup, set_header_lookup.
    repeat case_decide; try discriminate. now destruct (isStream _).
Qed.

(** *** A bulk body, sent again *)

(** A handler that sees a network error with attempts left submits the
    params its connection request went out with. *)
Lemma on_error_retries id e err w :
  0 < pn_attempts e ->
  on_error id e err w = fst (request (retry_of e) (pn_callback e) (after_fault sniff id e w)).
Proof. intros Ha. unfold on_error, after_fault, retry_of. cbn zeta. now rewrite gtb_pos. Qed.

(** A request with a bulk body goes out as [application/x-ndjson]; its
    params then hold the serialized bulk body as [body], and when a network
    error sends them through [request] again, they are read as params with a
    document body: the same body goes out as [application/json]. *)
Theorem retried_bulk_body_goes_as_json params callback w id :
  not_nullish (body params) = false ->
  not_nullish (bulkBody params) = true ->
  snd (request params callback w) = Handle id ->
  exists e,
    pending (fst (request params callback w)) !! id = Some e /\
    default ∅ (headers (pn_params e)) !! "Content-Type" = Some "application/x-ndjson" /\
    (forall err w1, 0 < pn_attempts e ->
       on_error id e err w1
       = fst (request (retry_of e) (pn_callback e) (after_fault sniff id e w1))) /\
    forall callback' w' id',
      snd (request (retry_of e) callback' w') = Handle id' ->
      exists e',
        pending (fst (request (retry_of e) callback' w')) !! id' = Some e' /\
        body (pn_params e') = body (pn_params e) /\
        default ∅ (headers (pn_params e')) !! "Content-Type" = Some "application/json".
Proof.
  intros Hb Hk Hid.
  destruct (request_handle params callback w id Hid) as (c & w2 & p & Hp & Hreq & -> & Hc).
  rewrite Hreq. eexists. split; [apply dispatch_entry |].
  split; [| split].
  - cbn [pn_params]. rewrite (prepared_content_type _ _ _ Hp).
    cbn [body bulkBody set_headers]. now rewrite Hb, Hk.
  - intros err w1 Ha. now apply on_error_retries.
  - unfold retry_of. cbn [pn_params pn_attempts].
    set (a := Some (resolve_attempts params (transport w) - 1)).
    intros callback' w' id' Hid'.
    destruct (request_handle _ callback' w' id' Hid') as (c' & w2' & p2 & Hp2 & Hreq' & -> & _).
    rewrite Hreq'. eexists. split; [apply dispatch_entry |]. cbn [pn_params].
    assert (Hsent : not_nullish (body (finish_params (transport w2) p)) = true /\
                    shouldSerialize (body (finish_params (transport w2) p)) = false).
    { rewrite (prepared_body _ _ _ Hp). unfold sent_body, given_body.
      cbn [body bulkBody set_headers]. rewrite Hb, Hk.
      destruct (shouldSerialize (bulkBody params)) eqn:Hs; [| now split].
      apply prepare_body_cases in Hp as [(_ & Hk' & _) | (b & _ & _ & Hser)].
      - cbn [bulkBody set_headers] in Hk'. congruence.
      - cbn [body bulkBody set_headers] in Hser. rewrite Hb, Hs in Hser.
        destruct Hser as (s & -> & _). now split. }
    destruct Hsent as [Hn Hs]. split.
    + rewrite (prepared_body _ _ _ Hp2). unfold sent_body, given_body.
      cbn [body set_headers set_remainingAttempts].
      repeat (rewrite ?Hn, ?Hs; cbv iota). reflexivity.
    + rewrite (prepared_content_type _ _ _ Hp2).
      cbn [body set_headers set_remainingAttempts]. now rewrite Hn.
Qed.

(** ** Responses *)

Lemma set_pending_same w : set_pending (pending w) w = w.
Proof. now destruct w. Qed.

Lemma update_pending_fixed id f w e :
  pending w !! id = Some e -> f e = e -> update_pending id f w = w.
Proof.
  intros He Hf. unfold update_pending.
  rewrite (list_alter_ext f (fun x => x) (pending w) (pending w) id);
    [| intros x Hx; congruence | reflexivity].
  rewrite list_alter_id by reflexivity. apply set_pending_same.
Qed.

Lemma update_pending_lookup id f w e :
  pending w !! id = Some e -> pending (update_pending id f w) !! id = Some (f e).
Proof.
  intros He. unfold update_pending. cbn [pending set_pending].
  rewrite list_lookup_alter, decide_True by reflexivity. now rewrite He.
Qed.

Lemma update_pending_again id f g w :
  (forall e, pending w !! id = Some e -> f (g e) = f e) ->
  update_pending id f (update_pending id g w) = update_pending id f w.
Proof.
  intros Hfg. unfold update_pending, set_pending. cbn.
  rewrite list_alter_alter_eq. f_equal. now apply list_alter_ext.
Qed.

Lemma append_assoc a b c : (a +:+ b) +:+ c = a +:+ (b +:+ c).
Proof.
  induction a as [| x a IH]; [reflexivity |].
  change (String x ((a +:+ b) +:+ c) = String x (a +:+ (b +:+ c))). now rewrite IH.
Qed.

Lemma append_nil_r s : s +:+ "" = s.
Proof.
  induction s as [| x s IH]; [reflexivity |].
  change (String x (s +:+ "") = String x s). now rewrite IH.
Qed.

Lemma concat_chunks payload c cs :
  payload +:+ String.concat "" (c :: cs) = (payload +:+ c) +:+ String.concat "" cs.
Proof.
  destruct cs as [| c' cs]; cbn [String.concat].
  - now rewrite append_nil_r.
  - now rewrite append_assoc.
Qed.

Lemma run_cons ev evs w : run (ev :: evs) w = run evs (step ev w).
Proof. reflexivity. Qed.

(** The chunks of a response body are put together in the order they come
    in, after what came before, and nothing else happens while they come:
    no event, no call, no change of the pool. *)
Theorem chunks_are_appended_in_order id chunks : forall e response payload w,
  reads id e response payload w ->
  run (map (ResponseData id) chunks) w
  = update_pending id (set_phase (Receiving (payload +:+ String.concat "" chunks))) w.
Proof.
  induction chunks as [| c cs IH]; intros e response payload w (He & Hh & Hph).
  - cbn [map run fold_left String.concat]. rewrite append_nil_r. symmetry.
    apply (update_pending_fixed id _ w e He). destruct e. cbn in Hph. now subst.
  - cbn [map]. rewrite run_cons. cbn [step]. rewrite He, Hph. unfold on_data.
    rewrite (IH (set_phase (Receiving (payload +:+ c)) e) response (payload +:+ c)).
    + rewrite concat_chunks. now apply update_pending_again.
    + split; [now apply update_pending_lookup | now split].
Qed.

(** A connection request that is closed hears nothing more. *)
Lemma step_closed id ev w e :
  pending w !! id = Some e -> pn_phase e = Closed -> concerns id ev = true ->
  step ev w = w.
Proof.
  intros He Hph Hc.
  destruct ev as [i err | i r | i c | i err | i | t]; cbn in Hc; try discriminate;
    apply Nat.eqb_eq in Hc; subst i; cbn [step]; rewrite He, Hph; reflexivity.
Qed.

Lemma run_closed id e evs : forall w,
  pending w !! id = Some e -> pn_phase e = Closed ->
  Forall (fun ev => concerns id ev = true) evs ->
  run evs w = w.
Proof.
  induction evs as [| ev evs IH]; intros w He Hph Hall; [reflexivity |].
  apply Forall_cons in Hall as [Hev Hall].
  rewrite run_cons, (step_closed id ev w e He Hph Hev). now apply IH.
Qed.

(** In stream mode the callback is answered when the head of the response
    comes in, without error and with the response itself as body, whatever
    the status: the status is not compared with anything, the connection is
    marked neither alive nor dead, nothing is tried again, and nothing of
    that response is listened to any more. *)
Theorem stream_mode_answers_at_the_head id e response w :
  pending w !! id = Some e -> pn_phase e = Awaiting -> asStream (pn_params e) = true ->
  let result := with_body (VStream id) (head_result e response) in
  let w' := step (ConnectionResponds id response) w in
  (exists w1,
     w' = call (pn_callback e) None (OfResult result) w1 /\
     trace w1 = trace w ++ [Emit_response (pn_connection e) (pn_params e) result] /\
     pool w1 = pool w /\ cells w1 = cells w) /\
  length (pending w') = length (pending w) /\
  forall evs, Forall (fun ev => concerns id ev = true) evs -> run evs w' = w'.
Proof.
  intros He Hph Hs result w'. subst w'. cbn [step]. rewrite He, Hph.
  unfold on_response. rewrite Hs. fold (head_result e response). fold result.
  split; [| split].
  - eexists. split; [reflexivity |]. now repeat split.
  - rewrite call_pending. cbn. apply length_alter.
  - intros evs Hall. eapply (run_closed id); [| | exact Hall].
    + rewrite call_pending. cbn [pending log].
      apply update_pending_lookup, He.
    + reflexivity.
Qed.

(** A body that does not deserialize (a JSON content type, a request that
    is not HEAD, a payload that is not empty, and [deserialize] throws) ends
    the request with what was thrown: an 'error' event, then the callback;
    whatever the status and the attempts left, the connection is marked
    neither dead nor alive, no 'response' event is emitted and nothing is
    tried again. *)
Theorem unreadable_body_is_the_error id e response payload ct err w :
  reads id e response payload w ->
  resp_headers response !! "content-type" = Some ct ->
  -1 < indexOf ct "application/json" ->
  method (pn_params e) <> "HEAD" ->
  payload <> "" ->
  deserialize payload = inl err ->
  exists w1,
    step (ResponseEnd id) w = call (pn_callback e) (Some err) (OfResult (pn_result e)) w1 /\
    trace w1 = trace w ++ [Emit_error err (pn_connection e) (pn_params e)] /\
    pool w1 = pool w /\ pending w1 = pending w /\ cells w1 = cells w.
Proof.
  intros (He & Hh & Hph) Hct Hjson Hm Hp Hd.
  cbn [step]. rewrite He, Hph, Hh. unfold on_end, read_payload.
  rewrite Hct. cbn [from_option].
  replace (indexOf ct "application/json" >? -1) with true
    by (symmetry; apply Z.gtb_lt; lia).
  replace (String.eqb (method (pn_params e)) "HEAD") with false
    by (symmetry; now apply String.eqb_neq).
  replace (String.eqb payload "") with false by (symmetry; now apply String.eqb_neq).
  cbn [andb negb]. rewrite Hd.
  eexists. split; [reflexivity |]. now repeat split.
Qed.

(** A response read to its end, its body read as [v], with a status that is
    neither in the ignore list nor 502, 503 or 504, for a request that is not
    HEAD: the connection is marked alive, the 'response' event is emitted,
    and the callback gets a [ResponseError] that holds the result when the
    status is 400 or more, else no error; nothing is tried again. *)
Theorem status_from_400_is_a_ResponseError id e response payload v w :
  reads id e response payload w ->
  read_payload (resp_headers response) (String.eqb (method (pn_params e)) "HEAD") payload
  = inr v ->
  let status := statusCode response in
  let c := pn_connection e in
  let result := with_body v (pn_result e) in
  method (pn_params e) <> "HEAD" ->
  ignored (ignore (pn_params e)) status = false ->
  status <> 502 -> status <> 503 -> status <> 504 ->
  exists w1,
    step (ResponseEnd id) w
    = call (pn_callback e)
        (if status >=? 400 then Some (ResponseError result) else None) (OfResult result) w1 /\
    trace w1 = trace w ++ [Pool_markAlive c; Emit_response c (pn_params e) result] /\
    pool w1 = pool_markAlive c (pool w) /\
    length (pending w1) = length (pending w) /\ cells w1 = cells w.
Proof.
  intros (He & Hh & Hph) Hread status c result Hm Hign H502 H503 H504.
  cbn [step]. rewrite He, Hph, Hh. unfold on_end. rewrite Hread. cbn zeta.
  fold status. fold c. fold result. rewrite Hign.
  replace (String.eqb (method (pn_params e)) "HEAD") with false
    by (symmetry; now apply String.eqb_neq).
  replace (status =? 502) with false by (symmetry; now apply Z.eqb_neq).
  replace (status =? 503) with false by (symmetry; now apply Z.eqb_neq).
  replace (status =? 504) with false by (symmetry; now apply Z.eqb_neq).
  cbn [andb orb negb].
  destruct (status >=? 400); eexists; (split; [reflexivity |]); cbn;
    rewrite ?length_alter, <- ?app_assoc; now repeat split.
Qed.

(** A status that is in the ignore list of the request is no error and no
    reason to try again, 502, 503 and 504 included: the connection is marked
    alive, the 'response' event is emitted and the callback gets the result
    without error. *)
Theorem ignored_status_is_no_error id e response payload v w :
  reads id e response payload w ->
  read_payload (resp_headers response) (String.eqb (method (pn_params e)) "HEAD") payload
  = inr v ->
  let status := statusCode response in
  let c := pn_connection e in
  let result := with_body v (pn_result e) in
  ignored (ignore (pn_params e)) status = true ->
  exists w1 body,
    step (ResponseEnd id) w = call (pn_callback e) None (OfResult (with_body body result)) w1 /\
    body = (if String.eqb (method (pn_params e)) "HEAD" && (status =? 404)
            then VBool false else v) /\
    trace w1 = trace w ++ [Pool_markAlive c; Emit_response c (pn_params e) result] /\
    pool w1 = pool_markAlive c (pool w) /\
    length (pending w1) = length (pending w) /\ cells w1 = cells w.
Proof.
  intros (He & Hh & Hph) Hread status c result Hign.
  cbn [step]. rewrite He, Hph, Hh. unfold on_end. rewrite Hread. cbn zeta.
  fold status. fold c. fold result. rewrite Hign. cbn [andb orb negb].
  destruct (String.eqb (method (pn_params e)) "HEAD" && (status =? 404));
    eexists _, _; (split; [reflexivity |]); (split; [reflexivity |]); cbn;
    rewrite ?length_alter, <- ?app_assoc; now repeat split.
Qed.

Lemma call_error_pool callback : forall err v w,
  pool (call callback (Some err) v w) = pool w.
Proof.
  induction callback as [u | | callback IH | c fn IH]; intros err v w; simpl.
  - reflexivity.
  - reflexivity.
  - destruct (_sniffEnabled (transport w)); cbn; now rewrite IH.
  - destruct (called c w); [reflexivity |]. now rewrite IH.
Qed.

(** An 'error' of the response stream, once its head is in, is reported to
    the callback as a [ConnectionError] with the message of the error; and
    that is all: the connection is not marked dead, nothing is tried again
    whatever attempts are left, and the response is still listened to. *)
Theorem response_error_is_a_ConnectionError id e response payload err w :
  reads id e response payload w ->
  let w' := step (ResponseFails id err) w in
  w' = call (pn_callback e) (Some (ConnectionError (message err) (pn_params e)))
         (OfResult (pn_result e)) w /\
  pool w' = pool w /\ pending w' = pending w /\ reads id e response payload w'.
Proof.
  intros (He & Hh & Hph) w'. subst w'. cbn [step]. rewrite He, Hph.
  unfold on_stream_error. split; [reflexivity |].
  split; [apply call_error_pool |].
  split; [apply call_pending |].
  split; [| now split]. now rewrite call_pending.
Qed.

(** ** Sniffing *)

Lemma sniff_unfold callback w :
  _isSniffing (transport w) = false ->
  sniff callback w
  = fst (request (sniff_request (transport w)) (SniffDone callback)
           (set_transport (set_isSniffing true (transport w)) w)).
Proof.
  intros Hidle. unfold sniff, sniff_with. rewrite Hidle.
  unfold request. now rewrite (request_n_busy 1).
Qed.

(** The selection of the request a sniff makes: the sniff being in
    progress, it is the selection of the pool. *)
Lemma sniff_selection callback w :
  let w0 := set_transport (set_isSniffing true (transport w)) w in
  getConnection sniff (snd (once (SniffDone callback) w0))
  = (fst (selection w), set_pool (snd (selection w)) (snd (once (SniffDone callback) w0))).
Proof. intros w0. rewrite getConnection_quiet; [reflexivity | now right]. Qed.

(** A sniff that finds a connection. *)
Lemma sniff_start_some callback w c :
  _isSniffing (transport w) = false ->
  fst (selection w) = Some c ->
  let e := sniff_entry c callback w in
  sniff callback w
  = log (Connection_request (length (pending w)) c (pn_params e))
      (set_pending (pending w ++ [e])
         (log (Emit_request c (pn_params e))
            (set_pool (snd (selection w))
               (set_cells (cells w ++ [false])
                  (set_transport (set_isSniffing true (transport w)) w))))).
Proof.
  intros Hidle Hc e. rewrite sniff_unfold by exact Hidle.
  pose proof (request_cases (sniff_request (transport w)) (SniffDone callback)
                (set_transport (set_isSniffing true (transport w)) w)) as Hreq.
  cbn zeta in Hreq. rewrite sniff_selection, Hc in Hreq.
  cbv beta iota in Hreq.
  match type of Hreq with context [prepare_body ?q] =>
    change (prepare_body q)
      with (@inr Error Params (set_headers (Some ∅) (sniff_request (transport w)))) in Hreq
  end.
  cbv beta iota in Hreq. rewrite Hreq. reflexivity.
Qed.

(** A sniff that finds none. *)
Lemma sniff_start_none callback w :
  _isSniffing (transport w) = false ->
  fst (selection w) = None ->
  let err := NoLivingConnectionsError "There are not living connections" in
  exists w1,
    sniff callback w = call callback (Some err) NoValue w1 /\
    trace w1 = trace w ++ [Emit_sniff_error err] /\
    pending w1 = pending w /\ pool w1 = snd (selection w) /\ settled w1.
Proof.
  intros Hidle Hc err. rewrite sniff_unfold by exact Hidle.
  pose proof (request_cases (sniff_request (transport w)) (SniffDone callback)
                (set_transport (set_isSniffing true (transport w)) w)) as Hreq.
  cbn zeta in Hreq. rewrite sniff_selection, Hc in Hreq.
  rewrite Hreq. cbn [fst call].
  match goal with |- context [sniff_done ?a ?b ?w0] =>
    pose proof (sniff_done_settled a b w0) as Hs;
    pose proof (sniff_done_pending a b w0) as Hp;
    assert (Hsd : exists w1, sniff_done a b w0 = (w1, Some (Some err, NoValue)) /\
                    trace w1 = trace w0 ++ [Emit_sniff_error err] /\ pool w1 = pool w0)
  end.
  { unfold sniff_done. eexists. split; [reflexivity |].
    cbn. now destruct (_sniffEnabled (transport w)). }
  destruct Hsd as (w1 & Hsd & Ht & Hpool). rewrite Hsd in *. cbn [fst] in *.
  exists w1. split; [reflexivity |]. now rewrite Ht, Hp, Hpool.
Qed.

(** A sniff that starts makes one request, a GET of the sniff endpoint on
    the connection the pool selects, and leaves the in-progress flag up; with
    no connection to select it ends at once: an 'error' event with the
    [NoLivingConnectionsError], the callback called with it, the flag down
    and the next sniff scheduled. *)
Theorem sniff_starts_with_one_request callback w :
  _isSniffing (transport w) = false ->
  let w' := sniff callback w in
  match fst (selection w) with
  | Some c =>
      let e := sniff_entry c callback w in
      pending w' = pending w ++ [e] /\
      trace w' = trace w ++ [Emit_request c (pn_params e);
                             Connection_request (length (pending w)) c (pn_params e)] /\
      _isSniffing (transport w') = true /\
      method (pn_params e) = "GET" /\ path (pn_params e) = sniffEndpoint (transport w) /\
      body (pn_params e) = VUndef
  | None =>
      let err := NoLivingConnectionsError "There are not living connections" in
      exists w1,
        w' = call callback (Some err) NoValue w1 /\
        trace w1 = trace w ++ [Emit_sniff_error err] /\
        pending w1 = pending w /\ settled w1
  end.
Proof.
  intros Hidle w'. subst w'.
  destruct (fst (selection w)) as [c |] eqn:Hc.
  - rewrite (sniff_start_some callback w c Hidle Hc). cbn [pending trace transport log
      set_pending set_pool set_cells set_transport _isSniffing set_isSniffing].
    rewrite <- app_assoc.
    destruct (finish_params_line (transport w)
                (set_headers (Some ∅) (sniff_request (transport w))))
      as (Hm & Hpath & _ & _ & _ & Hb & _).
    repeat split; [exact Hm | exact Hpath | exact Hb].
  - destruct (sniff_start_none callback w Hidle Hc) as (w1 & Heq & Ht & Hp & _ & Hs).
    intros err. exists w1.
    split; [exact Heq | split; [exact Ht | split; [exact Hp | exact Hs]]].
Qed.

(** What a sniff makes of its answer.  An error is emitted as an 'error'
    event and passed on to the callback of [sniff], the pool left as it is;
    a result whose body is not null has its [nodes] turned into hosts, the
    pool updated with them and the callback given them; a result whose body
    is null makes the read of [nodes] throw: the pool is left as it is and
    the callback is not called. *)
Theorem sniff_answer_updates_the_pool callback w :
  (forall err v,
     exists w1,
       call (SniffDone callback) (Some err) v w = call callback (Some err) NoValue w1 /\
       trace w1 = trace w ++ [Emit_sniff_error err] /\ pool w1 = pool w) /\
  (forall r,
     not_nullish (r_body r) = true ->
     let hosts := pool_nodesToHost (get_prop (r_body r) "nodes") in
     exists w1,
       call (SniffDone callback) None (OfResult r) w = call callback None (OfHosts hosts) w1 /\
       trace w1 = trace w ++ [Pool_update hosts] /\ pool w1 = pool_update hosts (pool w)) /\
  (forall r,
     not_nullish (r_body r) = false ->
     let w' := call (SniffDone callback) None (OfResult r) w in
     trace w' = trace w ++ [Uncaught_TypeError] /\ pool w' = pool w /\
     pending w' = pending w /\ cells w' = cells w).
Proof.
  split; [| split].
  - intros err v. cbn [call]. unfold sniff_done. eexists. split; [reflexivity |].
    cbn. now destruct (_sniffEnabled (transport w)).
  - intros r Hr hosts. cbn [call]. unfold sniff_done. rewrite Hr.
    eexists. split; [reflexivity |].
    cbn. now destruct (_sniffEnabled (transport w)).
  - intros r Hr w'. subst w'. cbn [call]. unfold sniff_done. rewrite Hr.
    cbn. now destruct (_sniffEnabled (transport w)).
Qed.

Lemma sniff_done_error err v w :
  exists w1,
    sniff_done (Some err) v w = (w1, Some (Some err, NoValue)) /\
    trace w1 = trace w ++ [Emit_sniff_error err] /\
    pending w1 = pending w /\ _isSniffing (transport w1) = false.
Proof.
  unfold sniff_done. eexists. split; [reflexivity |].
  cbn. now destruct (_sniffEnabled (transport w)).
Qed.

(** ** A sniff whose request keeps failing *)

(** With a connection at hand, a sniff that starts with retries allowed is
    in the state [stalled] describes. *)
Lemma stalled_start callback w :
  always_yields ->
  _isSniffing (transport w) = false ->
  1 <= t_maxRetries (transport w) ->
  stalled callback (set_isSniffing true (transport w)) (trace w) (S (length (pending w)))
    (sniff callback w).
Proof.
  intros Hy Hidle Hmax.
  destruct (Hy (pool_resurrect (now w) (pool w))) as (c & p' & Hsel).
  assert (Hc : fst (selection w) = Some c) by (unfold selection; now rewrite Hsel).
  rewrite (sniff_start_some callback w c Hidle Hc).
  destruct (finish_params_fields (transport w)
              (set_headers (Some ∅) (sniff_request (transport w)))) as (Hb & Hk & Hm).
  split.
  - reflexivity.
  - reflexivity.
  - eexists. cbn [trace log set_pending set_pool set_cells set_transport].
    rewrite <- app_assoc. split; [reflexivity |]. now repeat constructor.
  - eexists _, _. cbn [pending log set_pending]. split; [reflexivity |].
    split; [reflexivity |]. split; [reflexivity |]. split; [reflexivity |].
    split; [exact Hmax |]. split.
    + unfold ready. cbn [sniff_entry pn_params]. now rewrite Hb, Hk.
    + unfold budget. cbn [sniff_entry pn_params]. now rewrite Hm.
Qed.

(** One more network error leaves it there: the handler submits the request
    again, the selection starts no sniff and yields a connection, and the
    attempts of the new connection request are 1 or more. *)
Lemma stalled_step callback t tr n err w :
  always_yields -> stalled callback t tr n w ->
  stalled callback t tr (S n) (fail_last err w).
Proof.
  intros Hy [Ht Hbusy (tl & Htr & Hq) (l & e & Hp & Hn & Htg & Hph & Ha & Hready & Hbud)].
  unfold fail_last.
  replace (length (pending w) - 1)%nat with (length l)
    by (rewrite Hp, length_app; simpl; lia).
  assert (Hlook : pending w !! length l = Some e)
    by (rewrite Hp; now apply list_lookup_middle).
  cbn [step]. rewrite Hlook, Hph. rewrite on_error_retries by lia.
  unfold after_fault. cbn zeta.
  set (w1 := markDead (pn_connection e) (update_pending (length l) (set_phase Closed) w)).
  assert (Ht1 : transport w1 = t) by exact Ht.
  assert (Hb1 : _isSniffing (transport w1) = true) by now rewrite Ht1.
  replace (if sniffOnConnectionFault (transport w1) then sniff Noop w1 else w1) with w1
    by (destruct (sniffOnConnectionFault (transport w1));
        [symmetry; now apply sniff_with_busy | reflexivity]).
  pose proof (request_cases (retry_of e) (pn_callback e) w1) as Hreq.
  cbn zeta in Hreq.
  rewrite getConnection_quiet in Hreq by now right.
  unfold selection in Hreq.
  destruct (Hy (pool_resurrect (now (snd (once (pn_callback e) w1)))
                  (pool (snd (once (pn_callback e) w1))))) as (c & p' & Hsel).
  rewrite Hsel in Hreq. cbn [fst snd] in Hreq.
  destruct (serializable_prepares (retry_of e) (Some (default ∅ (headers (retry_of e))))
              (ready_serializable _ Hready)) as [q Hprep].
  rewrite Hprep in Hreq. rewrite Hreq.
  destruct (prepare_body_ready _ _ Hprep) as [Hready' Hmax].
  assert (Hp1 : pending w1 = l ++ [set_phase Closed e]).
  { subst w1. simpl. rewrite Hp, alter_app_r_alt by lia. now rewrite Nat.sub_diag. }
  unfold dispatch. cbn [fst]. split.
  - exact Ht.
  - exact Hbusy.
  - exists (tl ++ [Pool_markDead (pn_connection e);
                   Emit_request c (finish_params (transport w1) q);
                   Connection_request (length (pending w1)) c (finish_params (transport w1) q)]).
    split.
    + cbn. rewrite Htr, <- !app_assoc. reflexivity.
    + apply Forall_app. split; [exact Hq | now repeat constructor].
  - eexists _, _. cbn [pending log set_pending set_pool once snd set_cells].
    split; [reflexivity |]. fold w1. rewrite Hp1, length_app. cbn [length].
    split; [lia |]. cbn [pn_callback pn_phase pn_attempts pn_params target].
    split; [exact Htg |]. split; [reflexivity |]. split.
    + apply resolve_attempts_retry; [now rewrite Ht1 | exact Ha].
    + match goal with |- context [finish_params ?t0 q] =>
        destruct (finish_params_fields t0 q) as (Hfb & Hfk & Hfm) end.
      split.
      * unfold ready in *. now rewrite Hfb, Hfk.
      * unfold budget in *. rewrite Hfm, Hmax. exact Hbud.
Qed.

Lemma stalled_fail_each callback t tr errs : forall n w,
  always_yields -> stalled callback t tr n w ->
  stalled callback t tr (n + length errs) (fail_each errs w).
Proof.
  induction errs as [| err errs IH]; intros n w Hy Hw; simpl.
  - now rewrite Nat.add_0_r.
  - replace (n + S (length errs))%nat with (S n + length errs)%nat by lia.
    apply IH; [exact Hy |]. now apply stalled_step.
Qed.

(** C9, where the code leaves the claim.  The transport retries (its
    [maxRetries] is 1 or more) and its pool hands out a connection at every
    selection.  A sniff starts, and its discovery request fails with a
    network error, as does each request made in its place, any number of
    times: the closure that ends the sniff is never called.  The in-progress
    flag stays up and the time of the next sniff is the one it was (the state
    of the transport is the one the sniff started with, flag apart), nothing
    is emitted or delivered, one connection request of the sniff is in
    flight, and every later call of [sniff] returns at its first line:
    discovery is stuck for as long as the requests fail. *)
Theorem failing_sniff_stays_in_progress callback errs w :
  always_yields ->
  1 <= t_maxRetries (transport w) ->
  _isSniffing (transport w) = false ->
  let w' := fail_each errs (sniff callback w) in
  transport w' = set_isSniffing true (transport w) /\
  (exists l, trace w' = trace w ++ l /\ Forall (fun a => completion a = false) l) /\
  (exists l e,
     pending w' = l ++ [e] /\ length l = (length (pending w) + length errs)%nat /\
     target (pn_callback e) = SniffDone callback /\ pn_phase e = Awaiting) /\
  forall later, sniff later w' = w'.
Proof.
  intros Hy Hmax Hidle w'.
  pose proof (stalled_fail_each callback _ _ errs _ _ Hy (stalled_start callback w Hy Hidle Hmax))
    as [Ht Hbusy Htr (l & e & Hp & Hn & Htg & Hph & _)].
  fold w' in Ht, Htr, Hp. split; [exact Ht |]. split; [exact Htr |]. split.
  - exists l, e. split; [exact Hp |]. split; [lia |]. now split.
  - intros later. apply sniff_with_busy. now rewrite Ht.
Qed.

(** ** A sniff whose request is not retried *)

(** The wrapper of a sniff, called for the first time, ends the sniff. *)
Lemma wrapper_settles callback n err v w :
  called n w = false -> settled (call (Once n (SniffDone callback)) err v w).
Proof.
  intros Hun. cbn [call]. rewrite Hun.
  match goal with |- context [sniff_done err v ?w0] =>
    pose proof (sniff_done_settled err v w0) as Hs;
    destruct (sniff_done err v w0) as [w1 [[err' v'] |]] end;
    cbn [fst] in Hs; [now apply call_settled | exact Hs].
Qed.

Lemma on_error_settles callback n id e err w :
  pn_callback e = Once n (SniffDone callback) -> called n w = false ->
  _isSniffing (transport w) = true -> pn_attempts e <= 0 ->
  settled (on_error id e err w).
Proof.
  intros Hcb Hun Hbusy Ha. unfold on_error. cbn zeta.
  rewrite (gtb_nonpos _ Ha).
  set (w2 := markDead (pn_connection e) (update_pending id (set_phase Closed) w)).
  replace (if sniffOnConnectionFault (transport w2) then sniff Noop w2 else w2) with w2
    by (destruct (sniffOnConnectionFault (transport w2));
        [symmetry; now apply sniff_with_busy | reflexivity]).
  rewrite Hcb. apply wrapper_settles. exact Hun.
Qed.

Lemma on_end_settles callback n id e response payload w :
  pn_callback e = Once n (SniffDone callback) -> called n w = false ->
  pn_attempts e <= 0 ->
  settled (on_end id e response payload w).
Proof.
  intros Hcb Hun Ha. unfold on_end. cbn zeta.
  rewrite Hcb, (gtb_nonpos _ Ha).
  destruct (read_payload _ _ payload) as [err | v]; [apply wrapper_settles; exact Hun |].
  destruct (negb _ && ((_ =? 502) || _ || _)); destruct (negb _ && (_ >=? 400));
    apply wrapper_settles; exact Hun.
Qed.

Lemma run_app evs1 evs2 w : run (evs1 ++ evs2) w = run evs2 (run evs1 w).
Proof. unfold run. apply fold_left_app. Qed.

Lemma listening_data callback n id chunk w :
  listening callback n id w -> listening callback n id (step (ResponseData id chunk) w).
Proof.
  intros (Hun & e & payload & response & He & Hph & Hh & Hcb & Ha).
  cbn [step]. rewrite He, Hph. unfold on_data. split; [exact Hun |].
  exists (set_phase (Receiving (payload +:+ chunk)) e), (payload +:+ chunk), response.
  split; [now apply update_pending_lookup | now repeat split].
Qed.

Lemma listening_chunks callback n id chunks : forall w,
  listening callback n id w ->
  listening callback n id (run (map (ResponseData id) chunks) w).
Proof.
  induction chunks as [| c cs IH]; intros w Hw; [exact Hw |].
  cbn [map]. rewrite run_cons. now apply IH, listening_data.
Qed.

(** A sniff over a transport that does not retry comes to its end with the
    first answer to its request, whatever the answer: a network error, a
    response read to its end whatever its status and body, or a response
    whose stream fails.  At the time [t] of the answer the in-progress flag
    is down and, with periodic sniffing on, the next sniff is due
    [sniffInterval] after [t]. *)
Theorem sniff_without_retries_completes callback c t w :
  _isSniffing (transport w) = false ->
  fst (selection w) = Some c ->
  t_maxRetries (transport w) <= 0 ->
  let id := length (pending w) in
  let w0 := sniff callback w in
  (forall err, settled (run [Tick t; ConnectionFails id err] w0)) /\
  (forall response chunks,
     settled (run (ConnectionResponds id response :: map (ResponseData id) chunks
                   ++ [Tick t; ResponseEnd id]) w0)) /\
  (forall response chunks err,
     settled (run (ConnectionResponds id response :: map (ResponseData id) chunks
                   ++ [Tick t; ResponseFails id err]) w0)).
Proof.
  intros Hidle Hc Hmax id w0. subst w0.
  rewrite (sniff_start_some callback w c Hidle Hc).
  set (e := sniff_entry c callback w). set (w0 := log _ _).
  assert (He : pending w0 !! id = Some e) by (subst w0; cbn; now apply list_lookup_middle).
  assert (Hun : called (length (cells w)) w0 = false).
  { unfold called. subst w0. cbn. rewrite lookup_app_r by lia. now rewrite Nat.sub_diag. }
  assert (Hstream : asStream (pn_params e) = false).
  { subst e. cbn [sniff_entry pn_params].
    now destruct (finish_params_line (transport w)
                    (set_headers (Some ∅) (sniff_request (transport w))))
      as (_ & _ & _ & -> & _). }
  assert (Hlisten : forall response chunks,
             listening callback (length (cells w)) id
               (run (Tick t :: nil)
                  (run (map (ResponseData id) chunks)
                     (step (ConnectionResponds id response) w0)))).
  { intros response chunks.
    assert (H1' : listening callback (length (cells w)) id
                    (step (ConnectionResponds id response) w0)).
    { cbn [step]. rewrite He. change (pn_phase e) with Awaiting. cbv iota.
      unfold on_response. rewrite Hstream. split; [exact Hun |].
      eexists _, "", response. split; [apply update_pending_lookup, He |].
      split; [reflexivity |]. split; [reflexivity |]. split; [reflexivity | exact Hmax]. }
    apply (listening_chunks callback _ id chunks) in H1'.
    destruct H1' as (Hun' & e' & payload & response' & He' & Hrest).
    split; [exact Hun' |]. now exists e', payload, response'. }
  split; [| split].
  - intros err. cbn [run fold_left step]. change (pending (set_now t w0)) with (pending w0).
    rewrite He. change (pn_phase e) with Awaiting. cbv iota.
    apply (on_error_settles callback (length (cells w))); [reflexivity | exact Hun | reflexivity | exact Hmax].
  - intros response chunks.
    rewrite run_cons, run_app.
    change [Tick t; ResponseEnd id] with ([Tick t] ++ [ResponseEnd id]). rewrite run_app.
    destruct (Hlisten response chunks) as (Hun' & e' & payload & response' & He' & Hph & Hh & Hcb & Ha).
    set (wt := run [Tick t] _) in *. cbn [run fold_left step]. rewrite He', Hph, Hh.
    now apply (on_end_settles callback (length (cells w))).
  - intros response chunks err.
    rewrite run_cons, run_app.
    change [Tick t; ResponseFails id err] with ([Tick t] ++ [ResponseFails id err]).
    rewrite run_app.
    destruct (Hlisten response chunks) as (Hun' & e' & payload & response' & He' & Hph & Hh & Hcb & Ha).
    set (wt := run [Tick t] _) in *. cbn [run fold_left step]. rewrite He', Hph.
    unfold on_stream_error. rewrite Hcb. now apply wrapper_settles.
Qed.

(** A sniff whose one request meets a network error, the transport
    retrying nothing: the connection is marked dead, and the error is emitted
    twice, once by [request] with the connection and the params, once by
    [sniff] without a connection, before the callback of [sniff] gets it; a
    sniff on connection fault does not start another sniff from there. *)
Theorem failed_sniff_emits_error_twice u c err w :
  _isSniffing (transport w) = false ->
  fst (selection w) = Some c ->
  t_maxRetries (transport w) <= 0 ->
  let id := length (pending w) in
  let p := pn_params (sniff_entry c (Caller u) w) in
  let error := if is_TimeoutError err then err else ConnectionError (message err) p in
  let w' := step (ConnectionFails id err) (sniff (Caller u) w) in
  trace w'
  = trace w ++ [Emit_request c p; Connection_request id c p; Pool_markDead c;
                Emit_error error c p; Emit_sniff_error error;
                Deliver u (Some error) NoValue] /\
  _isSniffing (transport w') = false /\
  length (pending w') = S (length (pending w)).
Proof.
  intros Hidle Hc Hmax id p error w'. subst w'.
  rewrite (sniff_start_some (Caller u) w c Hidle Hc).
  fold p. fold id.
  set (e := sniff_entry c (Caller u) w).
  set (w1 := log _ _).
  assert (He : pending w1 !! id = Some e) by (subst w1; cbn; now apply list_lookup_middle).
  cbn [step]. rewrite He. change (pn_phase e) with Awaiting. cbv iota.
  unfold on_error. cbn zeta.
  change (pn_attempts e) with (t_maxRetries (transport w)).
  rewrite (gtb_nonpos _ Hmax).
  change (pn_params e) with p. change (pn_connection e) with c. fold error.
  set (w2 := markDead c (update_pending id (set_phase Closed) w1)).
  assert (Hbusy : _isSniffing (transport w2) = true) by reflexivity.
  replace (if sniffOnConnectionFault (transport w2) then sniff Noop w2 else w2) with w2
    by (destruct (sniffOnConnectionFault (transport w2));
        [symmetry; now apply sniff_with_busy | reflexivity]).
  change (pn_callback e) with (Once (length (cells w)) (SniffDone (Caller u))).
  cbn [call].
  assert (Hun : called (length (cells w)) (log (Emit_error error c p) w2) = false).
  { unfold called. subst w2 w1. cbn. rewrite lookup_app_r by lia.
    now rewrite Nat.sub_diag. }
  rewrite Hun.
  match goal with |- context [sniff_done ?a ?b ?w0] =>
    destruct (sniff_done_error error b w0) as (w3 & -> & Ht & Hp & Hflag) end.
  cbn [call trace transport pending log]. rewrite Ht, Hp, Hflag.
  subst w2 w1. cbn. rewrite length_alter, length_app. cbn.
  split; [now rewrite <- !app_assoc | split; [reflexivity | lia]].
Qed.

(** The callback given to [sniff] is called at most once, whatever the
    connection and the response of the sniff's request do. *)
Theorem sniff_callback_at_most_once u w evs :
  fresh u w -> _isSniffing (transport w) = false ->
  (deliveries u (run evs (sniff (Caller u) w)) <= deliveries u w + 1)%nat.
Proof.
  intros Hf Hidle. rewrite sniff_unfold by exact Hidle.
  apply (amo_le u (length (cells w)) (deliveries u w)).
  apply inv_run. rewrite request_unfold. unfold request_with, once.
  apply inv_request_steps.
  - intros w' Hw'. now apply inv_sniff.
  - simpl. now left.
  - split; simpl.
    + rewrite length_app. simpl. lia.
    + eapply Forall_impl; [exact Hf |]. intros e. apply unmentioned_guarded.
    + unfold deliveries. simpl. lia.
    + reflexivity.
Qed.

(** On a transport that sniffs on a connection fault, a network error
    starts a sniff, once the failed connection is marked dead and before the
    request is submitted again or failed: one GET of the sniff endpoint on
    the connection the pool then selects, or, the pool selecting none, a
    sniff that ends at once. *)
Theorem connection_fault_starts_a_sniff id e err w :
  pending w !! id = Some e -> pn_phase e = Awaiting ->
  sniffOnConnectionFault (transport w) = true ->
  _isSniffing (transport w) = false ->
  let c := pn_connection e in
  let dead := markDead c (update_pending id (set_phase Closed) w) in
  let w2 := sniff Noop dead in
  let error := if is_TimeoutError err then err else ConnectionError (message err) (pn_params e) in
  trace dead = trace w ++ [Pool_markDead c] /\
  match fst (selection dead) with
  | Some c' => pending w2 = pending dead ++ [sniff_entry c' Noop dead]
  | None => pending w2 = pending dead /\ settled w2
  end /\
  step (ConnectionFails id err) w
  = (if pn_attempts e >? 0
     then fst (request (retry_of e) (pn_callback e) w2)
     else call (pn_callback e) (Some error) (OfResult (pn_result e))
            (log (Emit_error error c (pn_params e)) w2)).
Proof.
  intros He Hph Hfault Hidle c dead w2 error.
  split; [reflexivity |]. split.
  - subst w2. destruct (fst (selection dead)) as [c' |] eqn:Hc.
    + now rewrite (sniff_start_some Noop dead c' Hidle Hc).
    + destruct (sniff_start_none Noop dead Hidle Hc) as (w1 & -> & _ & Hp & _ & Hs).
      now split.
  - cbn [step]. rewrite He, Hph. unfold on_error. cbn zeta. fold c. fold dead.
    change (sniffOnConnectionFault (transport dead))
      with (sniffOnConnectionFault (transport w)).
    rewrite Hfault. reflexivity.
Qed.

(** ** The selection and the constructor *)

(** [getConnection] starts a sniff only when periodic sniffing is on, the
    time of the next sniff is past and no sniff is in progress; but for that
    it is the selection of the pool: dead connections resurrected as of now,
    then one selected, and nothing else of the transport touched. *)
Theorem getConnection_sniffs_only_when_due w :
  (sniff_due w = false \/ _isSniffing (transport w) = true ->
   getConnection sniff w = (fst (selection w), set_pool (snd (selection w)) w)) /\
  (sniff_due w = true -> _isSniffing (transport w) = false ->
   let w1 := sniff Noop w in
   getConnection sniff w = (fst (selection w1), set_pool (snd (selection w1)) w1) /\
   match fst (selection w) with
   | Some c => pending w1 = pending w ++ [sniff_entry c Noop w]
   | None => pending w1 = pending w /\ settled w1
   end).
Proof.
  split; [apply getConnection_quiet |].
  intros Hdue Hidle w1. split.
  - unfold getConnection, selection. fold (sniff_due w). rewrite Hdue. fold w1.
    cbn [pool set_pool].
    assert (Hnow : now w1 = now w) by apply (fr_now _ _ (sniff_frame Noop w)).
    rewrite Hnow.
    now destruct (pool_getConnection (pool_resurrect (now w) (pool w1))).
  - subst w1. destruct (fst (selection w)) as [c |] eqn:Hc.
    + now rewrite (sniff_start_some Noop w c Hidle Hc).
    + destruct (sniff_start_none Noop w Hidle Hc) as (w1 & -> & _ & Hp & _ & Hs).
      now split.
Qed.

(** [new Transport(opts)] makes no request unless [sniffOnStart] is set;
    with it, the constructor starts one sniff: a GET of the sniff endpoint
    on the connection the pool selects, or, the pool selecting none, an
    'error' event at once.  Periodic sniffing is on when [sniffInterval] is
    a number, its first sniff due that long after the construction. *)
Theorem constructor_sniffs_on_start_only opts connectionPool clock :
  let w := new_Transport opts connectionPool clock in
  let t := transport w in
  t_requestTimeout t = toMs (o_requestTimeout opts) /\
  _sniffEnabled t = match o_sniffInterval opts with Some _ => true | None => false end /\
  (o_sniffOnStart opts = false ->
   pending w = [] /\ trace w = [] /\ _isSniffing t = false /\ pool w = connectionPool /\
   _nextSniff t
   = Some (match o_sniffInterval opts with Some i => clock + i | None => 0 end)) /\
  (o_sniffOnStart opts = true ->
   match fst (pool_getConnection (pool_resurrect clock connectionPool)) with
   | Some c =>
       exists e,
         pending w = [e] /\ pn_connection e = c /\ method (pn_params e) = "GET" /\
         path (pn_params e) = o_sniffEndpoint opts /\ pn_attempts e = o_maxRetries opts /\
         _isSniffing t = true
   | None =>
       pending w = [] /\ _isSniffing t = false /\
       trace w = [Emit_sniff_error (NoLivingConnectionsError "There are not living connections")]
   end).
Proof.
  intros w t. subst t w. unfold new_Transport.
  match goal with |- context [if o_sniffOnStart opts then sniff Noop ?x else _] =>
    set (w0 := x) end.
  assert (Hidle : _isSniffing (transport w0) = false) by reflexivity.
  pose proof (fr_config _ _ (sniff_frame Noop w0)) as (_ & Hrt & _ & _ & _ & _ & Hen).
  split; [| split; [| split]].
  - destruct (o_sniffOnStart opts); [exact Hrt | reflexivity].
  - destruct (o_sniffOnStart opts); [rewrite Hen |]; cbn; now destruct (o_sniffInterval opts).
  - intros ->. cbn. repeat split. now destruct (o_sniffInterval opts).
  - intros ->.
    change (pool_getConnection (pool_resurrect clock connectionPool)) with (selection w0).
    destruct (fst (selection w0)) as [c |] eqn:Hc.
    + rewrite (sniff_start_some Noop w0 c Hidle Hc). eexists.
      split; [reflexivity |]. split; [reflexivity |].
      destruct (finish_params_line (transport w0)
                  (set_headers (Some ∅) (sniff_request (transport w0))))
        as (Hm & Hpath & _).
      split; [exact Hm |]. split; [exact Hpath |]. split; reflexivity.
    + destruct (sniff_start_none Noop w0 Hidle Hc) as (w1 & -> & Ht & Hp & _ & Hs & _).
      cbn [call]. split; [exact Hp |]. split; [exact Hs | exact Ht].
Qed.

End Facts.

End TransportFacts.

(** * Properties of the endpoint functions *)

Module ApiFacts.

Import Api.

(** ** The promise form *)

Section PromiseForm.

Variable result : JsVal.
Variable answer : Request -> JsVal * JsVal.

(** The promise branch calls the function once more, and that call takes the
    callback branch: no more fuel changes the outcome. *)
Lemma snapshotGetRepository_fuel n params callback :
  snapshotGetRepository_n result (S (S n)) params callback
  = snapshotGetRepository result params callback.
Proof.
  unfold snapshotGetRepository. cbn [snapshotGetRepository_n].
  unfold snapshotGetRepository_with at 1 3.
  destruct (shift_arguments params callback) as [p c].
  destruct (is_nullish c); reflexivity.
Qed.

Lemma xpackMigrationGetAssistance_fuel n params callback :
  xpackMigrationGetAssistance_n result (S (S n)) params callback
  = xpackMigrationGetAssistance result params callback.
Proof.
  unfold xpackMigrationGetAssistance. cbn [xpackMigrationGetAssistance_n].
  unfold xpackMigrationGetAssistance_with at 1 3.
  destruct (shift_arguments params callback) as [p c].
  destruct (is_nullish c); reflexivity.
Qed.

(** No call runs out of fuel, in its promise branch either. *)
Lemma snapshotGetRepository_total params callback :
  out_of_fuel (snapshotGetRepository result params callback) = false.
Proof.
  unfold snapshotGetRepository. cbn [snapshotGetRepository_n].
  unfold snapshotGetRepository_with, build_and_send.
  destruct (shift_arguments params callback) as [p c].
  destruct (is_nullish c); simpl;
    repeat match goal with
           | |- context [if ?b then _ else _] => destruct b
           | |- context [match build_path ?l with _ => _ end] => destruct (build_path l)
           end; reflexivity.
Qed.

Lemma xpackMigrationGetAssistance_total params callback :
  out_of_fuel (xpackMigrationGetAssistance result params callback) = false.
Proof.
  unfold xpackMigrationGetAssistance. cbn [xpackMigrationGetAssistance_n].
  unfold xpackMigrationGetAssistance_with, build_and_send.
  destruct (shift_arguments params callback) as [p c].
  destruct (is_nullish c); simpl;
    repeat match goal with
           | |- context [if ?b then _ else _] => destruct b
           | |- context [match build_path ?l with _ => _ end] => destruct (build_path l)
           end; reflexivity.
Qed.

(** Called with params and no callback, the function returns the promise of
    the callback form called with NO params: the inner call passes the
    settling closure alone, and [params] is dropped. *)
Lemma snapshotGetRepository_promise_drops_params params :
  not_nullish params = true ->
  settlement answer (snapshotGetRepository result (AVal params) (AVal VUndef))
  = spec_promise_form answer (snapshotGetRepository result) (VObj []).
Proof.
  intros Hp. unfold snapshotGetRepository, spec_promise_form.
  cbn [snapshotGetRepository_n]. unfold snapshotGetRepository_with at 1.
  unfold shift_arguments at 1. cbn [is_function is_nullish orb]. rewrite Hp.
  reflexivity.
Qed.

Lemma xpackMigrationGetAssistance_promise_drops_params params :
  not_nullish params = true ->
  settlement answer (xpackMigrationGetAssistance result (AVal params) (AVal VUndef))
  = spec_promise_form answer (xpackMigrationGetAssistance result) (VObj []).
Proof.
  intros Hp. unfold xpackMigrationGetAssistance, spec_promise_form.
  cbn [xpackMigrationGetAssistance_n]. unfold xpackMigrationGetAssistance_with at 1.
  unfold shift_arguments at 1. cbn [is_function is_nullish orb]. rewrite Hp.
  reflexivity.
Qed.

End PromiseForm.

(** C5, at failing inputs.  [snapshotGetRepository({repository: 'my_backup'})]
    returns a promise that resolves with the answer for [/_snapshot], where
    the callback form gets the answer for [/_snapshot/my_backup];
    [snapshotGetRepository({body: {}})] returns a promise that resolves,
    where the callback form gets a ConfigurationError; and
    [xpackMigrationGetAssistance({index: 'logs'})] resolves with the answer
    for [/_xpack/migration/assistance], not for
    [/_xpack/migration/assistance/logs]. *)
Theorem promise_form_loses_params result :
  let repo := VObj [("repository", VStr "my_backup")] in
  let with_body := VObj [("body", VObj [])] in
  let idx := VObj [("index", VStr "logs")] in
  (settlement echo_path (snapshotGetRepository result (AVal repo) (AVal VUndef))
   = Some (Resolved (VStr "/_snapshot")) /\
   spec_promise_form echo_path (snapshotGetRepository result) repo
   = Some (Resolved (VStr "/_snapshot/my_backup"))) /\
  (settlement echo_path (snapshotGetRepository result (AVal with_body) (AVal VUndef))
   = Some (Resolved (VStr "/_snapshot")) /\
   spec_promise_form echo_path (snapshotGetRepository result) with_body
   = Some (Rejected (ConfigurationError "This API does not require a body"))) /\
  (settlement echo_path (xpackMigrationGetAssistance result (AVal idx) (AVal VUndef))
   = Some (Resolved (VStr "/_xpack/migration/assistance")) /\
   spec_promise_form echo_path (xpackMigrationGetAssistance result) idx
   = Some (Resolved (VStr "/_xpack/migration/assistance/logs"))).
Proof. repeat split; vm_compute; reflexivity. Qed.

(** ** The two endpoints are one function over two tables *)

Lemma endpoints_cases result ep :
  ep ∈ endpoints result ->
  ep = snapshot_get_repository result \/ ep = xpack_migration_get_assistance result.
Proof.
  unfold endpoints. intros Hin.
  apply elem_of_cons in Hin as [-> | Hin]; [now left |].
  apply elem_of_cons in Hin as [-> | Hin]; [now right |].
  now apply elem_of_nil in Hin.
Qed.

(** A call with params and a function either reports a body it was given
    (only one of the two checks it) or goes through [build_and_send]. *)
Lemma endpoint_callback_form result ep params f :
  ep ∈ endpoints result -> not_nullish params = true ->
  (not_nullish (get_prop params "body") = true /\
   ep_call ep (AVal params) (AFn f)
   = Called (AFn f) (ConfigurationError "This API does not require a body") result)
  \/ ep_call ep (AVal params) (AFn f)
     = build_and_send result (ep_accepted ep) (ep_camelCased ep) (ep_parts ep) params (AFn f).
Proof.
  intros Hin Hp.
  apply endpoints_cases in Hin as [-> | ->];
    unfold snapshot_get_repository, xpack_migration_get_assistance; cbn [ep_call].
  - unfold snapshotGetRepository. cbn [snapshotGetRepository_n].
    unfold snapshotGetRepository_with, shift_arguments.
    cbn [is_function is_nullish orb]. rewrite Hp. cbn [negb value_of].
    destruct (not_nullish (get_prop params "body")); [left; now split | now right].
  - unfold xpackMigrationGetAssistance. cbn [xpackMigrationGetAssistance_n].
    unfold xpackMigrationGetAssistance_with, shift_arguments.
    cbn [is_function is_nullish orb]. rewrite Hp. cbn [negb value_of]. now right.
Qed.

(** What [build_and_send] forwards. *)
Lemma build_and_send_forwarded result accepted camelCased parts params callback request callback' :
  build_and_send result accepted camelCased parts params callback = Forwarded request callback' ->
  callback' = callback /\
  build_path (parts params) = Some (rq_path request) /\
  request
  = {| rq_method :=
         (if not_nullish (get_prop params "method") then get_prop params "method" else VStr "GET");
       rq_path := rq_path request;
       rq_querystring :=
         VObj (build_querystring accepted camelCased params (object_keys params) []);
       rq_body := VNull;
       rq_headers := or_null (get_prop params "headers");
       rq_ignore :=
         match or_null (get_prop params "ignore") with
         | VNum n => VArr [VNum n]
         | v => v
         end;
       rq_requestTimeout := or_null (get_prop params "requestTimeout") |}.
Proof.
  unfold build_and_send.
  destruct (not_nullish (get_prop params "headers") && _); [discriminate |].
  destruct (build_path (parts params)) as [path |]; [| discriminate].
  intros [= <- <-]. split; [reflexivity |]. split; [reflexivity |]. cbn [rq_path]. f_equal.
  now destruct (or_null (get_prop params "ignore")).
Qed.

(** ** Calls without params *)

Lemma nullish_params_promise result ep params second :
  ep ∈ endpoints result -> is_nullish params = true ->
  ep_call ep params second = Promised (Forwarded (bare_request (ep_base ep)) (AFn Settle)).
Proof.
  intros Hin Hn. apply endpoints_cases in Hin as [-> | ->];
    destruct params as [f | v]; try discriminate;
    destruct v; try discriminate; reflexivity.
Qed.

(** The request of a call with params and a function, when one is made. *)
Lemma forwarded_callback_form result ep params f request callback :
  ep ∈ endpoints result ->
  ep_call ep (AVal params) (AFn f) = Forwarded request callback ->
  build_and_send result (ep_accepted ep) (ep_camelCased ep) (ep_parts ep) params (AFn f)
  = Forwarded request callback.
Proof.
  intros Hin Hcall.
  assert (Hp : not_nullish params = true).
  { destruct (not_nullish params) eqn:E; [reflexivity |].
    rewrite (nullish_params_promise result ep (AVal params) (AFn f) Hin) in Hcall;
      [discriminate | simpl; now rewrite E]. }
  destruct (endpoint_callback_form result ep params f Hin Hp) as [[_ Hbody] | Hsend];
    congruence.
Qed.

(** Called with a function alone, an endpoint sends the request of an empty
    [params] and passes the function on; a second argument is not looked at.
    Called with [null] or [undefined] first, it takes the promise branch,
    whatever comes second: a callback given after a null [params] is
    dropped. *)
Theorem call_without_params result ep :
  ep ∈ endpoints result ->
  (forall f second,
     ep_call ep (AFn f) second = Forwarded (bare_request (ep_base ep)) (AFn f)) /\
  (forall params second,
     is_nullish params = true ->
     ep_call ep params second
     = Promised (Forwarded (bare_request (ep_base ep)) (AFn Settle))).
Proof.
  intros Hin. split.
  - apply endpoints_cases in Hin as [-> | ->]; reflexivity.
  - intros params second Hn. now apply (nullish_params_promise result).
Qed.

(** ** Params that are turned down *)

(** [params.headers] that is neither null nor an object (a string, a number,
    a boolean) is reported to the callback as a ConfigurationError that names
    its type, with [opts.result], and nothing is handed to [makeRequest]; so
    is, by [snapshotGetRepository] alone, a [params.body] that is not null. *)
Theorem invalid_params_are_not_sent result ep params f :
  ep ∈ endpoints result ->
  not_nullish params = true ->
  let h := get_prop params "headers" in
  (not_nullish h = true -> typeof h <> "object" ->
   forwarded (ep_call ep (AVal params) (AFn f)) = None /\
   exists msg, ep_call ep (AVal params) (AFn f) = Called (AFn f) (ConfigurationError msg) result /\
     (not_nullish (get_prop params "body") = false ->
      msg = "Headers should be an object, instead got: " +:+ typeof h)) /\
  (not_nullish (get_prop params "body") = true ->
   snapshotGetRepository result (AVal params) (AFn f)
   = Called (AFn f) (ConfigurationError "This API does not require a body") result).
Proof.
  intros Hin Hp h. split.
  - intros Hh Ht.
    assert (Hsend : build_and_send result (ep_accepted ep) (ep_camelCased ep) (ep_parts ep)
                      params (AFn f)
                    = Called (AFn f)
                        (ConfigurationError ("Headers should be an object, instead got: " +:+ typeof h))
                        result).
    { unfold build_and_send. fold h. rewrite Hh.
      replace (String.eqb (typeof h) "object") with false
        by (symmetry; now apply String.eqb_neq).
      reflexivity. }
    destruct (endpoint_callback_form result ep params f Hin Hp) as [[Hb Hc] | Hc]; rewrite Hc.
    + split; [reflexivity |]. eexists. split; [reflexivity |]. congruence.
    + rewrite Hsend. split; [reflexivity |]. eexists. split; [reflexivity | reflexivity].
  - intros Hb. unfold snapshotGetRepository. cbn [snapshotGetRepository_n].
    unfold snapshotGetRepository_with, shift_arguments.
    cbn [is_function is_nullish orb]. rewrite Hp. cbn [negb value_of]. now rewrite Hb.
Qed.

(** ** The querystring *)

Lemma index_from_elem key l : forall i, index_from i key l <> -1 -> key ∈ l.
Proof.
  induction l as [| x l IH]; intros i; simpl; [congruence |].
  destruct (String.eqb_spec x key) as [-> | Hne]; intros Hi; apply elem_of_cons;
    [now left | right; eauto].
Qed.

Lemma index_from_lookup key l : forall i,
  0 <= i -> index_from i key l <> -1 ->
  i <= index_from i key l /\ l !! Z.to_nat (index_from i key l - i) = Some key.
Proof.
  induction l as [| x l IH]; intros i Hi; simpl; [congruence |].
  destruct (String.eqb_spec x key) as [-> | Hne]; intros Hf.
  - rewrite Z.sub_diag. split; [lia | reflexivity].
  - destruct (IH (i + 1) ltac:(lia) Hf) as [Hle Hl]. split; [lia |].
    replace (Z.to_nat (index_from (i + 1) key l - i))
      with (S (Z.to_nat (index_from (i + 1) key l - (i + 1)))) by lia.
    exact Hl.
Qed.

Lemma index_from_first key l : forall i j,
  NoDup l -> l !! j = Some key -> index_from i key l = i + Z.of_nat j.
Proof.
  induction l as [| x l IH]; intros i j Hnd Hj; [discriminate |].
  apply NoDup_cons in Hnd as [Hx Hnd]. simpl.
  destruct j as [| j]; simpl in Hj.
  - injection Hj as ->. rewrite String.eqb_refl. lia.
  - destruct (String.eqb_spec x key) as [-> | Hne].
    + exfalso. apply Hx. now apply list_elem_of_lookup_2 in Hj.
    + rewrite (IH (i + 1) j Hnd Hj). lia.
Qed.

Lemma index_in_missing key l : key ∉ l -> index_in key l = -1.
Proof.
  intros Hk. destruct (Z.eq_dec (index_in key l) (-1)) as [He | Hne]; [exact He |].
  now apply index_from_elem in Hne.
Qed.

Lemma assoc_get_set k k' v fs :
  assoc_get k (assoc_set k' v fs) = if String.eqb k k' then v else assoc_get k fs.
Proof.
  induction fs as [| [k0 v0] fs IH]; simpl.
  - reflexivity.
  - destruct (String.eqb_spec k' k0) as [-> | Hne]; simpl.
    + destruct (String.eqb k k0); reflexivity.
    + rewrite IH. destruct (String.eqb_spec k k0) as [-> | Hne'].
      * replace (String.eqb k0 k') with false
          by (symmetry; apply String.eqb_neq; congruence).
        reflexivity.
      * reflexivity.
Qed.

Lemma assoc_set_keys k v fs k0 :
  k0 ∈ map fst (assoc_set k v fs) -> k0 = k \/ k0 ∈ map fst fs.
Proof.
  induction fs as [| [k1 v1] fs IH]; simpl.
  - intros Hin. apply elem_of_cons in Hin as [-> | Hin]; [now left | now right].
  - destruct (String.eqb_spec k k1) as [-> | Hne]; simpl; intros Hin.
    + right. exact Hin.
    + apply elem_of_cons in Hin as [-> | Hin].
      * right. apply elem_of_cons. now left.
      * destruct (IH Hin) as [-> | Hin']; [now left | right].
        apply elem_of_cons. now right.
Qed.

(** One turn of the loop over the keys, through [sent_as]. *)
Lemma build_querystring_cons accepted camelCased params key keys qs :
  build_querystring accepted camelCased params (key :: keys) qs
  = build_querystring accepted camelCased params keys
      match sent_as accepted camelCased key with
      | Some name => assoc_set name (get_prop params key) qs
      | None => qs
      end.
Proof.
  cbn [build_querystring]. unfold sent_as.
  destruct (negb (index_in key accepted =? -1)); [reflexivity |].
  destruct (negb (index_in key camelCased =? -1)); reflexivity.
Qed.

Lemma sent_as_accepted accepted camelCased key name :
  sent_as accepted camelCased key = Some name -> name ∈ accepted.
Proof.
  unfold sent_as.
  destruct (index_in key accepted =? -1) eqn:E; cbn [negb].
  - destruct (negb _); [| discriminate]. apply list_elem_of_lookup_2.
  - intros [= <-]. apply Z.eqb_neq in E. now apply index_from_elem in E.
Qed.

Lemma build_querystring_keys accepted camelCased params keys : forall qs name,
  name ∈ map fst (build_querystring accepted camelCased params keys qs) ->
  name ∈ accepted \/ name ∈ map fst qs.
Proof.
  induction keys as [| key keys IH]; intros qs name; [now right |].
  rewrite build_querystring_cons. intros Hin. apply IH in Hin as [Hin | Hin]; [now left |].
  destruct (sent_as accepted camelCased key) as [name' |] eqn:E; [| now right].
  apply assoc_set_keys in Hin as [-> | Hin]; [left | now right].
  now apply sent_as_accepted in E.
Qed.

Lemma forwarded_build_and_send result accepted camelCased parts params callback request :
  forwarded (build_and_send result accepted camelCased parts params callback) = Some request ->
  build_and_send result accepted camelCased parts params callback = Forwarded request callback.
Proof.
  unfold build_and_send.
  destruct (not_nullish (get_prop params "headers") && _); [discriminate |].
  destruct (build_path (parts params)); [| discriminate].
  now intros [= <-].
Qed.

(** Whatever an endpoint hands to [makeRequest], in its promise branch too,
    came out of [build_and_send]. *)
Lemma endpoint_forwarded result ep params callback request :
  ep ∈ endpoints result ->
  forwarded (ep_call ep params callback) = Some request ->
  exists params' callback',
    build_and_send result (ep_accepted ep) (ep_camelCased ep) (ep_parts ep) params' callback'
    = Forwarded request callback'.
Proof.
  intros Hin. apply endpoints_cases in Hin as [-> | ->];
    unfold snapshot_get_repository, xpack_migration_get_assistance;
    cbn [ep_call ep_accepted ep_camelCased].
  - unfold snapshotGetRepository. cbn [snapshotGetRepository_n].
    unfold snapshotGetRepository_with at 1.
    destruct (shift_arguments params callback) as [p c].
    destruct (is_nullish c).
    + intros [= <-]. now exists (VObj []), (AFn Settle).
    + destruct (not_nullish (get_prop (value_of p) "body")); [discriminate |].
      intros Hf. exists (value_of p), c. now apply forwarded_build_and_send in Hf.
  - unfold xpackMigrationGetAssistance. cbn [xpackMigrationGetAssistance_n].
    unfold xpackMigrationGetAssistance_with at 1.
    destruct (shift_arguments params callback) as [p c].
    destruct (is_nullish c).
    + intros [= <-]. now exists (VObj []), (AFn Settle).
    + intros Hf. exists (value_of p), c. now apply forwarded_build_and_send in Hf.
Qed.

(** Whatever [params] holds, the querystring an endpoint hands to
    [makeRequest] has accepted snake_case names as its keys and no other:
    keys that are not accepted are dropped, camelCase ones do not go through
    as they are. *)
Theorem querystring_holds_accepted_names_only result ep params callback request :
  ep ∈ endpoints result ->
  forwarded (ep_call ep params callback) = Some request ->
  exists qs,
    rq_querystring request = VObj qs /\
    Forall (fun name => name ∈ ep_accepted ep) (map fst qs).
Proof.
  intros Hin Hf.
  destruct (endpoint_forwarded result ep params callback request Hin Hf) as (p & c & Hsend).
  apply build_and_send_forwarded in Hsend as (_ & _ & ->). cbn [rq_querystring].
  eexists. split; [reflexivity |].
  apply Forall_forall. intros name Hname.
  apply build_querystring_keys in Hname as [Hname | Hname]; [exact Hname |].
  now apply elem_of_nil in Hname.
Qed.

(** *** camelCase names *)

(** A closed decidable statement, by evaluation. *)
Ltac by_decision :=
  match goal with
  | |- ?G -> False => change (~ G)
  | _ => idtac
  end;
  apply (bool_decide_unpack _); vm_compute; exact I.

(** What the querystring holds under [name]: the value of the last key that
    goes under it. *)
Lemma lookup_build_querystring accepted camelCased params name keys : forall qs,
  assoc_get name (build_querystring accepted camelCased params keys qs)
  = fold_left
      (fun cur key =>
         if decide (sent_as accepted camelCased key = Some name)
         then get_prop params key else cur)
      keys (assoc_get name qs).
Proof.
  induction keys as [| key keys IH]; intros qs; [reflexivity |].
  rewrite build_querystring_cons, IH. cbn [fold_left]. f_equal.
  destruct (sent_as accepted camelCased key) as [name' |].
  - rewrite assoc_get_set. destruct (String.eqb_spec name name') as [-> | Hne].
    + now rewrite decide_True.
    + rewrite decide_False; [reflexivity | congruence].
  - now rewrite decide_False.
Qed.

Lemma fold_last_sent (sent : string -> Prop) `{forall key, Decision (sent key)}
  (get : string -> JsVal) v keys : forall init,
  (forall key, key ∈ keys -> sent key -> get key = v) ->
  init = v \/ (exists key, key ∈ keys /\ sent key) ->
  fold_left (fun cur key => if decide (sent key) then get key else cur) keys init = v.
Proof.
  induction keys as [| k keys IH]; intros init Hall Hsome.
  - destruct Hsome as [-> | (key & Hin & _)]; [reflexivity | now apply elem_of_nil in Hin].
  - cbn [fold_left]. apply IH.
    + intros key Hin. apply Hall, elem_of_cons. now right.
    + destruct (decide (sent k)) as [Hk | Hk].
      * left. apply Hall; [apply elem_of_cons; now left | exact Hk].
      * destruct Hsome as [-> | (key & Hin & Hs)]; [now left | right].
        apply elem_of_cons in Hin as [-> | Hin]; [contradiction | eauto].
Qed.

(** The tables of the two endpoints: no name twice, and a camelCased name
    that is also accepted stands at the index of that name. *)
Lemma endpoints_tables result ep :
  ep ∈ endpoints result ->
  NoDup (ep_accepted ep) /\ NoDup (ep_camelCased ep) /\
  forall j name, ep_camelCased ep !! j = Some name -> name ∈ ep_accepted ep ->
                 ep_accepted ep !! j = Some name.
Proof.
  intros Hin. apply endpoints_cases in Hin as [-> | ->];
    cbn [snapshot_get_repository xpack_migration_get_assistance ep_accepted ep_camelCased].
  - split; [by_decision | split; [by_decision |]].
    intros j name Hj Hname.
    do 7 (destruct j as [| j];
          [injection Hj as <-; first [reflexivity | exfalso; revert Hname; by_decision] |]).
    discriminate.
  - split; [by_decision | split; [by_decision |]].
    intros j name Hj Hname.
    do 3 (destruct j as [| j];
          [injection Hj as <-; first [reflexivity | exfalso; revert Hname; by_decision] |]).
    discriminate.
Qed.

Section Renaming.

Variables accepted camelCased : list string.
Hypothesis accepted_NoDup : NoDup accepted.
Hypothesis camelCased_NoDup : NoDup camelCased.
Hypothesis tables_agree : forall j name,
  camelCased !! j = Some name -> name ∈ accepted -> accepted !! j = Some name.

Variables (i : nat) (snake camel : string).
Hypothesis snake_at : accepted !! i = Some snake.
Hypothesis camel_at : camelCased !! i = Some camel.

Lemma camel_sent_as_snake : sent_as accepted camelCased camel = Some snake.
Proof.
  unfold sent_as. destruct (index_in camel accepted =? -1) eqn:E; cbn [negb].
  - unfold index_in. rewrite (index_from_first camel camelCased 0 i camelCased_NoDup camel_at).
    replace (0 + Z.of_nat i =? -1) with false by (symmetry; apply Z.eqb_neq; lia).
    cbn [negb]. replace (Z.to_nat (0 + Z.of_nat i)) with i by lia. exact snake_at.
  - apply Z.eqb_neq, index_from_elem in E.
    pose proof (tables_agree i camel camel_at E) as Ha. congruence.
Qed.

Lemma sent_as_snake key :
  sent_as accepted camelCased key = Some snake -> key = snake \/ key = camel.
Proof.
  unfold sent_as. destruct (index_in key accepted =? -1) eqn:E; cbn [negb].
  - destruct (index_in key camelCased =? -1) eqn:E'; cbn [negb]; [discriminate |].
    intros Hs. right. apply Z.eqb_neq in E'.
    destruct (index_from_lookup key camelCased 0 ltac:(lia) E') as [_ Hl].
    fold (index_in key camelCased) in Hl. rewrite Z.sub_0_r in Hl.
    assert (Hi : Z.to_nat (index_in key camelCased) = i).
    { eapply NoDup_lookup; [exact accepted_NoDup | exact Hs | exact snake_at]. }
    rewrite Hi in Hl. congruence.
  - intros [= ->]. now left.
Qed.

End Renaming.

(** A parameter given under its camelCase name goes into the querystring
    under the snake_case name of the same index, with its value, unless the
    snake_case name is a key of [params] as well. *)
Theorem camelCase_names_are_renamed result ep params f request callback i snake camel :
  ep ∈ endpoints result ->
  ep_accepted ep !! i = Some snake ->
  ep_camelCased ep !! i = Some camel ->
  camel ∈ object_keys params ->
  snake = camel \/ snake ∉ object_keys params ->
  ep_call ep (AVal params) (AFn f) = Forwarded request callback ->
  get_prop (rq_querystring request) snake = get_prop params camel.
Proof.
  intros Hin Hs Hc Hkey Honly Hcall.
  destruct (endpoints_tables result ep Hin) as (Hna & Hnc & Hag).
  apply (forwarded_callback_form result) in Hcall; [| exact Hin].
  apply build_and_send_forwarded in Hcall as (_ & _ & ->).
  cbn [rq_querystring get_prop]. rewrite lookup_build_querystring.
  apply fold_last_sent.
  - intros key Hk Hsent.
    destruct (sent_as_snake _ _ Hna i snake camel Hs Hc key Hsent) as [-> | ->];
      [| reflexivity].
    destruct Honly as [-> | Hno]; [reflexivity | contradiction].
  - right. exists camel. split; [exact Hkey |].
    now apply (camel_sent_as_snake _ _ Hnc Hag i).
Qed.

(** ** The path *)

(** A statement about the sixteen nibbles, by going through them. *)
Ltac each_nibble n Hn :=
  let k := fresh "k" in
  let Hk := fresh "Hk" in
  assert (Hk : exists k, (k < 16)%nat /\ n = N.of_nat k) by (exists (N.to_nat n); lia);
  destruct Hk as (k & Hk & ->); clear Hn;
  do 16 (destruct k as [| k]; [reflexivity |]); lia.

Lemma hex_digit_unreserved n : (n < 16)%N -> unreserved (hex_digit n) = true.
Proof. intros Hn. each_nibble n Hn. Qed.

Lemma hex_digit_inj a b : (a < 16)%N -> (b < 16)%N -> hex_digit a = hex_digit b -> a = b.
Proof.
  intros Ha Hb Heq.
  set (value c := let n := N_of_ascii c in if (n <? 58)%N then (n - 48)%N else (n - 55)%N).
  assert (Hv : forall n, (n < 16)%N -> value (hex_digit n) = n).
  { intros n Hn. each_nibble n Hn. }
  rewrite <- (Hv a Ha), <- (Hv b Hb). now rewrite Heq.
Qed.

Lemma byte_nibbles c : (N_of_ascii c / 16 < 16)%N /\ (N_of_ascii c mod 16 < 16)%N.
Proof.
  pose proof (N_ascii_bounded c) as Hc. split.
  - apply N.Div0.div_lt_upper_bound. exact Hc.
  - apply N.mod_lt. discriminate.
Qed.

(** What comes out of [encodeURIComponent] is unreserved characters and
    percent signs. *)
Lemma encodeURIComponent_chars s c :
  c ∈ list_ascii_of_string (encodeURIComponent s) -> unreserved c = true \/ c = "%"%char.
Proof.
  induction s as [| d s IH]; cbn [encodeURIComponent list_ascii_of_string].
  - intros Hin. now apply elem_of_nil in Hin.
  - destruct (unreserved d) eqn:E; cbn [list_ascii_of_string]; intros Hin.
    + apply elem_of_cons in Hin as [-> | Hin]; auto.
    + apply elem_of_cons in Hin as [-> | Hin]; [now right |].
      apply elem_of_cons in Hin as [-> | Hin];
        [left; apply hex_digit_unreserved, byte_nibbles |].
      apply elem_of_cons in Hin as [-> | Hin];
        [left; apply hex_digit_unreserved, byte_nibbles |].
      auto.
Qed.

Lemma encodeURIComponent_inj s : forall t,
  encodeURIComponent s = encodeURIComponent t -> s = t.
Proof.
  induction s as [| c s IH]; intros [| d t]; cbn [encodeURIComponent].
  - reflexivity.
  - destruct (unreserved d); discriminate.
  - destruct (unreserved c); discriminate.
  - destruct (unreserved c) eqn:Ec, (unreserved d) eqn:Ed.
    + intros [= -> Ht]. f_equal. now apply IH.
    + intros [= -> _]. discriminate.
    + intros [= <- _]. discriminate.
    + intros [= Hh Hl Ht]. f_equal; [| now apply IH].
      destruct (byte_nibbles c) as [Hc1 Hc2], (byte_nibbles d) as [Hd1 Hd2].
      apply hex_digit_inj in Hh, Hl; try assumption.
      rewrite <- (ascii_N_embedding c), <- (ascii_N_embedding d). f_equal.
      rewrite (N.div_mod (N_of_ascii c) 16), (N.div_mod (N_of_ascii d) 16) by lia.
      now rewrite Hh, Hl.
Qed.

Lemma append_inj_l p : forall a b, p +:+ a = p +:+ b -> a = b.
Proof. induction p as [| c p IH]; intros a b; simpl; [auto | intros [= Heq]; auto]. Qed.

(** The path of an endpoint: its fixed parts, and its last part when that is
    truthy and has a string. *)
Lemma build_path_endpoint result ep params :
  ep ∈ endpoints result ->
  let part := get_prop params (ep_part ep) in
  build_path (ep_parts ep params)
  = (if truthy part
     then (fun s => ep_base ep +:+ "/" +:+ encodeURIComponent s) <$> to_string part
     else Some (ep_base ep)).
Proof.
  intros Hin part. unfold build_path, ep_parts, ep_base. fold part.
  apply endpoints_cases in Hin as [-> | ->];
    cbn [snapshot_get_repository xpack_migration_get_assistance ep_fixed map app];
    rewrite !filter_cons, filter_nil;
    rewrite !decide_True by reflexivity;
    destruct (truthy part) eqn:E;
    [rewrite decide_True by reflexivity | rewrite decide_False by discriminate
    |rewrite decide_True by reflexivity | rewrite decide_False by discriminate];
    cbn; destruct (to_string part); reflexivity.
Qed.

(** The path of a call with params and a function. *)
Lemma path_of_callback_form result ep params f request callback :
  ep ∈ endpoints result ->
  ep_call ep (AVal params) (AFn f) = Forwarded request callback ->
  let part := get_prop params (ep_part ep) in
  if truthy part
  then exists s, to_string part = Some s /\
                 rq_path request = ep_base ep +:+ "/" +:+ encodeURIComponent s
  else rq_path request = ep_base ep.
Proof.
  intros Hin Hcall part.
  apply (forwarded_callback_form result) in Hcall; [| exact Hin].
  apply build_and_send_forwarded in Hcall as (_ & Hpath & _).
  rewrite (build_path_endpoint result ep params Hin) in Hpath. fold part in Hpath.
  destruct (truthy part).
  - destruct (to_string part) as [s |]; [| discriminate].
    exists s. split; [reflexivity |]. now injection Hpath as <-.
  - now injection Hpath as <-.
Qed.

(** The last part of the path (the repository, the index) is the one
    parameter that goes into the path: left out when falsy, else appended
    percent-encoded as a single segment, so that no slash it holds reaches
    the path.  This is said of the parts [to_string] has a string for. *)
Theorem last_part_is_one_path_segment result ep params f request callback :
  ep ∈ endpoints result ->
  ep_call ep (AVal params) (AFn f) = Forwarded request callback ->
  let part := get_prop params (ep_part ep) in
  if truthy part
  then exists s, to_string part = Some s /\
                 rq_path request = ep_base ep +:+ "/" +:+ encodeURIComponent s /\
                 "/"%char ∉ list_ascii_of_string (encodeURIComponent s)
  else rq_path request = ep_base ep.
Proof.
  intros Hin Hcall part.
  pose proof (path_of_callback_form result ep params f request callback Hin Hcall) as Hpath.
  cbv zeta in Hpath. fold part in Hpath. destruct (truthy part); [| exact Hpath].
  destruct Hpath as (s & Hs & Hpath). exists s. split; [exact Hs |]. split; [exact Hpath |].
  intros Hslash. apply encodeURIComponent_chars in Hslash as [Hr | Hp]; discriminate.
Qed.

(** Two calls of an endpoint whose last parts are given and read differently
    as strings never get the same path. *)
Theorem different_names_different_paths result ep p1 p2 f1 f2 r1 r2 c1 c2 :
  ep ∈ endpoints result ->
  ep_call ep (AVal p1) (AFn f1) = Forwarded r1 c1 ->
  ep_call ep (AVal p2) (AFn f2) = Forwarded r2 c2 ->
  truthy (get_prop p1 (ep_part ep)) = true ->
  truthy (get_prop p2 (ep_part ep)) = true ->
  rq_path r1 = rq_path r2 ->
  to_string (get_prop p1 (ep_part ep)) = to_string (get_prop p2 (ep_part ep)).
Proof.
  intros Hin H1' H2 Ht1 Ht2.
  pose proof (path_of_callback_form result ep p1 f1 r1 c1 Hin H1') as Hp1.
  pose proof (path_of_callback_form result ep p2 f2 r2 c2 Hin H2) as Hp2.
  cbv zeta in Hp1, Hp2. rewrite Ht1 in Hp1. rewrite Ht2 in Hp2.
  destruct Hp1 as (s1 & -> & ->). destruct Hp2 as (s2 & -> & ->). intros Heq.
  apply append_inj_l, append_inj_l in Heq. f_equal. now apply encodeURIComponent_inj.
Qed.

(** ** The ignore list *)

(** A number given as [params.ignore] is handed on as the one-element list
    that holds it, which is the form the status test of the transport reads;
    the number 0 is handed on as [null]. *)
Theorem numeric_ignore_becomes_a_list result ep params f request callback n :
  ep ∈ endpoints result ->
  ep_call ep (AVal params) (AFn f) = Forwarded request callback ->
  get_prop params "ignore" = VNum n ->
  rq_ignore request = (if n =? 0 then VNull else VArr [VNum n]) /\
  Transport.ignored (rq_ignore request) n = negb (n =? 0).
Proof.
  intros Hin Hcall Hn.
  apply (forwarded_callback_form result) in Hcall; [| exact Hin].
  apply build_and_send_forwarded in Hcall as (_ & _ & ->). cbn [rq_ignore].
  rewrite Hn. unfold or_null, js_or. cbn [truthy].
  destruct (n =? 0) eqn:E; cbn [negb]; [now split |].
  split; [reflexivity |]. cbn. now rewrite Z.eqb_refl.
Qed.

End ApiFacts.

(** * Runs *)

Module Runs.

Import Transport TransportFacts Scenarios.

(** ** The retry budget *)

(** With no retry allowed, one failure ends the request: one attempt, and a
    [ConnectionError] with the message of the error. *)
Example no_retry_one_attempt :
  let w := run [ConnectionFails 0 refused] (fst (request (bare "GET" "/") (Caller 7) (cluster 0))) in
  connections_tried (trace w) = [0%nat] /\
  exists p, delivered_to 7 (trace w)
            = [(Some (ConnectionError "connect ECONNREFUSED" p), OfResult empty_result)].
Proof. split; [reflexivity | eexists; reflexivity]. Qed.

(** Three nodes, all down, and one retry allowed: the request is tried on
    all three, one attempt more than the budget allows, the counter sent
    being zero twice; it ends only when the pool has no node left. *)
Example three_nodes_down_three_attempts :
  let w1 := fst (request (bare "GET" "/") (Caller 7) (cluster 1)) in
  let w2 := run [ConnectionFails 0 refused; ConnectionFails 1 refused] w1 in
  let w3 := run [ConnectionFails 2 refused] w2 in
  connections_tried (trace w2) = [0; 1; 2]%nat /\
  counters_sent (trace w2) = [None; Some 0; Some 0] /\
  delivered_to 7 (trace w2) = [] /\
  delivered_to 7 (trace w3)
  = [(Some (NoLivingConnectionsError "There are not living connections"),
      OfResult empty_result)].
Proof. repeat split; reflexivity. Qed.

Lemma single_node_always_yields : always_yields (P := unit).
Proof. intros p. now exists 0%nat, p. Qed.

Lemma retries_outlast_the_budget_witness :
  attempts_of 7
    (fail_all 7 [refused; refused; refused] (fst (request (bare "GET" "/") (Caller 7) (single 1))))
  = 4%nat.
Proof.
  apply (retries_outlast_the_budget 7 (bare "GET" "/") (single 1) [refused; refused; refused]).
  - exact single_node_always_yields.
  - constructor.
  - reflexivity.
  - simpl. discriminate.
  - vm_compute. discriminate.
Defined.

Lemma failing_chain_never_calls_back_witness :
  deliveries 7
    (fail_all 7 [refused; refused; refused] (fst (request (bare "GET" "/") (Caller 7) (single 1))))
  = 0%nat.
Proof.
  apply (failing_chain_never_calls_back 7 (bare "GET" "/") (single 1)
           [refused; refused; refused]).
  - exact single_node_always_yields.
  - constructor.
  - reflexivity.
  - simpl. discriminate.
  - vm_compute. discriminate.
Defined.

(** ** 502, 503 and 504 *)

(** A 503 with no attempts left: the node is marked dead, the 'response'
    event is emitted, and the caller gets a [ResponseError] holding the
    status. *)
Example service_unavailable_falls_through :
  let w := run [ConnectionResponds 0 (plain_head 503); ResponseEnd 0]
             (fst (request (bare "GET" "/") (Caller 7) (cluster 0))) in
  exists p r,
    r_statusCode r = Some 503 /\ r_body r = VStr "" /\
    drop 2 (trace w)
    = [Pool_markDead 0; Emit_response 0 p r; Deliver 7 (Some (ResponseError r)) (OfResult r)].
Proof. eexists _, _. split; [| split]. 3: reflexivity. all: reflexivity. Qed.

(** A 503 with an attempt left: the node is marked dead and the request goes
    to the next node. *)
Example service_unavailable_retries :
  let w := run [ConnectionResponds 0 (plain_head 503); ResponseEnd 0]
             (fst (request (bare "GET" "/") (Caller 7) (cluster 1))) in
  connections_tried (trace w) = [0; 1]%nat /\
  filter (fun a => is_markDead a = true) (trace w) = [Pool_markDead 0] /\
  delivered_to 7 (trace w) = [].
Proof. repeat split; reflexivity. Qed.


(** In stream mode a 502 is handed over as it comes: no error, and the
    connection is not marked dead either. *)
Example bad_gateway_as_stream :
  let params :=
    {| method := "GET"; path := "/"; querystring := VUndef; body := VUndef;
       bulkBody := VUndef; headers := None; ignore := VUndef; requestTimeout := VUndef;
       timeout := VUndef; maxRetries := None; asStream := true; remainingAttempts := None |} in
  let w := run [ConnectionResponds 0 (plain_head 502)]
             (fst (request params (Caller 7) (cluster 1))) in
  filter (fun a => is_markDead a = true) (trace w) = [] /\
  exists r, r_statusCode r = Some 502 /\ r_body r = VStream 0 /\
            delivered_to 7 (trace w) = [(None, OfResult r)].
Proof.
  split; [reflexivity |].
  eexists. split; [| split]. 3: reflexivity. all: reflexivity.
Qed.


(** ** One delivery at most *)

(** A response stream that reports an error and then ends: the caller hears
    of the error, and the end changes nothing for it. *)
Example stream_error_then_end_delivers_once :
  let w := run [ConnectionResponds 0 (plain_head 200); ResponseFails 0 refused; ResponseEnd 0]
             (fst (request (bare "GET" "/") (Caller 7) (cluster 1))) in
  exists p r, delivered_to 7 (trace w)
              = [(Some (ConnectionError "connect ECONNREFUSED" p), OfResult r)].
Proof. eexists _, _. reflexivity. Qed.

(** ** Both bodies *)

(** C4 as stated fails: a request holding a document body and a bulk body is
    not rejected; it goes to the connection, with the document body, and the
    caller's function is not called. *)
Lemma both_bodies_are_sent :
  let w := fst (request both_bodies (Caller 7) (cluster 1)) in
  delivered_to 7 (trace w) = [] /\
  connections_tried (trace w) = [0%nat] /\
  omap (fun a => match a with
                 | Connection_request _ _ p => Some (body p, default ∅ (headers p) !! "Content-Type")
                 | _ => None
                 end) (trace w)
  = [(VStr "{}", Some "application/json"%string)].
Proof. repeat split; reflexivity. Qed.

Lemma body_wins_over_bulkBody_witness :
  exists p' w3,
    request both_bodies (Caller 7) (cluster 1) = (w3, Handle 0) /\
    default ∅ (headers p') !! "Content-Type" = Some "application/json"%string /\
    bulkBody p' = VStr "{}" /\ body p' = VStr "{}".
Proof.
  destruct (body_wins_over_bulkBody both_bodies (Caller 7) (cluster 1) 0%nat
              (snd (getConnection sniff (snd (once (Caller 7) (cluster 1))))))
    as (p' & w3 & Hreq & _ & _ & Hct & Hbulk & Hbody).
  - reflexivity.
  - reflexivity.
  - simpl. discriminate.
  - reflexivity.
  - exists p', w3. repeat split; assumption.
Defined.

(** ** HEAD *)

Example head_200_is_true :
  let w := run [ConnectionResponds 0 (json_head 200); ResponseData 0 "{}"; ResponseEnd 0]
             (fst (request (bare "HEAD" "/index") (Caller 7) (cluster 1))) in
  exists r, r_body r = VBool true /\ r_statusCode r = Some 200 /\
            delivered_to 7 (trace w) = [(None, OfResult r)].
Proof. eexists. split; [| split]. 3: reflexivity. all: reflexivity. Qed.

Example head_404_is_false :
  let w := run [ConnectionResponds 0 (json_head 404); ResponseEnd 0]
             (fst (request (bare "HEAD" "/index") (Caller 7) (cluster 1))) in
  exists r, r_body r = VBool false /\ r_statusCode r = Some 404 /\
            delivered_to 7 (trace w) = [(None, OfResult r)].
Proof. eexists. split; [| split]. 3: reflexivity. all: reflexivity. Qed.

Lemma head_request_yields_boolean_witness :
  exists w',
    on_end 0 (reading "HEAD" 1) (json_head 404) "{}" (cluster 1)
    = call (Once 0 (Caller 7)) None (OfResult (with_body (VBool false) empty_result)) w' /\
    cells w' = cells (cluster 1).
Proof.
  destruct (head_request_yields_boolean 0 (reading "HEAD" 1) (json_head 404) "{}" (cluster 1))
    as (_ & _ & H404).
  - reflexivity.
  - destruct (H404 eq_refl) as (w' & Hend & _ & Hcells). now exists w'.
Defined.

(** ** No living connection *)

Example nothing_alive_no_attempt :
  let w := fst (request (bare "GET" "/") (Caller 7) no_nodes) in
  delivered_to 7 (trace w)
  = [(Some (NoLivingConnectionsError "There are not living connections"),
      OfResult empty_result)] /\
  pending w = [].
Proof. split; reflexivity. Qed.

Lemma no_living_connections_witness :
  let params :=
    {| method := "PUT"; path := "/doc"; querystring := VUndef; body := VNum 1;
       bulkBody := VUndef; headers := None; ignore := VUndef; requestTimeout := VUndef;
       timeout := VUndef; maxRetries := Some 5; asStream := false; remainingAttempts := None |} in
  trace (fst (request params (Caller 7) no_nodes))
  = [Deliver 7 (Some (NoLivingConnectionsError "There are not living connections"))
       (OfResult empty_result)] /\
  pending (fst (request params (Caller 7) no_nodes)) = [].
Proof.
  intros params.
  destruct (no_living_connections params (Caller 7) no_nodes
              (snd (getConnection sniff (snd (once (Caller 7) no_nodes)))))
    as [Hreq Hpend].
  - reflexivity.
  - split; [now rewrite Hreq | exact Hpend].
Defined.

(** ** Sniffing *)

(** A sniff that fails: the flag is cleared and the next sniff is set 300 ms
    after the failure. *)
Example failed_sniff_reschedules :
  let w := run [Tick 1000; ConnectionFails 0 refused] (sniff Noop periodic) in
  _isSniffing (transport (sniff Noop periodic)) = true /\
  _isSniffing (transport w) = false /\
  _nextSniff (transport w) = Some 1300.
Proof. repeat split; reflexivity. Qed.

Example successful_sniff_reschedules :
  let w := run [ConnectionResponds 0 (json_head 200); ResponseData 0 "{}";
                Tick 2000; ResponseEnd 0] (sniff Noop periodic) in
  _isSniffing (transport w) = false /\
  _nextSniff (transport w) = Some 2300.
Proof. repeat split; reflexivity. Qed.

(** C9, at a failing input: three retries allowed, a sniff every 300 ms, and
    a node that refuses every connection.  The sniff that is due at 301 is
    still in progress five refusals later, its fifth retry in flight; the
    next sniff is still due at 300, and a sniff asked for at 5000 does
    nothing. *)
Example discovery_stays_in_progress :
  let w := run [Tick 301] discovering in
  let w' := run [Tick 5000] (fail_each [refused; refused; refused; refused; refused] (sniff Noop w)) in
  _isSniffing (transport w') = true /\
  _nextSniff (transport w') = Some 300 /\
  connections_tried (trace w') = [0; 0; 0; 0; 0; 0]%nat /\
  counters_sent (trace w') = [None; Some 2; Some 1; Some 0; Some 2; Some 1] /\
  filter (fun a => completion a = true) (trace w') = [] /\
  sniff Noop w' = w'.
Proof. vm_compute. repeat split; reflexivity. Qed.

Lemma failing_sniff_stays_in_progress_witness :
  let w := run [Tick 301] discovering in
  let w' := fail_each [refused; refused; refused; refused; refused] (sniff (Caller 9) w) in
  transport w' = set_isSniffing true (transport w) /\
  _nextSniff (transport w') = Some 300 /\
  sniff Noop w' = w'.
Proof.
  intros w w'.
  destruct (failing_sniff_stays_in_progress (Caller 9)
              [refused; refused; refused; refused; refused] w single_node_always_yields)
    as (Ht & _ & _ & Hlater).
  - simpl. lia.
  - reflexivity.
  - subst w'. split; [exact Ht |]. split; [rewrite Ht; reflexivity | apply Hlater].
Defined.

Lemma sniff_without_retries_completes_witness :
  let failed := run [Tick 1000; ConnectionFails 0 refused] (sniff Noop periodic) in
  let answered :=
    run [ConnectionResponds 0 (json_head 503); ResponseData 0 "{}"; Tick 2000; ResponseEnd 0]
      (sniff Noop periodic) in
  (settled failed /\ _nextSniff (transport failed) = Some 1300) /\
  (settled answered /\ _nextSniff (transport answered) = Some 2300).
Proof.
  intros failed answered.
  assert (Hidle : _isSniffing (transport periodic) = false) by reflexivity.
  assert (Hc : fst (selection periodic) = Some 0%nat) by reflexivity.
  assert (Hmax : t_maxRetries (transport periodic) <= 0) by (simpl; lia).
  split.
  - destruct (sniff_without_retries_completes Noop 0%nat 1000 periodic Hidle Hc Hmax)
      as (Hfail & _ & _).
    split; [apply Hfail | reflexivity].
  - destruct (sniff_without_retries_completes Noop 0%nat 2000 periodic Hidle Hc Hmax)
      as (_ & Hend & _).
    split; [apply (Hend (json_head 503) ["{}"%string]) | reflexivity].
Defined.

Lemma sniff_in_progress_changes_nothing_witness :
  _isSniffing (transport (sniff Noop periodic)) = true /\
  sniff (Caller 9) (sniff Noop periodic) = sniff Noop periodic.
Proof.
  split; [reflexivity |].
  apply sniff_in_progress_changes_nothing. reflexivity.
Defined.

(** ** The [Warning] header *)

Lemma without_quotes_every_comma_splits_witness :
  Warning.split_warning "299 a,299 b" = ["299 a"; "299 b"].
Proof.
  rewrite (WarningFacts.without_quotes_every_comma_splits "299 a,299 b").
  - reflexivity.
  - apply (bool_decide_unpack _). vm_compute. exact I.
Defined.

Lemma without_comma_one_warning_witness :
  let value := "299 - " +:+ Warning.quoted "deprecated" in
  Warning.split_warning value = [value].
Proof.
  intros value. apply (WarningFacts.without_comma_one_warning value).
  apply (bool_decide_unpack _). vm_compute. exact I.
Defined.

(** ** One delivery at most, and where a request ends *)

Lemma callback_at_most_once_witness :
  (deliveries 7
     (run [ConnectionResponds 0 (json_head 200); ResponseFails 0 refused; ResponseEnd 0]
        (asked (bare "GET" "/")))
   <= deliveries 7 (single 0) + 1)%nat.
Proof.
  apply (callback_at_most_once 7 (bare "GET" "/") (single 0)). constructor.
Defined.

Lemma unserializable_body_ends_the_request_witness :
  trace (asked (document (VNum 1)))
  = [Deliver 7 (Some (JsError "not serializable")) (OfResult empty_result)] /\
  pending (asked (document (VNum 1))) = [].
Proof.
  destruct (unserializable_body_ends_the_request (document (VNum 1)) 7 (single 0) 0%nat
              (snd (getConnection sniff (snd (once (Caller 7) (single 0)))))
              (JsError "not serializable"))
    as (_ & Ht & Hp & _).
  - reflexivity.
  - split; reflexivity.
  - split; [exact Ht | exact Hp].
Defined.

(** ** What the connection is handed *)

Lemma request_keeps_what_it_does_not_set_witness :
  exists e,
    pending (asked (ignoring 404)) !! 0%nat = Some e /\
    path (pn_params e) = "/doc" /\ ignore (pn_params e) = VArr [VNum 404] /\
    timeout (pn_params e) = VNum 30000.
Proof.
  assert (Hid : snd (request (ignoring 404) (Caller 7) (single 0)) = Handle 0)
    by reflexivity.
  destruct (request_keeps_what_it_does_not_set (ignoring 404) (Caller 7) (single 0) 0%nat Hid)
    as (e & He & _ & _ & Hpath & Hign & _ & _ & Ht & _).
  exists e. split; [exact He |]. split; [exact Hpath |]. split; [exact Hign | exact Ht].
Defined.

Lemma body_decides_the_content_headers_witness :
  exists e,
    pending (asked (document (VObj []))) !! 0%nat = Some e /\
    body (pn_params e) = VStr "{}" /\
    default ∅ (headers (pn_params e)) !! "Content-Type" = Some "application/json" /\
    default ∅ (headers (pn_params e)) !! "Content-Length" = Some "2".
Proof.
  assert (Hid : snd (request (document (VObj [])) (Caller 7) (single 0)) = Handle 0)
    by reflexivity.
  destruct (body_decides_the_content_headers (document (VObj [])) (Caller 7) (single 0) 0%nat
              Hid)
    as (e & He & Hb & Hct & Hcl & _).
  exists e. split; [exact He |]. split; [exact Hb |]. split; [exact Hct | exact Hcl].
Defined.

Lemma retried_bulk_body_goes_as_json_witness :
  exists e e',
    pending (asked (bulk (VStr "{}"))) !! 0%nat = Some e /\
    default ∅ (headers (pn_params e)) !! "Content-Type" = Some "application/x-ndjson" /\
    pending (fst (request (retry_of e) (Caller 7) (single 0))) !! 0%nat = Some e' /\
    body (pn_params e') = body (pn_params e) /\
    default ∅ (headers (pn_params e')) !! "Content-Type" = Some "application/json".
Proof.
  assert (Hid : snd (request (bulk (VStr "{}")) (Caller 7) (single 0)) = Handle 0)
    by reflexivity.
  destruct (retried_bulk_body_goes_as_json (bulk (VStr "{}")) (Caller 7) (single 0) 0%nat
              eq_refl eq_refl Hid)
    as (e & He & Hct & _ & Hretry).
  assert (Hfirst : e = first_request (asked (bulk (VStr "{}")))).
  { unfold first_request, asked. now rewrite He. }
  destruct (Hretry (Caller 7) (single 0) 0%nat) as (e' & He' & Hb' & Hct').
  { rewrite Hfirst. reflexivity. }
  exists e, e'. split; [exact He |]. split; [exact Hct |].
  split; [exact He' |]. split; [exact Hb' | exact Hct'].
Defined.

(** ** Responses *)

Lemma chunks_are_appended_in_order_witness :
  let w := answered (bare "GET" "/") (json_head 200) [] in
  run (map (ResponseData 0) ["{"; "}"]) w
  = update_pending 0 (set_phase (Receiving "{}")) w.
Proof.
  intros w.
  apply (chunks_are_appended_in_order 0 ["{"; "}"] (first_request w) (json_head 200) "" w).
  repeat split.
Defined.

Lemma stream_mode_answers_at_the_head_witness :
  let w' := step (ConnectionResponds 0 (json_head 503)) (asked streaming) in
  length (pending w') = 1%nat /\
  run [ResponseData 0 "{}"; ResponseEnd 0] w' = w'.
Proof.
  intros w'.
  destruct (stream_mode_answers_at_the_head 0 (first_request (asked streaming))
              (json_head 503) (asked streaming))
    as (_ & Hlen & Hdone); try reflexivity.
  split; [exact Hlen |]. apply Hdone. repeat constructor.
Defined.

Lemma unreadable_body_is_the_error_witness :
  let w := answered (bare "GET" "/") (json_head 502) ["{"] in
  exists w1,
    step (ResponseEnd 0) w
    = call (pn_callback (first_request w)) (Some (JsError "Unexpected token"))
        (OfResult (pn_result (first_request w))) w1 /\
    pool w1 = pool w /\ pending w1 = pending w.
Proof.
  intros w.
  destruct (unreadable_body_is_the_error 0 (first_request w) (json_head 502) "{"
              "application/json" (JsError "Unexpected token") w)
    as (w1 & Hstep & _ & Hpool & Hp & _).
  - repeat split.
  - reflexivity.
  - reflexivity.
  - discriminate.
  - discriminate.
  - reflexivity.
  - exists w1. split; [exact Hstep |]. split; [exact Hpool | exact Hp].
Defined.

Lemma status_from_400_is_a_ResponseError_witness :
  let w := answered (bare "GET" "/") (plain_head 404) ["missing"] in
  let r := with_body (VStr "missing") (pn_result (first_request w)) in
  exists w1,
    step (ResponseEnd 0) w
    = call (pn_callback (first_request w)) (Some (ResponseError r)) (OfResult r) w1 /\
    trace w1 = trace w ++ [Pool_markAlive 0; Emit_response 0 (pn_params (first_request w)) r].
Proof.
  intros w r.
  destruct (status_from_400_is_a_ResponseError 0 (first_request w) (plain_head 404)
              "missing" (VStr "missing") w)
    as (w1 & Hstep & Ht & _); try discriminate; try reflexivity.
  - repeat split.
  - exists w1. split; [exact Hstep | exact Ht].
Defined.

Lemma ignored_status_is_no_error_witness :
  let w := answered (ignoring 502) (plain_head 502) ["bad gateway"] in
  let r := with_body (VStr "bad gateway") (pn_result (first_request w)) in
  exists w1,
    step (ResponseEnd 0) w = call (pn_callback (first_request w)) None (OfResult r) w1 /\
    trace w1 = trace w ++ [Pool_markAlive 0; Emit_response 0 (pn_params (first_request w)) r].
Proof.
  intros w r.
  destruct (ignored_status_is_no_error 0 (first_request w) (plain_head 502)
              "bad gateway" (VStr "bad gateway") w)
    as (w1 & b & Hstep & -> & Ht & _); try reflexivity.
  - repeat split.
  - exists w1. split; [exact Hstep | exact Ht].
Defined.

Lemma response_error_is_a_ConnectionError_witness :
  let w := answered (bare "GET" "/") (plain_head 200) ["par"] in
  pool (step (ResponseFails 0 refused) w) = pool w /\
  pending (step (ResponseFails 0 refused) w) = pending w.
Proof.
  intros w.
  destruct (response_error_is_a_ConnectionError 0 (first_request w) (plain_head 200)
              "par" refused w)
    as (_ & Hpool & Hp & _).
  - repeat split.
  - split; [exact Hpool | exact Hp].
Defined.

(** ** Sniffing *)

Lemma sniff_starts_with_one_request_witness :
  pending (sniff Noop periodic) = [sniff_entry 0 Noop periodic] /\
  _isSniffing (transport (sniff Noop periodic)) = true.
Proof.
  pose proof (sniff_starts_with_one_request Noop periodic eq_refl) as Hs.
  change (fst (selection periodic)) with (Some 0%nat) in Hs.
  destruct Hs as (Hp & _ & Hflag & _). split; [exact Hp | exact Hflag].
Defined.

Lemma failed_sniff_emits_error_twice_witness :
  let w' := step (ConnectionFails 0 refused) (sniff (Caller 9) periodic) in
  _isSniffing (transport w') = false /\ length (pending w') = 1%nat.
Proof.
  intros w'.
  destruct (failed_sniff_emits_error_twice 9 0%nat refused periodic) as (_ & Hflag & Hlen).
  - reflexivity.
  - reflexivity.
  - simpl. lia.
  - split; [exact Hflag | exact Hlen].
Defined.

Lemma sniff_callback_at_most_once_witness :
  (deliveries 9
     (run [ConnectionResponds 0 (json_head 200); ResponseData 0 "{}"; ResponseEnd 0;
           ResponseEnd 0]
        (sniff (Caller 9) periodic))
   <= deliveries 9 periodic + 1)%nat.
Proof.
  apply (sniff_callback_at_most_once 9 periodic); [constructor | reflexivity].
Defined.

Lemma connection_fault_starts_a_sniff_witness :
  let w := fst (request (bare "GET" "/") (Caller 7) watchful) in
  let dead := markDead 0 (update_pending 0 (set_phase Closed) w) in
  pending (sniff Noop dead) = pending dead ++ [sniff_entry 0 Noop dead].
Proof.
  intros w dead.
  destruct (connection_fault_starts_a_sniff 0 (first_request w) refused w)
    as (_ & Hp & _).
  - reflexivity.
  - reflexivity.
  - reflexivity.
  - reflexivity.
  - exact Hp.
Defined.

(** ** The endpoints *)

Lemma call_without_params_witness :
  Api.snapshotGetRepository VNull (Api.AFn (Api.UserFn 1)) (Api.AVal (VNum 5))
  = Api.Forwarded (Api.bare_request "/_snapshot") (Api.AFn (Api.UserFn 1)) /\
  Api.snapshotGetRepository VNull (Api.AVal VNull) (Api.AFn (Api.UserFn 1))
  = Api.Promised (Api.Forwarded (Api.bare_request "/_snapshot") (Api.AFn Api.Settle)).
Proof.
  destruct (ApiFacts.call_without_params VNull (Api.snapshot_get_repository VNull))
    as [Hfn Hnull].
  - constructor.
  - split.
    + exact (Hfn (Api.UserFn 1) (Api.AVal (VNum 5))).
    + exact (Hnull (Api.AVal VNull) (Api.AFn (Api.UserFn 1)) eq_refl).
Defined.

Lemma invalid_params_are_not_sent_witness :
  Api.forwarded
    (Api.xpackMigrationGetAssistance VNull (Api.AVal (VObj [("headers", VStr "x")]))
       (Api.AFn (Api.UserFn 1)))
  = None.
Proof.
  destruct (ApiFacts.invalid_params_are_not_sent VNull (Api.xpack_migration_get_assistance VNull)
              (VObj [("headers", VStr "x")]) (Api.UserFn 1))
    as [Hh _].
  - repeat constructor.
  - reflexivity.
  - destruct Hh as [Hnone _]; [reflexivity | discriminate | exact Hnone].
Defined.

Lemma querystring_holds_accepted_names_only_witness :
  let params := VObj [("masterTimeout", VStr "1s"); ("verbose", VBool true)] in
  exists request callback,
    Api.snapshotGetRepository VNull (Api.AVal params) (Api.AFn (Api.UserFn 1))
    = Api.Forwarded request callback /\
    exists qs,
      Api.rq_querystring request = VObj qs /\
      Forall (fun name => name ∈ Api.ep_accepted (Api.snapshot_get_repository VNull))
        (map fst qs).
Proof.
  intros params. eexists _, _. split; [reflexivity |].
  apply (ApiFacts.querystring_holds_accepted_names_only VNull
           (Api.snapshot_get_repository VNull) (Api.AVal params) (Api.AFn (Api.UserFn 1))).
  - constructor.
  - reflexivity.
Defined.

Lemma camelCase_names_are_renamed_witness :
  let params := VObj [("masterTimeout", VStr "1s"); ("verbose", VBool true)] in
  exists request callback,
    Api.snapshotGetRepository VNull (Api.AVal params) (Api.AFn (Api.UserFn 1))
    = Api.Forwarded request callback /\
    get_prop (Api.rq_querystring request) "master_timeout" = VStr "1s".
Proof.
  intros params. eexists _, _. split; [reflexivity |].
  eapply (ApiFacts.camelCase_names_are_renamed VNull (Api.snapshot_get_repository VNull)
           params (Api.UserFn 1) _ _ 0%nat "master_timeout" "masterTimeout").
  - constructor.
  - reflexivity.
  - reflexivity.
  - constructor.
  - right. apply (bool_decide_unpack _). vm_compute. exact I.
  - reflexivity.
Defined.

Lemma last_part_is_one_path_segment_witness :
  let ep := Api.snapshot_get_repository VNull in
  exists request callback,
    Api.snapshotGetRepository VNull (Api.AVal (VObj [("repository", VStr "my/backup")]))
      (Api.AFn (Api.UserFn 1))
    = Api.Forwarded request callback /\
    exists s,
      Api.to_string (VStr "my/backup") = Some s /\
      Api.rq_path request = Api.ep_base ep +:+ "/" +:+ Api.encodeURIComponent s /\
      "/"%char ∉ list_ascii_of_string (Api.encodeURIComponent s).
Proof.
  intros ep. eexists _, _. split; [reflexivity |].
  assert (Hin : ep ∈ Api.endpoints VNull) by constructor.
  match goal with |- context [Api.rq_path ?request] =>
    assert (Hcall : Api.ep_call ep (Api.AVal (VObj [("repository", VStr "my/backup")]))
                      (Api.AFn (Api.UserFn 1))
                    = Api.Forwarded request (Api.AFn (Api.UserFn 1))) by reflexivity
  end.
  exact (ApiFacts.last_part_is_one_path_segment VNull ep _ _ _ _ Hin Hcall).
Defined.
Lemma different_names_different_paths_witness :
  Api.to_string (VStr "7") = Api.to_string (VNum 7).
Proof.
  eapply (ApiFacts.different_names_different_paths VNull
           (Api.xpack_migration_get_assistance VNull)
           (VObj [("index", VStr "7")]) (VObj [("index", VNum 7)])
           (Api.UserFn 1) (Api.UserFn 2) _ _ _ _).
  - repeat constructor.
  - reflexivity.
  - reflexivity.
  - reflexivity.
  - reflexivity.
  - reflexivity.
Defined.

Lemma numeric_ignore_becomes_a_list_witness :
  exists request callback,
    Api.snapshotGetRepository VNull (Api.AVal (VObj [("ignore", VNum 404)]))
      (Api.AFn (Api.UserFn 1))
    = Api.Forwarded request callback /\
    Api.rq_ignore request = VArr [VNum 404] /\
    ignored (Api.rq_ignore request) 404 = true.
Proof.
  eexists _, _. split; [reflexivity |].
  eapply (ApiFacts.numeric_ignore_becomes_a_list VNull (Api.snapshot_get_repository VNull)
           (VObj [("ignore", VNum 404)]) (Api.UserFn 1) _ _ 404).
  - constructor.
  - reflexivity.
  - reflexivity.
Defined.

End Runs.
